(** * Job store, incremental upsert, duplicate sweep and region lookup

    A shallow embedding of the deduplication core of the job scraper:
    [get_region] of [nz_locations.py], [JobDatabase.insert_or_update_job] of
    [seek_scraper_selenium.py], and [remove_duplicates] of
    [find_true_duplicates.py] and of [remove_duplicates_simple.py]; and of
    the code around it: the page loop of the scraper, [find_duplicates] and
    [main] of [find_true_duplicates.py], [backfill_regions.py], and the
    triage, statistics and filter options of [supabase_client.py]. *)

From Stdlib Require Import String Ascii List Bool ZArith NArith Lia Permutation.
From Stdlib Require Import Sorted.
Import ListNotations.
Open Scope string_scope.
Open Scope list_scope.

(** ** Python strings

    A Python [str] is a sequence of code points.  The embedding uses Rocq's
    [string], whose characters are the code points U+0000 to U+00FF; within
    that range [lower], [strip], [in] and slicing are those of Python. *)

Module PyStr.

(** [c.lower()] for one code point below 256: A-Z and the Latin-1 capitals
    (U+00C0-U+00DE without the multiplication sign U+00D7) move up by 32. *)
Definition lower_char (c : ascii) : ascii :=
  let n := N_of_ascii c in
  if (((65 <=? n) && (n <=? 90)) ||
      ((192 <=? n) && (n <=? 222) && negb (n =? 215)))%N
  then ascii_of_N (n + 32) else c.

(** [s.lower()] *)
Fixpoint lower (s : string) : string :=
  match s with
  | EmptyString => EmptyString
  | String c s' => String (lower_char c) (lower s')
  end.

(** [c.isspace()] for one code point below 256: TAB, LF, VT, FF, CR,
    FS, GS, RS, US, SPACE, NEL and NBSP. *)
Definition is_space (c : ascii) : bool :=
  let n := N_of_ascii c in
  (((9 <=? n) && (n <=? 13)) || ((28 <=? n) && (n <=? 32)) ||
   (n =? 133) || (n =? 160))%N.

(** [s.lstrip()] *)
Fixpoint lstrip (s : string) : string :=
  match s with
  | EmptyString => EmptyString
  | String c s' => if is_space c then lstrip s' else s
  end.

(** [s.rstrip()] *)
Fixpoint rstrip (s : string) : string :=
  match s with
  | EmptyString => EmptyString
  | String c s' =>
      match rstrip s' with
      | EmptyString => if is_space c then EmptyString else String c EmptyString
      | r => String c r
      end
  end.

(** [s.strip()] *)
Definition strip (s : string) : string := rstrip (lstrip s).

(** [s.startswith(k)] *)
Fixpoint startswith (s k : string) {struct k} : bool :=
  match k, s with
  | EmptyString, _ => true
  | String a k', String b s' => Ascii.eqb a b && startswith s' k'
  | String _ _, EmptyString => false
  end.

(** [k in s] *)
Fixpoint str_in (k s : string) : bool :=
  startswith s k ||
  match s with
  | EmptyString => false
  | String _ s' => str_in k s'
  end.

(** [s[:n]] *)
Fixpoint slice_to (n : nat) (s : string) : string :=
  match n, s with
  | S n', String c s' => String c (slice_to n' s')
  | _, _ => EmptyString
  end.

(** A string that [strip] leaves alone as a whole and at every occurrence:
    it is not empty and neither starts nor ends with a space. *)
Definition starts_nonspace (k : string) : bool :=
  match k with
  | EmptyString => false
  | String a _ => negb (is_space a)
  end.

Fixpoint ends_nonspace (k : string) : bool :=
  match k with
  | EmptyString => false
  | String a EmptyString => negb (is_space a)
  | String _ k' => ends_nonspace k'
  end.

Definition trimmed (k : string) : bool := starts_nonspace k && ends_nonspace k.

End PyStr.

(** ** Python values held by the scraper's dictionaries *)

(** A field of a scraped job is [None] or a [str]. *)
Inductive pyval : Type :=
| PyNone
| PyStr (s : string).

(** Truthiness: [None] and the empty string are false. *)
Definition truthy (v : pyval) : bool :=
  match v with
  | PyNone => false
  | PyStr s => negb (String.eqb s "")
  end.

(** A [dict] with [str] keys, in insertion order. *)
Definition pydict (V : Type) : Type := list (string * V).

Module Dict.
Section Ops.
Context {V : Type}.

(** [d[k] = v]: a key that is present keeps its position and takes the new
    value; a new key goes to the end. *)
Fixpoint set (d : pydict V) (k : string) (v : V) : pydict V :=
  match d with
  | [] => [(k, v)]
  | (k', v') :: d' =>
      if String.eqb k' k then (k', v) :: d' else (k', v') :: set d' k v
  end.

(** The dict a display [{k1: v1, k2: v2, ...}] evaluates to: the pairs are
    stored from left to right. *)
Definition of_display (pairs : list (string * V)) : pydict V :=
  fold_left (fun d kv => set d (fst kv) (snd kv)) pairs [].

(** [d.items()] *)
Definition items (d : pydict V) : list (string * V) := d.

(** [d.get(k)], [None] of Rocq standing for an absent key *)
Fixpoint lookup (d : pydict V) (k : string) : option V :=
  match d with
  | [] => None
  | (k', v) :: d' => if String.eqb k' k then Some v else lookup d' k
  end.

End Ops.

(** [d.get(k, default)] *)
Definition get (d : pydict pyval) (k : string) (default : pyval) : pyval :=
  match lookup d k with
  | Some v => v
  | None => default
  end.

End Dict.

(** ** nz_locations.py *)

Module NzLocations.

Definition REGIONS : list string :=
  [ "Auckland"; "Wellington"; "Christchurch"; "Hamilton"; "Tauranga";
    "Dunedin"; "Queenstown"; "Palmerston North"; "Napier-Hastings"; "Nelson";
    "Rotorua"; "New Plymouth"; "Whangarei"; "Invercargill"; "Whanganui";
    "Gisborne"; "Blenheim"; "Timaru"; "Other NZ"; "Remote / Work from Home" ].

(** The pairs of the display that defines [LOCATION_MAPPING], in the order
    in which the source lists them ("Frankton" and "Richmond" appear twice). *)
Definition LOCATION_MAPPING_display : list (string * string) :=
  [
    ("Auckland", "Auckland");
    ("CBD", "Auckland");
    ("North Shore", "Auckland");
    ("Takapuna", "Auckland");
    ("Albany", "Auckland");
    ("Orewa", "Auckland");
    ("Hibiscus Coast", "Auckland");
    ("Silverdale", "Auckland");
    ("Devonport", "Auckland");
    ("Birkenhead", "Auckland");
    ("Glenfield", "Auckland");
    ("Browns Bay", "Auckland");
    ("Milford", "Auckland");
    ("East Auckland", "Auckland");
    ("Howick", "Auckland");
    ("Pakuranga", "Auckland");
    ("Botany", "Auckland");
    ("Manukau", "Auckland");
    ("Papatoetoe", "Auckland");
    ("Otahuhu", "Auckland");
    ("Mangere", "Auckland");
    ("Otara", "Auckland");
    ("Flat Bush", "Auckland");
    ("South Auckland", "Auckland");
    ("Papakura", "Auckland");
    ("Takanini", "Auckland");
    ("Drury", "Auckland");
    ("Pukekohe", "Auckland");
    ("Waiuku", "Auckland");
    ("Franklin", "Auckland");
    ("West Auckland", "Auckland");
    ("Henderson", "Auckland");
    ("Te Atatu", "Auckland");
    ("Glen Eden", "Auckland");
    ("New Lynn", "Auckland");
    ("Avondale", "Auckland");
    ("Mt Albert", "Auckland");
    ("Pt Chevalier", "Auckland");
    ("Grey Lynn", "Auckland");
    ("Ponsonby", "Auckland");
    ("Parnell", "Auckland");
    ("Newmarket", "Auckland");
    ("Remuera", "Auckland");
    ("Epsom", "Auckland");
    ("Mt Eden", "Auckland");
    ("Grafton", "Auckland");
    ("Penrose", "Auckland");
    ("Onehunga", "Auckland");
    ("Ellerslie", "Auckland");
    ("Greenlane", "Auckland");
    ("Mt Wellington", "Auckland");
    ("Panmure", "Auckland");
    ("Glen Innes", "Auckland");
    ("St Heliers", "Auckland");
    ("Mission Bay", "Auckland");
    ("Kohimarama", "Auckland");
    ("Meadowbank", "Auckland");
    ("Orakei", "Auckland");
    ("Waitakere", "Auckland");
    ("Kumeu", "Auckland");
    ("Helensville", "Auckland");
    ("Whangaparaoa", "Auckland");
    ("Rodney", "Auckland");
    ("Warkworth", "Auckland");
    ("Wellington", "Wellington");
    ("Lower Hutt", "Wellington");
    ("Upper Hutt", "Wellington");
    ("Hutt Valley", "Wellington");
    ("Porirua", "Wellington");
    ("Kapiti", "Wellington");
    ("Paraparaumu", "Wellington");
    ("Waikanae", "Wellington");
    ("Petone", "Wellington");
    ("Eastbourne", "Wellington");
    ("Wainuiomata", "Wellington");
    ("Miramar", "Wellington");
    ("Kilbirnie", "Wellington");
    ("Lyall Bay", "Wellington");
    ("Island Bay", "Wellington");
    ("Newtown", "Wellington");
    ("Mt Victoria", "Wellington");
    ("Te Aro", "Wellington");
    ("Thorndon", "Wellington");
    ("Kelburn", "Wellington");
    ("Karori", "Wellington");
    ("Johnsonville", "Wellington");
    ("Tawa", "Wellington");
    ("Churton Park", "Wellington");
    ("Khandallah", "Wellington");
    ("Ngaio", "Wellington");
    ("Wadestown", "Wellington");
    ("Brooklyn", "Wellington");
    ("Mornington", "Wellington");
    ("Berhampore", "Wellington");
    ("Seatoun", "Wellington");
    ("Strathmore", "Wellington");
    ("Hataitai", "Wellington");
    ("Masterton", "Wellington");
    ("Carterton", "Wellington");
    ("Greytown", "Wellington");
    ("Featherston", "Wellington");
    ("Wairarapa", "Wellington");
    ("Christchurch", "Christchurch");
    ("Canterbury", "Christchurch");
    ("Addington", "Christchurch");
    ("Riccarton", "Christchurch");
    ("Ilam", "Christchurch");
    ("Fendalton", "Christchurch");
    ("Merivale", "Christchurch");
    ("Papanui", "Christchurch");
    ("Bishopdale", "Christchurch");
    ("Burnside", "Christchurch");
    ("Avonhead", "Christchurch");
    ("Hornby", "Christchurch");
    ("Sockburn", "Christchurch");
    ("Wigram", "Christchurch");
    ("Halswell", "Christchurch");
    ("Spreydon", "Christchurch");
    ("Sydenham", "Christchurch");
    ("Cashmere", "Christchurch");
    ("St Martins", "Christchurch");
    ("Opawa", "Christchurch");
    ("Woolston", "Christchurch");
    ("Ferrymead", "Christchurch");
    ("Sumner", "Christchurch");
    ("Lyttelton", "Christchurch");
    ("Linwood", "Christchurch");
    ("Phillipstown", "Christchurch");
    ("Waltham", "Christchurch");
    ("St Albans", "Christchurch");
    ("Edgeware", "Christchurch");
    ("Mairehau", "Christchurch");
    ("Shirley", "Christchurch");
    ("Richmond", "Christchurch");
    ("Avonside", "Christchurch");
    ("Dallington", "Christchurch");
    ("Burwood", "Christchurch");
    ("Parklands", "Christchurch");
    ("New Brighton", "Christchurch");
    ("Kaiapoi", "Christchurch");
    ("Rangiora", "Christchurch");
    ("Rolleston", "Christchurch");
    ("Lincoln", "Christchurch");
    ("Prebbleton", "Christchurch");
    ("Selwyn", "Christchurch");
    ("Waimakariri", "Christchurch");
    ("Belfast", "Christchurch");
    ("Northwood", "Christchurch");
    ("Redwood", "Christchurch");
    ("Harewood", "Christchurch");
    ("Russley", "Christchurch");
    ("Yaldhurst", "Christchurch");
    ("Templeton", "Christchurch");
    ("Ashburton", "Christchurch");
    ("Hamilton", "Hamilton");
    ("Waikato", "Hamilton");
    ("Cambridge", "Hamilton");
    ("Te Awamutu", "Hamilton");
    ("Morrinsville", "Hamilton");
    ("Matamata", "Hamilton");
    ("Ngaruawahia", "Hamilton");
    ("Huntly", "Hamilton");
    ("Raglan", "Hamilton");
    ("Frankton", "Hamilton");
    ("Claudelands", "Hamilton");
    ("Hamilton East", "Hamilton");
    ("Hamilton Central", "Hamilton");
    ("Hillcrest", "Hamilton");
    ("Rototuna", "Hamilton");
    ("Te Rapa", "Hamilton");
    ("Dinsdale", "Hamilton");
    ("Tauranga", "Tauranga");
    ("Bay of Plenty", "Tauranga");
    ("Mt Maunganui", "Tauranga");
    ("Mount Maunganui", "Tauranga");
    ("Papamoa", "Tauranga");
    ("Te Puke", "Tauranga");
    ("Whakatane", "Tauranga");
    ("Katikati", "Tauranga");
    ("Omokoroa", "Tauranga");
    ("Bethlehem", "Tauranga");
    ("Greerton", "Tauranga");
    ("Pyes Pa", "Tauranga");
    ("Welcome Bay", "Tauranga");
    ("Dunedin", "Dunedin");
    ("Otago", "Dunedin");
    ("Mosgiel", "Dunedin");
    ("Port Chalmers", "Dunedin");
    ("St Kilda", "Dunedin");
    ("South Dunedin", "Dunedin");
    ("North Dunedin", "Dunedin");
    ("Oamaru", "Dunedin");
    ("Balclutha", "Dunedin");
    ("Alexandra", "Dunedin");
    ("Cromwell", "Dunedin");
    ("Central Otago", "Dunedin");
    ("Queenstown", "Queenstown");
    ("Arrowtown", "Queenstown");
    ("Frankton", "Queenstown");
    ("Wanaka", "Queenstown");
    ("Queenstown-Lakes", "Queenstown");
    ("Palmerston North", "Palmerston North");
    ("Manawatu", "Palmerston North");
    ("Feilding", "Palmerston North");
    ("Levin", "Palmerston North");
    ("Horowhenua", "Palmerston North");
    ("Napier", "Napier-Hastings");
    ("Hastings", "Napier-Hastings");
    ("Hawke's Bay", "Napier-Hastings");
    ("Hawkes Bay", "Napier-Hastings");
    ("Havelock North", "Napier-Hastings");
    ("Taradale", "Napier-Hastings");
    ("Flaxmere", "Napier-Hastings");
    ("Nelson", "Nelson");
    ("Tasman", "Nelson");
    ("Richmond", "Nelson");
    ("Motueka", "Nelson");
    ("Stoke", "Nelson");
    ("Rotorua", "Rotorua");
    ("Lakes", "Rotorua");
    ("Taupo", "Rotorua");
    ("New Plymouth", "New Plymouth");
    ("Taranaki", "New Plymouth");
    ("Stratford", "New Plymouth");
    ("Hawera", "New Plymouth");
    ("Inglewood", "New Plymouth");
    ("Waitara", "New Plymouth");
    ("Whangarei", "Whangarei");
    ("Northland", "Whangarei");
    ("Kerikeri", "Whangarei");
    ("Paihia", "Whangarei");
    ("Kaitaia", "Whangarei");
    ("Dargaville", "Whangarei");
    ("Invercargill", "Invercargill");
    ("Southland", "Invercargill");
    ("Gore", "Invercargill");
    ("Te Anau", "Invercargill");
    ("Whanganui", "Whanganui");
    ("Wanganui", "Whanganui");
    ("Gisborne", "Gisborne");
    ("East Coast", "Gisborne");
    ("Blenheim", "Blenheim");
    ("Marlborough", "Blenheim");
    ("Picton", "Blenheim");
    ("Timaru", "Timaru");
    ("South Canterbury", "Timaru");
    ("Remote", "Remote / Work from Home");
    ("Work from Home", "Remote / Work from Home");
    ("WFH", "Remote / Work from Home");
    ("Anywhere", "Remote / Work from Home");
    ("New Zealand", "Remote / Work from Home");
    ("NZ Wide", "Remote / Work from Home")
  ].

Definition LOCATION_MAPPING : pydict string :=
  Dict.of_display LOCATION_MAPPING_display.

(** [get_region(location)] *)
Definition get_region (location : pyval) : string :=
  match location with
  | PyNone => "Other NZ"
  | PyStr loc =>
      if negb (truthy location) then "Other NZ" else
      let location_lower := PyStr.strip (PyStr.lower loc) in
      match find (fun kr => PyStr.str_in (PyStr.lower (fst kr)) location_lower)
                 (Dict.items LOCATION_MAPPING) with
      | Some (_, region) => region
      | None =>
          match find (fun region => PyStr.str_in (PyStr.lower region) location_lower)
                     REGIONS with
          | Some region => region
          | None => "Other NZ"
          end
      end
  end.

(** The keywords the first loop of [get_region] tries before it reaches [k]. *)
Fixpoint keywords_before (k : string) (d : pydict string) : list string :=
  match d with
  | [] => []
  | (k', _) :: d' =>
      if String.eqb k' k then [] else k' :: keywords_before k d'
  end.

End NzLocations.

(** ** The region rule in the words of the specification

    "Scan a fixed ordered list of (keyword, region) pairs; return the region
    for the first keyword whose lowercase form is a substring of the
    lowercased location string.  If no keyword matches, scan a fixed list of
    canonical region names and return the first one that is a substring of
    the location.  If still no match, return the sentinel region." *)

Module RegionRule.

Definition sentinel : string := "Other NZ".

Definition region_for (table : list (string * string)) (names : list string)
    (location : string) : string :=
  match find (fun kr => PyStr.str_in (PyStr.lower (fst kr)) (PyStr.lower location))
             table with
  | Some (_, region) => region
  | None =>
      match find (fun name => PyStr.str_in name location) names with
      | Some name => name
      | None => sentinel
      end
  end.

End RegionRule.

(** ** The jobs table *)

(** Timestamps are points on the clock; [datetime.utcnow().isoformat()] and
    SQL's ordering of the stored text agree with their order. *)
Definition time : Type := Z.
Bind Scope Z_scope with time.

Module Jobs.

(** One row of the [jobs] table.  A nullable text column is an [option]. *)
Record row : Type := mkRow {
  id : Z;
  url : option string;
  title : option string;
  company : option string;
  location : option string;
  region : option string;
  salary : option string;
  date_listed : option string;
  job_type : option string;
  description : option string;
  first_seen : time;
  last_seen : time;
  is_active : bool;
  triage_status : option string
}.

(** The effect of [update({"last_seen": now, "is_active": True})] on a row. *)
Definition touch (now : time) (r : row) : row :=
  {| id := id r; url := url r; title := title r; company := company r;
     location := location r; region := region r; salary := salary r;
     date_listed := date_listed r; job_type := job_type r;
     description := description r; first_seen := first_seen r;
     last_seen := now; is_active := true;
     triage_status := triage_status r |}.

(** The JSON value of a Python value, as a column: [None] is SQL NULL. *)
Definition column (v : pyval) : option string :=
  match v with
  | PyNone => None
  | PyStr s => Some s
  end.

(** [x or ""] for a stored text column read back into Python. *)
Definition or_empty (c : option string) : string :=
  match c with
  | Some s => s
  | None => ""
  end.

End Jobs.

(** ** seek_scraper_selenium.py: [JobDatabase] *)

Module JobDatabase.

(** What the body of [insert_or_update_job] can raise. *)
Inductive exn : Type :=
| KeyError (key : string)   (* [job['url']] on a dict without that key *)
| TypeError                 (* [None[:80]] *)
| APIError.                 (* a request to the store failed *)

Inductive outcome (A : Type) : Type :=
| Ok (a : A)
| Raise (e : exn).
Arguments Ok {A} a.
Arguments Raise {A} e.

(** The records the logger receives. *)
Inductive log_record : Type :=
| InfoDuplicate (title company : pyval)
| InfoExistingUrl (prefix : string)
| InfoNewUrl (prefix : string)
| DebugInserted (region : string)
| ErrorInsertingUpdating (e : exn).

(** The store behind [self.client], the failures its coming requests will
    meet (one flag per [execute()], [true] for a failing request, none left
    meaning no failure), and the log. *)
Record world : Type := mkWorld {
  jobs : list Jobs.row;
  next_id : Z;
  faults : list bool;
  log : list log_record
}.

Definition with_jobs (w : world) (js : list Jobs.row) : world :=
  {| jobs := js; next_id := next_id w; faults := faults w; log := log w |}.

(** Computations of the method body: state and exceptions. *)
Definition M (A : Type) : Type := world -> outcome A * world.

Definition ret {A : Type} (a : A) : M A := fun w => (Ok a, w).

Definition raise {A : Type} (e : exn) : M A := fun w => (Raise e, w).

Definition bind {A B : Type} (m : M A) (k : A -> M B) : M B :=
  fun w =>
    match m w with
    | (Ok a, w') => k a w'
    | (Raise e, w') => (Raise e, w')
    end.

Notation "x <- m ;; k" := (bind m (fun x => k))
  (at level 61, m at next level, right associativity).
Notation "m ;;; k" := (bind m (fun _ => k))
  (at level 61, right associativity).

(** [logger.info], [logger.debug], [logger.error] *)
Definition logger (r : log_record) : M unit :=
  fun w => (Ok tt, {| jobs := jobs w; next_id := next_id w;
                      faults := faults w; log := log w ++ [r] |}).

(** One request to the store: it consumes the next failure flag and raises
    when the flag is set; a failing request has no effect on the table. *)
Definition execute : M unit :=
  fun w =>
    match faults w with
    | [] => (Ok tt, w)
    | b :: rest =>
        let w' := {| jobs := jobs w; next_id := next_id w;
                     faults := rest; log := log w |} in
        if b then (Raise APIError, w') else (Ok tt, w')
    end.

(** The text a filter value is sent as: the client formats the criterion
    with [str()], so [None] travels as the text [None]. *)
Definition criterion (v : pyval) : string :=
  match v with
  | PyNone => "None"
  | PyStr s => s
  end.

(** [.eq(column, v)] on one row: SQL equality, which a NULL never meets. *)
Definition eq_filter (c : option string) (v : pyval) : bool :=
  match c with
  | Some s => String.eqb s (criterion v)
  | None => false
  end.

(** [table("jobs").select(...).<filters>.execute().data], rows in table order *)
Definition select (p : Jobs.row -> bool) : M (list Jobs.row) :=
  execute ;;; (fun w => (Ok (filter p (jobs w)), w)).

(** [table("jobs").update({"last_seen": now, "is_active": True}).<filters>.execute()] *)
Definition update_seen (now : time) (p : Jobs.row -> bool) : M unit :=
  execute ;;;
  (fun w => (Ok tt, with_jobs w (map (fun r => if p r then Jobs.touch now r else r) (jobs w)))).

(** [table("jobs").insert({...}).execute()]: the store assigns the next
    identifier; [triage_status] is not sent and stays NULL. *)
Definition insert (mk : Z -> Jobs.row) : M unit :=
  execute ;;;
  (fun w => (Ok tt, {| jobs := jobs w ++ [mk (next_id w)];
                       next_id := next_id w + 1;
                       faults := faults w; log := log w |})).

(** [d[k]] *)
Definition subscript (d : pydict pyval) (k : string) : M pyval :=
  match Dict.lookup d k with
  | Some v => ret v
  | None => raise (KeyError k)
  end.

(** [v[:n]] for a value that must be a [str] *)
Definition slice_of (v : pyval) (n : nat) : M string :=
  match v with
  | PyStr s => ret (PyStr.slice_to n s)
  | PyNone => raise TypeError
  end.

(** [(v or '')] *)
Definition or_str (v : pyval) : string :=
  match v with
  | PyStr s => s
  | PyNone => ""
  end.

(** The branch of the loop taken when [dup_desc == desc_snippet]: three log
    records, the update of [dup] by its identifier, and [return False]. *)
Definition duplicate_found (now : time) (job : pydict pyval) (dup : Jobs.row)
    : M (option bool) :=
  logger (InfoDuplicate (Dict.get job "title" PyNone)
                        (Dict.get job "company" PyNone)) ;;;
  existing_url <- slice_of (match Jobs.url dup with
                            | Some u => PyStr u
                            | None => PyNone
                            end) 80 ;;
  logger (InfoExistingUrl existing_url) ;;;
  u <- subscript job "url" ;;
  new_url <- slice_of u 80 ;;
  logger (InfoNewUrl new_url) ;;;
  update_seen now (fun r => Jobs.id r =? Jobs.id dup)%Z ;;;
  ret (Some false).

(** The loop [for dup in duplicate_query.data]: [Some b] when the loop
    body returned [b] from the method, [None] when the loop ran out. *)
Fixpoint check_description (now : time) (job : pydict pyval)
    (desc_snippet : string) (dups : list Jobs.row) : M (option bool) :=
  match dups with
  | [] => ret None
  | dup :: rest =>
      dup_full <- select (fun r => Jobs.id r =? Jobs.id dup)%Z ;;
      match dup_full with
      | [] => check_description now job desc_snippet rest
      | d0 :: _ =>
          let dup_desc := PyStr.slice_to 200 (Jobs.or_empty (Jobs.description d0)) in
          if String.eqb dup_desc desc_snippet then duplicate_found now job dup
          else check_description now job desc_snippet rest
      end
  end.

(** The body of the [try] block of [insert_or_update_job]; [now] is what
    [datetime.utcnow()] reads during the call. *)
Definition insert_or_update_job_try (now : time) (job : pydict pyval) : M bool :=
  u <- subscript job "url" ;;
  existing <- select (fun r => eq_filter (Jobs.url r) u) ;;
  match existing with
  | _ :: _ =>
      update_seen now (fun r => eq_filter (Jobs.url r) u) ;;;
      ret false
  | [] =>
      let desc_snippet :=
        PyStr.slice_to 200 (or_str (Dict.get job "description" (PyStr ""))) in
      duplicate_query <-
        select (fun r =>
                  eq_filter (Jobs.title r) (Dict.get job "title" PyNone) &&
                  eq_filter (Jobs.company r) (Dict.get job "company" PyNone) &&
                  eq_filter (Jobs.location r) (Dict.get job "location" PyNone)) ;;
      found <- check_description now job desc_snippet duplicate_query ;;
      match found with
      | Some b => ret b
      | None =>
          let location := Dict.get job "location" (PyStr "") in
          let region := NzLocations.get_region location in
          insert (fun new_id =>
            {| Jobs.id := new_id;
               Jobs.url := Jobs.column (Dict.get job "url" PyNone);
               Jobs.title := Jobs.column (Dict.get job "title" PyNone);
               Jobs.company := Jobs.column (Dict.get job "company" PyNone);
               Jobs.location := Jobs.column location;
               Jobs.region := Some region;
               Jobs.salary := Jobs.column (Dict.get job "salary" PyNone);
               Jobs.date_listed := Jobs.column (Dict.get job "date_listed" PyNone);
               Jobs.job_type := Jobs.column (Dict.get job "job_type" PyNone);
               Jobs.description := Jobs.column (Dict.get job "description" PyNone);
               Jobs.first_seen := now;
               Jobs.last_seen := now;
               Jobs.is_active := true;
               Jobs.triage_status := None |}) ;;;
          logger (DebugInserted region) ;;;
          ret true
      end
  end.

(** [insert_or_update_job(job)]: [True] for a new job, [False] otherwise;
    an exception of the body is logged and answered with [False]. *)
Definition insert_or_update_job (now : time) (job : pydict pyval)
    (w : world) : bool * world :=
  match insert_or_update_job_try now job w with
  | (Ok is_new, w') => (is_new, w')
  | (Raise e, w') =>
      match logger (ErrorInsertingUpdating e) w' with
      | (_, w'') => (false, w'')
      end
  end.

(** The same call seen by its caller, with the outcome of the [try] body
    kept: whether the [except] branch ran. *)
Definition raised (now : time) (job : pydict pyval) (w : world) : bool :=
  match insert_or_update_job_try now job w with
  | (Ok _, _) => false
  | (Raise _, _) => true
  end.

(** The caller's use of the method, once per candidate:
    [if self.db.insert_or_update_job(job): new_jobs += 1]. *)
Fixpoint save_jobs (page_jobs : list (time * pydict pyval)) (new_jobs : nat)
    (w : world) : nat * world :=
  match page_jobs with
  | [] => (new_jobs, w)
  | (now, job) :: rest =>
      match insert_or_update_job now job w with
      | (true, w') => save_jobs rest (S new_jobs) w'
      | (false, w') => save_jobs rest new_jobs w'
      end
  end.

(** [get_job_count()], with a failing request left out *)
Definition get_job_count (w : world) : nat := List.length (jobs w).

(** *** The lookups of the method as functions of the table *)

(** The rows the filter [.eq("url", job['url'])] selects. *)
Definition url_rows (job_url : pyval) (table : list Jobs.row) : list Jobs.row :=
  filter (fun r => eq_filter (Jobs.url r) job_url) table.

(** [(job.get('description', '') or '')[:200]] *)
Definition desc_snippet_of (job : pydict pyval) : string :=
  PyStr.slice_to 200 (or_str (Dict.get job "description" (PyStr ""))).

(** The rows of [duplicate_query]. *)
Definition key_rows (job : pydict pyval) (table : list Jobs.row) : list Jobs.row :=
  filter (fun r =>
            eq_filter (Jobs.title r) (Dict.get job "title" PyNone) &&
            eq_filter (Jobs.company r) (Dict.get job "company" PyNone) &&
            eq_filter (Jobs.location r) (Dict.get job "location" PyNone)) table.

(** The test [dup_desc == desc_snippet] of the loop, on the description
    read back by the identifier of [dup]. *)
Definition description_matches (table : list Jobs.row) (snippet : string)
    (dup : Jobs.row) : bool :=
  match filter (fun r => Jobs.id r =? Jobs.id dup)%Z table with
  | [] => false
  | d0 :: _ =>
      String.eqb (PyStr.slice_to 200 (Jobs.or_empty (Jobs.description d0))) snippet
  end.

(** The row at which the loop stops, if any. *)
Definition first_duplicate (job : pydict pyval) (table : list Jobs.row)
    : option Jobs.row :=
  find (description_matches table (desc_snippet_of job)) (key_rows job table).

(** The second test of the method on one row: same title, company and
    location, and the same first 200 characters of the description. *)
Definition same_identity (job : pydict pyval) (r : Jobs.row) : bool :=
  eq_filter (Jobs.title r) (Dict.get job "title" PyNone) &&
  eq_filter (Jobs.company r) (Dict.get job "company" PyNone) &&
  eq_filter (Jobs.location r) (Dict.get job "location" PyNone) &&
  String.eqb (PyStr.slice_to 200 (Jobs.or_empty (Jobs.description r)))
             (desc_snippet_of job).

(** The row the method inserts. *)
Definition new_row (now : time) (job : pydict pyval) (new_id : Z) : Jobs.row :=
  {| Jobs.id := new_id;
     Jobs.url := Jobs.column (Dict.get job "url" PyNone);
     Jobs.title := Jobs.column (Dict.get job "title" PyNone);
     Jobs.company := Jobs.column (Dict.get job "company" PyNone);
     Jobs.location := Jobs.column (Dict.get job "location" (PyStr ""));
     Jobs.region := Some (NzLocations.get_region (Dict.get job "location" (PyStr "")));
     Jobs.salary := Jobs.column (Dict.get job "salary" PyNone);
     Jobs.date_listed := Jobs.column (Dict.get job "date_listed" PyNone);
     Jobs.job_type := Jobs.column (Dict.get job "job_type" PyNone);
     Jobs.description := Jobs.column (Dict.get job "description" PyNone);
     Jobs.first_seen := now;
     Jobs.last_seen := now;
     Jobs.is_active := true;
     Jobs.triage_status := None |}.

(** An update of the rows that satisfy [p]. *)
Definition touch_if (p : Jobs.row -> bool) (now : time) (r : Jobs.row) : Jobs.row :=
  if p r then Jobs.touch now r else r.

(** Two versions of a row that differ at most in [last_seen] and [is_active]. *)
Definition same_except_seen (r r' : Jobs.row) : Prop :=
  Jobs.id r' = Jobs.id r /\ Jobs.url r' = Jobs.url r /\
  Jobs.title r' = Jobs.title r /\ Jobs.company r' = Jobs.company r /\
  Jobs.location r' = Jobs.location r /\ Jobs.region r' = Jobs.region r /\
  Jobs.salary r' = Jobs.salary r /\ Jobs.date_listed r' = Jobs.date_listed r /\
  Jobs.job_type r' = Jobs.job_type r /\ Jobs.description r' = Jobs.description r /\
  Jobs.first_seen r' = Jobs.first_seen r /\
  Jobs.triage_status r' = Jobs.triage_status r.

(** The store assigns identifiers from a counter: they are distinct and
    below the next one. *)
Definition well_formed (w : world) : Prop :=
  NoDup (map Jobs.id (jobs w)) /\
  Forall (fun r => (Jobs.id r < next_id w)%Z) (jobs w).

(** *** What a computation does to the store *)

(** The table is as it was; the log and the pending failures may differ. *)
Definition same_table (w w' : world) : Prop :=
  jobs w' = jobs w /\ next_id w' = next_id w.

(** The requests made from [w] to [w']: flags taken from the front of
    [faults w].  A request that fails is the last one made, and it is the
    only way to [APIError]. *)
Definition attempts {A : Type} (o : outcome A) (w w' : world) : Prop :=
  exists made,
    faults w = made ++ faults w' /\
    match o with
    | Raise APIError =>
        exists before, made = before ++ [true] /\ Forall (fun b => b = false) before
    | _ => Forall (fun b => b = false) made
    end.

(** At most one write: some rows updated, or one row inserted at the end. *)
Definition one_write (now : time) (job : pydict pyval) (w w' : world) : Prop :=
  (exists p, jobs w' = map (touch_if p now) (jobs w) /\ next_id w' = next_id w) \/
  (jobs w' = jobs w ++ [new_row now job (next_id w)] /\
   next_id w' = (next_id w + 1)%Z).

(** A computation that only reads. *)
Definition reads {A : Type} (m : M A) : Prop :=
  forall w, attempts (fst (m w)) w (snd (m w)) /\ same_table w (snd (m w)).

(** A computation that writes at most once, as its last request, and not
    at all when it raises. *)
Definition writes_last {A : Type} (now : time) (job : pydict pyval) (m : M A)
    : Prop :=
  forall w,
    attempts (fst (m w)) w (snd (m w)) /\
    match fst (m w) with
    | Raise _ => same_table w (snd (m w))
    | Ok _ => one_write now job w (snd (m w))
    end.

End JobDatabase.

(** ** The duplicate sweep: SQL shared by both scripts *)

Module Sql.

(** The grouping key [title, company, location, SUBSTR(description, 1, 200)]
    of a row that passes [WHERE title IS NOT NULL AND company IS NOT NULL AND
    location IS NOT NULL]; [SUBSTR] of NULL is NULL, and GROUP BY puts the
    NULLs of a column together. *)
Definition key : Type := string * string * string * option string.

Definition key_of (r : Jobs.row) : option key :=
  match Jobs.title r, Jobs.company r, Jobs.location r with
  | Some t, Some c, Some l =>
      Some (t, c, l, option_map (PyStr.slice_to 200) (Jobs.description r))
  | _, _, _ => None
  end.

Definition option_eqb (a b : option string) : bool :=
  match a, b with
  | Some x, Some y => String.eqb x y
  | None, None => true
  | _, _ => false
  end.

Definition key_eqb (a b : key) : bool :=
  let '(t1, c1, l1, d1) := a in
  let '(t2, c2, l2, d2) := b in
  String.eqb t1 t2 && String.eqb c1 c2 && String.eqb l1 l2 && option_eqb d1 d2.

Definition has_key (k : key) (r : Jobs.row) : bool :=
  match key_of r with
  | Some k' => key_eqb k k'
  | None => false
  end.

(** The keys of the groups, each once, in the order of their first row.
    (SQL leaves the order of the groups open; nothing below depends on it.) *)
Fixpoint distinct (ks : list key) : list key :=
  match ks with
  | [] => []
  | k :: ks' => k :: filter (fun k' => negb (key_eqb k k')) (distinct ks')
  end.

(** [ORDER BY first_seen ASC] inside a group: rows with equal [first_seen]
    stay in table order. *)
Fixpoint insert_by_first_seen (r : Jobs.row) (l : list Jobs.row) : list Jobs.row :=
  match l with
  | [] => [r]
  | r' :: l' =>
      if (Jobs.first_seen r <=? Jobs.first_seen r')%Z then r :: l
      else r' :: insert_by_first_seen r l'
  end.

Fixpoint order_by_first_seen (l : list Jobs.row) : list Jobs.row :=
  match l with
  | [] => []
  | r :: l' => insert_by_first_seen r (order_by_first_seen l')
  end.

(** One row of the result of the grouping query.  [ids] is
    [GROUP_CONCAT(id ORDER BY first_seen ASC)] after the script's
    [int(x) for x in ... .split(',')]. *)
Record group : Type := mkGroup {
  g_title : string;
  g_company : string;
  g_location : string;
  g_desc_snippet : option string;
  ids : list Z;
  count : nat
}.

Definition members (k : key) (table : list Jobs.row) : list Jobs.row :=
  filter (has_key k) table.

Definition group_of (table : list Jobs.row) (k : key) : group :=
  let '(t, c, l, d) := k in
  {| g_title := t; g_company := c; g_location := l; g_desc_snippet := d;
     ids := map Jobs.id (order_by_first_seen (members k table));
     count := List.length (members k table) |}.

Definition keys_of (table : list Jobs.row) : list key :=
  distinct (flat_map (fun r => match key_of r with
                               | Some k => [k]
                               | None => []
                               end) table).

(** [SELECT ... FROM jobs WHERE ... GROUP BY ... HAVING count > 1] *)
Definition duplicate_groups (table : list Jobs.row) : list group :=
  filter (fun g => (1 <? count g)%nat) (map (group_of table) (keys_of table)).

(** [DELETE FROM jobs WHERE id = ?] *)
Definition delete (remove_id : Z) (table : list Jobs.row) : list Jobs.row :=
  filter (fun r => negb (Jobs.id r =? remove_id)%Z) table.

(** [i in ids] *)
Definition mem (i : Z) (l : list Z) : bool := existsb (Z.eqb i) l.

(** The identifiers a destructive run deletes: every member of a
    duplicate group but its first. *)
Definition removal_ids (table : list Jobs.row) : list Z :=
  flat_map (fun g => tl (ids g)) (duplicate_groups table).

(** The rows a destructive run leaves. *)
Definition survivors (table : list Jobs.row) : list Jobs.row :=
  filter (fun r => negb (mem (Jobs.id r) (removal_ids table))) table.

(** The keeper of the rows with key [k]: the first of them by [first_seen]. *)
Definition keeper (table : list Jobs.row) (k : key) : option Jobs.row :=
  hd_error (order_by_first_seen (members k table)).

End Sql.

(** ** find_true_duplicates.py *)

Module FindTrueDuplicates.

(** The lines the script prints that carry data. *)
Inductive line : Type :=
| GroupLine (title company location : string)
| KeepingLine (keep_id : Z)
| RemovingLine (remove_ids : list Z)
| DeletedLine (remove_id : Z)
| WouldDeleteLine (n : nat)
| TotalRemovedLine (total_removed : nat)
| TotalWouldLine (n : nat).

(** The table of [jobs.db], the counter and what was printed. *)
Record state : Type := mkState {
  table : list Jobs.row;
  total_removed : nat;
  printed : list line
}.

Definition print (l : line) (s : state) : state :=
  {| table := table s; total_removed := total_removed s;
     printed := printed s ++ [l] |}.

(** [for remove_id in remove_ids: DELETE ...; total_removed += 1; print(...)] *)
Fixpoint delete_each (remove_ids : list Z) (s : state) : state :=
  match remove_ids with
  | [] => s
  | remove_id :: rest =>
      delete_each rest
        (print (DeletedLine remove_id)
           {| table := Sql.delete remove_id (table s);
              total_removed := S (total_removed s);
              printed := printed s |})
  end.

(** The body of [for row in duplicate_groups]. *)
Definition resolve_group (dry_run : bool) (row : Sql.group) (s : state) : state :=
  let ids := Sql.ids row in
  let keep_id := hd 0%Z ids in
  let remove_ids := tl ids in
  let s1 := print (GroupLine (Sql.g_title row) (Sql.g_company row)
                             (Sql.g_location row)) s in
  let s2 := print (KeepingLine keep_id) s1 in
  let s3 := print (RemovingLine remove_ids) s2 in
  if negb dry_run then delete_each remove_ids s3
  else print (WouldDeleteLine (List.length remove_ids)) s3.

(** [remove_duplicates(dry_run)] on the table: the final state, whose
    [total_removed] is the value returned. *)
Definition remove_duplicates (dry_run : bool) (jobs : list Jobs.row) : state :=
  let duplicate_groups := Sql.duplicate_groups jobs in
  let s :=
    fold_left (fun s row => resolve_group dry_run row s) duplicate_groups
      {| table := jobs; total_removed := 0; printed := [] |} in
  if negb dry_run then print (TotalRemovedLine (total_removed s)) s
  else
    print (TotalWouldLine
             (list_sum (map (fun row => List.length (Sql.ids row) - 1)
                            duplicate_groups))) s.

(** What a dry run prints for one group. *)
Definition group_report (row : Sql.group) : list line :=
  [ GroupLine (Sql.g_title row) (Sql.g_company row) (Sql.g_location row);
    KeepingLine (hd 0%Z (Sql.ids row));
    RemovingLine (tl (Sql.ids row));
    WouldDeleteLine (List.length (tl (Sql.ids row))) ].

(** The identifiers a run reports as kept and as to be removed. *)
Definition reported_keepers (printed : list line) : list Z :=
  flat_map (fun l => match l with
                     | KeepingLine i => [i]
                     | _ => []
                     end) printed.

Definition reported_removals (printed : list line) : list Z :=
  flat_map (fun l => match l with
                     | RemovingLine l => l
                     | _ => []
                     end) printed.

(** The identifiers a run reports as deleted. *)
Definition deleted_ids (printed : list line) : list Z :=
  flat_map (fun l => match l with
                     | DeletedLine i => [i]
                     | _ => []
                     end) printed.

End FindTrueDuplicates.

(** ** remove_duplicates_simple.py *)

Module RemoveDuplicatesSimple.

Inductive line : Type :=
| JobsBeforeCleanupLine (before_count : nat)
| FoundGroupsLine (n : nat)
| RemovedSoFarLine (total_removed : nat)
| JobsBeforeLine (before_count : nat)
| JobsRemovedLine (total_removed : nat)
| JobsAfterLine (after_count : nat).

Record state : Type := mkState {
  table : list Jobs.row;
  total_removed : nat;
  printed : list line
}.

Definition print (l : line) (s : state) : state :=
  {| table := table s; total_removed := total_removed s;
     printed := printed s ++ [l] |}.

Fixpoint delete_each (remove_ids : list Z) (s : state) : state :=
  match remove_ids with
  | [] => s
  | remove_id :: rest =>
      delete_each rest
        {| table := Sql.delete remove_id (table s);
           total_removed := S (total_removed s);
           printed := printed s |}
  end.

Definition resolve_group (row : Sql.group) (s : state) : state :=
  let remove_ids := tl (Sql.ids row) in
  let s1 := delete_each remove_ids s in
  if (total_removed s1 mod 50 =? 0)%nat
  then print (RemovedSoFarLine (total_removed s1)) s1 else s1.

(** [remove_duplicates()] *)
Definition remove_duplicates (jobs : list Jobs.row) : state :=
  let before_count := List.length jobs in
  let s0 := print (JobsBeforeCleanupLine before_count)
              {| table := jobs; total_removed := 0; printed := [] |} in
  let duplicate_groups := Sql.duplicate_groups jobs in
  let s1 := print (FoundGroupsLine (List.length duplicate_groups)) s0 in
  let s2 := fold_left (fun s row => resolve_group row s) duplicate_groups s1 in
  let after_count := List.length (table s2) in
  print (JobsAfterLine after_count)
    (print (JobsRemovedLine (total_removed s2))
       (print (JobsBeforeLine before_count) s2)).

End RemoveDuplicatesSimple.

(** ** The operations on the store *)

Module Store.

Inductive operation : Type :=
| Upsert (now : time) (job : pydict pyval)
| Sweep (dry_run : bool)
| SweepSimple.

Definition apply (o : operation) (w : JobDatabase.world) : JobDatabase.world :=
  match o with
  | Upsert now job => snd (JobDatabase.insert_or_update_job now job w)
  | Sweep dry_run =>
      JobDatabase.with_jobs w
        (FindTrueDuplicates.table
           (FindTrueDuplicates.remove_duplicates dry_run (JobDatabase.jobs w)))
  | SweepSimple =>
      JobDatabase.with_jobs w
        (RemoveDuplicatesSimple.table
           (RemoveDuplicatesSimple.remove_duplicates (JobDatabase.jobs w)))
  end.

Definition run (ops : list operation) (w : JobDatabase.world) : JobDatabase.world :=
  fold_left (fun w o => apply o w) ops w.

(** Every row of [w'] is a row of [w] that changed at most in [last_seen]
    and [is_active], or a row created since, with a fresh identifier. *)
Definition carried_over (w w' : JobDatabase.world) : Prop :=
  (JobDatabase.next_id w <= JobDatabase.next_id w')%Z /\
  forall r', In r' (JobDatabase.jobs w') ->
    (exists r, In r (JobDatabase.jobs w) /\ JobDatabase.same_except_seen r r') \/
    (JobDatabase.next_id w <= Jobs.id r')%Z.

End Store.

(** ** Sample data *)

Module Sample.
Import JobDatabase.

Definition backend_a : Jobs.row :=
  {| Jobs.id := 1; Jobs.url := Some "https://www.seek.co.nz/job/1001";
     Jobs.title := Some "Backend Engineer"; Jobs.company := Some "Acme";
     Jobs.location := Some "Auckland"; Jobs.region := Some "Auckland";
     Jobs.salary := None; Jobs.date_listed := Some "2d ago";
     Jobs.job_type := Some "Full time"; Jobs.description := Some "We need...";
     Jobs.first_seen := 10; Jobs.last_seen := 10; Jobs.is_active := true;
     Jobs.triage_status := None |}.

(** The same posting as [backend_a], listed again under another url. *)
Definition backend_b : Jobs.row :=
  {| Jobs.id := 2; Jobs.url := Some "https://www.seek.co.nz/job/1002";
     Jobs.title := Some "Backend Engineer"; Jobs.company := Some "Acme";
     Jobs.location := Some "Auckland"; Jobs.region := Some "Auckland";
     Jobs.salary := None; Jobs.date_listed := Some "1d ago";
     Jobs.job_type := Some "Full time"; Jobs.description := Some "We need...";
     Jobs.first_seen := 20; Jobs.last_seen := 20; Jobs.is_active := true;
     Jobs.triage_status := None |}.

Definition cook : Jobs.row :=
  {| Jobs.id := 3; Jobs.url := Some "https://www.seek.co.nz/job/2001";
     Jobs.title := Some "Cook"; Jobs.company := Some "Cafe X";
     Jobs.location := Some "Wellington"; Jobs.region := Some "Wellington";
     Jobs.salary := None; Jobs.date_listed := None;
     Jobs.job_type := None; Jobs.description := Some "Busy cafe seeking...";
     Jobs.first_seen := 30; Jobs.last_seen := 30; Jobs.is_active := true;
     Jobs.triage_status := Some "yes" |}.


Definition world_of (table : list Jobs.row) (next : Z) : world :=
  {| jobs := table; next_id := next; faults := []; log := [] |}.

Definition failing (requests : list bool) (w : world) : world :=
  {| jobs := jobs w; next_id := next_id w; faults := requests; log := log w |}.

(** A scraped job with the identity of [backend_a] under a given url. *)
Definition backend_candidate (url : string) : pydict pyval :=
  [ ("url", PyStr url); ("title", PyStr "Backend Engineer");
    ("company", PyStr "Acme"); ("location", PyStr "Auckland");
    ("salary", PyNone); ("date_listed", PyStr "today");
    ("job_type", PyStr "Full time"); ("description", PyStr "We need...") ].

(** A scraped card whose title could not be read. *)
Definition untitled_candidate : pydict pyval :=
  [ ("url", PyStr "https://www.seek.co.nz/job/3001");
    ("company", PyStr "Acme"); ("location", PyStr "Auckland") ].

(** A scraped card without a link. *)
Definition unlinked_candidate : pydict pyval :=
  [ ("title", PyStr "Cook"); ("company", PyStr "Cafe X");
    ("location", PyStr "Wellington") ].

(** A copy of the backend posting under its own identifier, url and time
    of first observation. *)
Definition posting (id : Z) (url : string) (seen : time) : Jobs.row :=
  {| Jobs.id := id; Jobs.url := Some url;
     Jobs.title := Some "Backend Engineer"; Jobs.company := Some "Acme";
     Jobs.location := Some "Auckland"; Jobs.region := Some "Auckland";
     Jobs.salary := None; Jobs.date_listed := None;
     Jobs.job_type := Some "Full time"; Jobs.description := Some "We need...";
     Jobs.first_seen := seen; Jobs.last_seen := seen; Jobs.is_active := true;
     Jobs.triage_status := None |}.

(** A table with one duplicate group of size three, identifiers 10, 11
    and 12 in the order of their [first_seen], and one other row. *)
Definition seeded : list Jobs.row :=
  [ posting 12 "https://www.seek.co.nz/job/12" 300;
    cook;
    posting 10 "https://www.seek.co.nz/job/10" 100;
    posting 11 "https://www.seek.co.nz/job/11" 200 ].

End Sample.

(** ** Views of the table *)

Module Views.

(** The urls that are stored, NULLs left out, in table order. *)
Definition stored_urls (table : list Jobs.row) : list string :=
  flat_map (fun r => match Jobs.url r with
                     | Some u => [u]
                     | None => []
                     end) table.

(** No url is stored twice. *)
Definition urls_distinct (table : list Jobs.row) : Prop :=
  NoDup (stored_urls table).

End Views.

(** ** seek_scraper_selenium.py: the loop over the jobs of a page *)

Module SeekSeleniumScraper.
Import JobDatabase.

(** [s.endswith(suffix)] *)
Fixpoint endswith (s suffix : string) : bool :=
  String.eqb s suffix ||
  match s with
  | EmptyString => false
  | String _ s' => endswith s' suffix
  end.

(** [needs_backfill]: a short description, a snippet cut with an ellipsis,
    or the placeholder text. *)
Definition needs_backfill (existing_desc : string) : bool :=
  (String.length existing_desc <? 500)%nat ||
  endswith existing_desc "..." ||
  PyStr.str_in "Description not available" existing_desc.

(** The effect of [update({"description": full_description, "last_seen":
    now, "is_active": True})] on a row. *)
Definition backfill (now : time) (full_description : string) (r : Jobs.row)
    : Jobs.row :=
  {| Jobs.id := Jobs.id r; Jobs.url := Jobs.url r; Jobs.title := Jobs.title r;
     Jobs.company := Jobs.company r; Jobs.location := Jobs.location r;
     Jobs.region := Jobs.region r; Jobs.salary := Jobs.salary r;
     Jobs.date_listed := Jobs.date_listed r; Jobs.job_type := Jobs.job_type r;
     Jobs.description := Some full_description;
     Jobs.first_seen := Jobs.first_seen r;
     Jobs.last_seen := now; Jobs.is_active := true;
     Jobs.triage_status := Jobs.triage_status r |}.

(** [table("jobs").update({"description": ..., ...}).eq("id", i).execute()] *)
Definition update_description (now : time) (full_description : string) (i : Z)
    : M unit :=
  execute ;;;
  (fun w => (Ok tt,
             with_jobs w
               (map (fun r => if (Jobs.id r =? i)%Z
                              then backfill now full_description r else r)
                    (jobs w)))).

(** A call of [self.db.insert_or_update_job], which does not raise. *)
Definition call_insert_or_update_job (now : time) (job : pydict pyval) : M bool :=
  fun w => let (is_new, w') := insert_or_update_job now job w in (Ok is_new, w').

Section Page.

(** [self.scrape_job_details(job_url)]: what the job's own page gives, a
    description or [None].  It drives the browser and does not touch the
    store. *)
Variable scrape_job_details : string -> pyval.

(** The body of [for job in page_jobs]: the job as the loop leaves it (its
    description may have been replaced) and whether it was counted as new.
    The requests of the loop itself are not guarded: their failures leave
    the loop.  The log records of the loop are not kept. *)
Definition save_job (now : time) (job : pydict pyval)
    : M (pydict pyval * bool) :=
  match Dict.get job "url" PyNone with
  | PyNone => ret (job, false)
  | PyStr job_url =>
      if String.eqb job_url "" then ret (job, false) else
      existing <- select (fun r => eq_filter (Jobs.url r) (PyStr job_url)) ;;
      match existing with
      | existing_job :: _ =>
          let existing_desc := Jobs.or_empty (Jobs.description existing_job) in
          if needs_backfill existing_desc then
            match scrape_job_details job_url with
            | PyStr full_description =>
                if negb (String.eqb full_description "") &&
                   (String.length existing_desc <? String.length full_description)%nat
                then
                  update_description now full_description (Jobs.id existing_job) ;;;
                  ret (job, false)
                else
                  update_seen now (fun r => Jobs.id r =? Jobs.id existing_job)%Z ;;;
                  ret (job, false)
            | PyNone =>
                update_seen now (fun r => Jobs.id r =? Jobs.id existing_job)%Z ;;;
                ret (job, false)
            end
          else
            update_seen now (fun r => eq_filter (Jobs.url r) (PyStr job_url)) ;;;
            ret (job, false)
      | [] =>
          let full_description := scrape_job_details job_url in
          let job' := if truthy full_description
                      then Dict.set job "description" full_description
                      else job in
          is_new <- call_insert_or_update_job now job' ;;
          ret (job', is_new)
      end
  end.

(** [new_jobs = 0; for job in page_jobs: ...]: the jobs of the page as the
    loop leaves them and the number counted as new. *)
Fixpoint save_page (page_jobs : list (time * pydict pyval)) (new_jobs : nat)
    : M (list (pydict pyval) * nat) :=
  match page_jobs with
  | [] => ret ([], new_jobs)
  | (now, job) :: rest =>
      saved <- save_job now job ;;
      done <- save_page rest (if snd saved then S new_jobs else new_jobs) ;;
      ret (fst saved :: fst done, snd done)
  end.

End Page.

(** What one turn of the loop can do to the table. *)
Inductive turn (now : time) (w w' : world) : bool -> Prop :=
| turn_new (job' : pydict pyval) :
    jobs w' = jobs w ++ [new_row now job' (next_id w)] ->
    next_id w' = (next_id w + 1)%Z ->
    turn now w w' true
| turn_seen (p : Jobs.row -> bool) :
    jobs w' = map (touch_if p now) (jobs w) ->
    next_id w' = next_id w ->
    turn now w w' false
| turn_backfill (existing_job : Jobs.row) (full_description : string) :
    In existing_job (jobs w) ->
    needs_backfill (Jobs.or_empty (Jobs.description existing_job)) = true ->
    String.length (Jobs.or_empty (Jobs.description existing_job)) <
      String.length full_description ->
    jobs w' = map (fun r => if (Jobs.id r =? Jobs.id existing_job)%Z
                            then backfill now full_description r else r)
                  (jobs w) ->
    next_id w' = next_id w ->
    turn now w w' false.

(** A stored row and a later version of it: the description is the same,
    or the old one needed a backfill and the new one is longer; nothing else
    differs but [last_seen] and [is_active]. *)
Definition grown (r r' : Jobs.row) : Prop :=
  Jobs.id r' = Jobs.id r /\ Jobs.url r' = Jobs.url r /\
  Jobs.title r' = Jobs.title r /\ Jobs.company r' = Jobs.company r /\
  Jobs.location r' = Jobs.location r /\ Jobs.region r' = Jobs.region r /\
  Jobs.salary r' = Jobs.salary r /\ Jobs.date_listed r' = Jobs.date_listed r /\
  Jobs.job_type r' = Jobs.job_type r /\
  Jobs.first_seen r' = Jobs.first_seen r /\
  Jobs.triage_status r' = Jobs.triage_status r /\
  (Jobs.description r' = Jobs.description r \/
   (needs_backfill (Jobs.or_empty (Jobs.description r)) = true /\
    String.length (Jobs.or_empty (Jobs.description r)) <
    String.length (Jobs.or_empty (Jobs.description r')))).

(** Every row of [w] is still in [w'], grown at most; the other rows of
    [w'] are new. *)
Definition grown_over (w w' : world) : Prop :=
  (next_id w <= next_id w')%Z /\
  (forall r, In r (jobs w) -> exists r', In r' (jobs w') /\ grown r r') /\
  (forall r', In r' (jobs w') ->
     (exists r, In r (jobs w) /\ grown r r') \/ (next_id w <= Jobs.id r')%Z).

End SeekSeleniumScraper.

(** ** find_true_duplicates.py: [find_duplicates] and [main] *)

Module FindDuplicates.
Import JobDatabase.

(** One row of the grouping query of [find_duplicates]: the key, the
    number of rows and [GROUP_CONCAT(id)], here in table order (the query
    does not order the members).  The columns the function does not read
    ([urls], [dates], [earliest], [latest]) are left out. *)
Record duplicate : Type := mkDuplicate {
  title : string;
  company : string;
  location : string;
  desc_snippet : option string;
  count : nat;
  ids : list Z
}.

Definition duplicate_of (table : list Jobs.row) (k : Sql.key) : duplicate :=
  let '(t, c, l, d) := k in
  {| title := t; company := c; location := l; desc_snippet := d;
     count := List.length (Sql.members k table);
     ids := map Jobs.id (Sql.members k table) |}.

(** [ORDER BY count DESC]; groups of one size stay in their order. *)
Fixpoint insert_by_count (g : duplicate) (l : list duplicate) : list duplicate :=
  match l with
  | [] => [g]
  | g' :: l' =>
      if (count g' <=? count g)%nat then g :: l else g' :: insert_by_count g l'
  end.

Fixpoint order_by_count (l : list duplicate) : list duplicate :=
  match l with
  | [] => []
  | g :: l' => insert_by_count g (order_by_count l')
  end.

(** [SELECT ... GROUP BY ... HAVING count > 1 ORDER BY count DESC] *)
Definition query (table : list Jobs.row) : list duplicate :=
  order_by_count
    (filter (fun g => (1 <? count g)%nat)
            (map (duplicate_of table) (Sql.keys_of table))).

(** The lines of [find_duplicates] that carry data. *)
Inductive line : Type :=
| FoundGroupsLine (n : nat)
| NoDuplicatesFoundLine
| TotalDuplicateEntriesLine (total_dupes : nat)
| GroupHeaderLine (i : nat) (count : nat)
| GroupTitleLine (title : string)
| GroupCompanyLine (company : string)
| GroupLocationLine (location : string)
| SnippetLine (snippet : string)
| JobIdsLine (ids : list Z)
| JobLine (id : Z) (first_seen : time) (date_listed : string) (triage : string)
| UrlLine (url : string).

(** One entry of the list the function returns. *)
Record found : Type := mkFound {
  f_ids : list Z;
  f_count : nat;
  f_title : string;
  f_company : string;
  f_location : string
}.

(** The two prints for one identifier of a group: what was printed, and
    whether a [TypeError] was raised.  [fetchone()] gives the row with the
    identifier; formatting a NULL [date_listed] with [:20s] and slicing a
    NULL [url] raise. *)
Definition show_job (table : list Jobs.row) (job_id : Z) : list line * bool :=
  match find (fun r => Jobs.id r =? job_id)%Z table with
  | None => ([], true)
  | Some job =>
      let triage := match Jobs.triage_status job with
                    | Some s => if String.eqb s "" then "untagged" else s
                    | None => "untagged"
                    end in
      match Jobs.date_listed job with
      | None => ([], true)
      | Some date_listed =>
          let first := JobLine (Jobs.id job) (Jobs.first_seen job) date_listed triage in
          match Jobs.url job with
          | None => ([first], true)
          | Some url => ([first; UrlLine (PyStr.slice_to 80 url)], false)
          end
      end
  end.

(** [for job_id in ids: ...] *)
Fixpoint show_jobs (table : list Jobs.row) (ids : list Z) : list line * bool :=
  match ids with
  | [] => ([], false)
  | job_id :: rest =>
      let (printed, raised) := show_job table job_id in
      if raised then (printed, true)
      else let (printed', raised') := show_jobs table rest in
           (printed ++ printed', raised')
  end.

(** The body of [for i, row in enumerate(duplicates, 1)] up to the
    [append]; slicing a NULL [desc_snippet] raises. *)
Definition show_group (table : list Jobs.row) (i : nat) (row : duplicate)
    : list line * bool :=
  let header := [ GroupHeaderLine i (count row); GroupTitleLine (title row);
                  GroupCompanyLine (company row);
                  GroupLocationLine (location row) ] in
  match desc_snippet row with
  | None => (header, true)
  | Some snippet =>
      let (printed, raised) := show_jobs table (ids row) in
      (header ++ [SnippetLine (PyStr.slice_to 100 snippet); JobIdsLine (ids row)]
         ++ printed, raised)
  end.

Definition found_of (row : duplicate) : found :=
  {| f_ids := ids row; f_count := count row; f_title := title row;
     f_company := company row; f_location := location row |}.

Fixpoint show_groups (table : list Jobs.row) (i : nat) (rows : list duplicate)
    : list line * outcome (list found) :=
  match rows with
  | [] => ([], Ok [])
  | row :: rest =>
      let (printed, raised) := show_group table i row in
      if raised then (printed, Raise TypeError)
      else
        match show_groups table (S i) rest with
        | (printed', Ok groups) => (printed ++ printed', Ok (found_of row :: groups))
        | (printed', Raise e) => (printed ++ printed', Raise e)
        end
  end.

(** [find_duplicates()] on the table: what it prints and what it returns
    or raises.  It only reads. *)
Definition find_duplicates (table : list Jobs.row)
    : list line * outcome (list found) :=
  let duplicates := query table in
  let first := FoundGroupsLine (List.length duplicates) in
  match duplicates with
  | [] => ([first; NoDuplicatesFoundLine], Ok [])
  | _ :: _ =>
      let total_dupes := list_sum (map (fun row => count row - 1) duplicates) in
      let (printed, result) := show_groups table 1 duplicates in
      (first :: TotalDuplicateEntriesLine total_dupes :: printed, result)
  end.

(** The lines of [main], with those of the functions it calls. *)
Inductive main_line : Type :=
| Finding (l : line)
| Removing (l : FindTrueDuplicates.line)
| NoDuplicatesToRemoveLine
| SuccessLine (removed : nat)
| RemainingLine (total : nat)
| CancelledLine.

(** [main()], with the operator's answer to the prompt as an argument:
    the table it leaves, what it prints, and whether it returns or raises. *)
Definition main (response : string) (table : list Jobs.row)
    : list Jobs.row * list main_line * outcome unit :=
  match find_duplicates table with
  | (printed, Raise e) => (table, map Finding printed, Raise e)
  | (printed, Ok []) =>
      (table, map Finding printed ++ [NoDuplicatesToRemoveLine], Ok tt)
  | (printed, Ok (_ :: _)) =>
      let plan := FindTrueDuplicates.remove_duplicates true table in
      let table1 := FindTrueDuplicates.table plan in
      let printed1 := map Finding printed ++
                      map Removing (FindTrueDuplicates.printed plan) in
      if String.eqb (PyStr.lower (PyStr.strip response)) "yes" then
        let run := FindTrueDuplicates.remove_duplicates false table1 in
        (FindTrueDuplicates.table run,
         printed1 ++ map Removing (FindTrueDuplicates.printed run) ++
         [SuccessLine (FindTrueDuplicates.total_removed run);
          RemainingLine (List.length (FindTrueDuplicates.table run))],
         Ok tt)
      else (table1, printed1 ++ [CancelledLine], Ok tt)
  end.

(** A row the finder cannot print: one of a duplicate group with a NULL
    description, [date_listed] or url. *)
Definition unprintable (table : list Jobs.row) (r : Jobs.row) : Prop :=
  In r table /\
  (exists k, Sql.key_of r = Some k /\ (1 < List.length (Sql.members k table))%nat) /\
  (Jobs.description r = None \/ Jobs.date_listed r = None \/ Jobs.url r = None).

End FindDuplicates.

(** ** backfill_regions.py *)

Module BackfillRegions.
Import JobDatabase.

(** The effect of [update({"region": new_region})] on a row. *)
Definition set_region (new_region : string) (r : Jobs.row) : Jobs.row :=
  {| Jobs.id := Jobs.id r; Jobs.url := Jobs.url r; Jobs.title := Jobs.title r;
     Jobs.company := Jobs.company r; Jobs.location := Jobs.location r;
     Jobs.region := Some new_region; Jobs.salary := Jobs.salary r;
     Jobs.date_listed := Jobs.date_listed r; Jobs.job_type := Jobs.job_type r;
     Jobs.description := Jobs.description r;
     Jobs.first_seen := Jobs.first_seen r; Jobs.last_seen := Jobs.last_seen r;
     Jobs.is_active := Jobs.is_active r;
     Jobs.triage_status := Jobs.triage_status r |}.

(** [table("jobs").update({"region": new_region}).eq("id", job_id).execute()] *)
Definition update_region (new_region : string) (job_id : Z) : M unit :=
  execute ;;;
  (fun w => (Ok tt,
             with_jobs w
               (map (fun r => if (Jobs.id r =? job_id)%Z
                              then set_region new_region r else r)
                    (jobs w)))).

(** The lines that carry data, and the one of the early return. *)
Inductive line : Type :=
| MissingSettingsLine
| FoundJobsLine (n : nat)
| UpdatedSoFarLine (updated : nat)
| ErrorUpdatingLine (job_id : Z) (e : exn)
| UpdatedLine (updated : nat)
| SkippedLine (skipped : nat)
| RegionCountLine (region : string) (count : nat).

(** The local variables of [backfill_regions] and what it has printed. *)
Record state : Type := mkState {
  updated : nat;
  skipped : nat;
  printed : list line
}.

(** [get_region(job.get('location') or '')] *)
Definition new_region_of (job : Jobs.row) : string :=
  let location := Jobs.or_empty (Jobs.location job) in
  NzLocations.get_region (PyStr location).

(** [current_region != new_region], [current_region] being [None] or text *)
Definition differs (current_region : option string) (new_region : string) : bool :=
  match current_region with
  | Some s => negb (String.eqb s new_region)
  | None => true
  end.

(** The body of [for job in jobs]; what the update raises is caught and
    printed. *)
Definition process (job : Jobs.row) (sw : state * world) : state * world :=
  let (s, w) := sw in
  let current_region := Jobs.region job in
  let new_region := new_region_of job in
  if differs current_region new_region then
    match update_region new_region (Jobs.id job) w with
    | (Ok _, w') =>
        let updated' := S (updated s) in
        ({| updated := updated'; skipped := skipped s;
            printed := printed s ++
                       (if (updated' mod 50 =? 0)%nat
                        then [UpdatedSoFarLine updated'] else []) |}, w')
    | (Raise e, w') =>
        ({| updated := updated s; skipped := skipped s;
            printed := printed s ++ [ErrorUpdatingLine (Jobs.id job) e] |}, w')
    end
  else ({| updated := updated s; skipped := S (skipped s);
           printed := printed s |}, w).

(** [for job in jobs: ...] *)
Definition process_all (jobs : list Jobs.row) (sw : state * world)
    : state * world :=
  fold_left (fun sw job => process job sw) jobs sw.

(** [job.get('region') or 'Unknown'] *)
Definition region_or_unknown (job : Jobs.row) : string :=
  match Jobs.region job with
  | Some s => if String.eqb s "" then "Unknown" else s
  | None => "Unknown"
  end.

(** [region_counts.get(region, 0)] *)
Definition count_of (region_counts : pydict nat) (region : string) : nat :=
  match Dict.lookup region_counts region with
  | Some n => n
  | None => 0
  end.

(** [for job in stats.data: region_counts[region] = region_counts.get(region, 0) + 1] *)
Definition count_regions (rows : list Jobs.row) : pydict nat :=
  fold_left (fun region_counts job =>
               let region := region_or_unknown job in
               Dict.set region_counts region (count_of region_counts region + 1))
            rows [].

(** [sorted(..., key=lambda x: -x[1])]: larger counts first, equal counts in
    their order. *)
Fixpoint insert_by_count (x : string * nat) (l : list (string * nat))
    : list (string * nat) :=
  match l with
  | [] => [x]
  | y :: l' =>
      if (snd y <=? snd x)%nat then x :: l else y :: insert_by_count x l'
  end.

Fixpoint sorted_by_count (l : list (string * nat)) : list (string * nat) :=
  match l with
  | [] => []
  | x :: l' => insert_by_count x (sorted_by_count l')
  end.

(** The region distribution, as printed. *)
Definition distribution (rows : list Jobs.row) : list (string * nat) :=
  sorted_by_count (Dict.items (count_regions rows)).

(** [backfill_regions()], for the two settings read from the environment:
    the counters and the printed lines at its return, or what it raises. *)
Definition backfill_regions (url key : pyval) : M state :=
  if negb (truthy url) || negb (truthy key) then
    ret {| updated := 0; skipped := 0; printed := [MissingSettingsLine] |}
  else
    jobs <- select (fun _ => true) ;;
    (fun w =>
       let (s, w1) :=
         process_all jobs
           ({| updated := 0; skipped := 0;
               printed := [FoundJobsLine (List.length jobs)] |}, w) in
       (stats <- select (fun _ => true) ;;
        ret {| updated := updated s; skipped := skipped s;
               printed := printed s ++
                          [UpdatedLine (updated s); SkippedLine (skipped s)] ++
                          map (fun rc => RegionCountLine (fst rc) (snd rc))
                              (distribution stats) |}) w1).

(** The rows whose stored region is not the one [get_region] gives. *)
Definition stale (r : Jobs.row) : bool :=
  differs (Jobs.region r) (new_region_of r).

(** The error lines among the printed ones. *)
Definition is_error (l : line) : bool :=
  match l with
  | ErrorUpdatingLine _ _ => true
  | _ => false
  end.

Definition errors (printed : list line) : nat :=
  List.length (filter is_error printed).

(** A row after a successful pass over it. *)
Definition relabel (r : Jobs.row) : Jobs.row :=
  set_region (new_region_of r) r.

(** The region lines among the printed ones. *)
Definition region_lines (printed : list line) : list (string * nat) :=
  flat_map (fun l => match l with
                     | RegionCountLine region count => [(region, count)]
                     | _ => []
                     end) printed.

(** Stored rows from before the region column was filled, and one filed
    under the wrong region. *)
Definition unlabelled : Jobs.row :=
  {| Jobs.id := 4; Jobs.url := Some "https://www.seek.co.nz/job/4001";
     Jobs.title := Some "Barista"; Jobs.company := Some "Cafe X";
     Jobs.location := Some "Ponsonby, Auckland"; Jobs.region := None;
     Jobs.salary := None; Jobs.date_listed := None;
     Jobs.job_type := None; Jobs.description := None;
     Jobs.first_seen := 40; Jobs.last_seen := 40; Jobs.is_active := true;
     Jobs.triage_status := None |}.

Definition placeless : Jobs.row :=
  {| Jobs.id := 5; Jobs.url := Some "https://www.seek.co.nz/job/5001";
     Jobs.title := Some "Driver"; Jobs.company := None;
     Jobs.location := None; Jobs.region := Some "";
     Jobs.salary := None; Jobs.date_listed := None;
     Jobs.job_type := None; Jobs.description := None;
     Jobs.first_seen := 50; Jobs.last_seen := 50; Jobs.is_active := true;
     Jobs.triage_status := None |}.

Definition misfiled : Jobs.row :=
  {| Jobs.id := 6; Jobs.url := Some "https://www.seek.co.nz/job/6001";
     Jobs.title := Some "Nurse"; Jobs.company := Some "Hutt Health";
     Jobs.location := Some "Lower Hutt"; Jobs.region := Some "Auckland";
     Jobs.salary := None; Jobs.date_listed := None;
     Jobs.job_type := None; Jobs.description := None;
     Jobs.first_seen := 60; Jobs.last_seen := 60; Jobs.is_active := true;
     Jobs.triage_status := Some "no" |}.

Definition legacy : list Jobs.row :=
  [Sample.backend_a; unlabelled; Sample.cook; placeless; misfiled].

End BackfillRegions.

(** ** supabase_client.py *)

Module SupabaseClient.
Import JobDatabase.

(** What a function of the module raises: the [ValueError] of
    [get_client], or what a request raised. *)
Inductive error : Type :=
| ValueError
| RequestError (e : exn).

Inductive result (A : Type) : Type :=
| Returns (a : A)
| Raises (e : error).
Arguments Returns {A} a.
Arguments Raises {A} e.

(** [client = get_client()] and the rest of a function's body, for the two
    module-level settings. *)
Definition with_client {A : Type} (SUPABASE_URL SUPABASE_KEY : pyval)
    (body : M A) (w : world) : result A * world :=
  if negb (truthy SUPABASE_URL) || negb (truthy SUPABASE_KEY)
  then (Raises ValueError, w)
  else match body w with
       | (Ok a, w') => (Returns a, w')
       | (Raise e, w') => (Raises (RequestError e), w')
       end.

(** The effect of [update({"triage_status": status})] on a row. *)
Definition set_triage (status : string) (r : Jobs.row) : Jobs.row :=
  {| Jobs.id := Jobs.id r; Jobs.url := Jobs.url r; Jobs.title := Jobs.title r;
     Jobs.company := Jobs.company r; Jobs.location := Jobs.location r;
     Jobs.region := Jobs.region r; Jobs.salary := Jobs.salary r;
     Jobs.date_listed := Jobs.date_listed r; Jobs.job_type := Jobs.job_type r;
     Jobs.description := Jobs.description r;
     Jobs.first_seen := Jobs.first_seen r; Jobs.last_seen := Jobs.last_seen r;
     Jobs.is_active := Jobs.is_active r;
     Jobs.triage_status := Some status |}.

(** [update_triage(job_id, status)]; [result.data] holds the updated rows. *)
Definition update_triage (SUPABASE_URL SUPABASE_KEY : pyval) (job_id : Z)
    (status : string) : world -> result bool * world :=
  with_client SUPABASE_URL SUPABASE_KEY
    (execute ;;;
     (fun w =>
        let data := map (set_triage status)
                        (filter (fun r => Jobs.id r =? job_id)%Z (jobs w)) in
        (Ok (0 <? List.length data)%nat,
         with_jobs w (map (fun r => if (Jobs.id r =? job_id)%Z
                                    then set_triage status r else r)
                          (jobs w))))).

(** [.neq(column, v)] on one row: SQL inequality, which a NULL never meets. *)
Definition neq_filter (c : option string) (v : string) : bool :=
  match c with
  | Some s => negb (String.eqb s v)
  | None => false
  end.

(** [.is_(column, "null")] on one row *)
Definition is_null (c : option string) : bool :=
  match c with
  | Some _ => false
  | None => true
  end.

(** [set(...)]: the distinct elements.  The order in which a Python set
    yields them is not modelled; the functions below sort them. *)
Definition set_of (l : list string) : list string := nodup string_dec l.

(** [sorted(...)] on text: by code points, a prefix first. *)
Fixpoint insert_sorted (x : string) (l : list string) : list string :=
  match l with
  | [] => [x]
  | y :: l' => if String.leb x y then x :: l else y :: insert_sorted x l'
  end.

Fixpoint sorted (l : list string) : list string :=
  match l with
  | [] => []
  | x :: l' => insert_sorted x (sorted l')
  end.

(** [get_regions()] *)
Definition get_regions (SUPABASE_URL SUPABASE_KEY : pyval)
    : world -> result (list string) * world :=
  with_client SUPABASE_URL SUPABASE_KEY
    (data <- select (fun r => neq_filter (Jobs.region r) "") ;;
     ret (sorted (set_of
            (flat_map (fun row =>
                         match Jobs.region row with
                         | Some region =>
                             if truthy (PyStr region) &&
                                truthy (PyStr (PyStr.strip region))
                             then [PyStr.strip region] else []
                         | None => []
                         end) data)))).

(** [get_job_types()] *)
Definition get_job_types (SUPABASE_URL SUPABASE_KEY : pyval)
    : world -> result (list string) * world :=
  with_client SUPABASE_URL SUPABASE_KEY
    (data <- select (fun r => neq_filter (Jobs.job_type r) "") ;;
     ret (sorted (set_of
            (flat_map (fun row =>
                         match Jobs.job_type row with
                         | Some job_type =>
                             if truthy (PyStr job_type) then [job_type] else []
                         | None => []
                         end) data)))).

(** The dict [get_stats] returns. *)
Record stats : Type := mkStats {
  total : nat;
  yes : nat;
  no : nat;
  unreviewed : nat
}.

(** [table("jobs").select("id", count="exact").<filter>.execute().count] *)
Definition count_where (p : Jobs.row -> bool) : M nat :=
  rows <- select p ;; ret (List.length rows).

(** [get_stats()] *)
Definition get_stats (SUPABASE_URL SUPABASE_KEY : pyval)
    : world -> result stats * world :=
  with_client SUPABASE_URL SUPABASE_KEY
    (total <- count_where (fun _ => true) ;;
     reviewed_yes <-
       count_where (fun r => eq_filter (Jobs.triage_status r) (PyStr "yes")) ;;
     reviewed_no <-
       count_where (fun r => eq_filter (Jobs.triage_status r) (PyStr "no")) ;;
     unreviewed <- count_where (fun r => is_null (Jobs.triage_status r)) ;;
     ret {| total := total; yes := reviewed_yes; no := reviewed_no;
            unreviewed := unreviewed |}).

(** A row whose triage status is neither NULL nor one of the two answers. *)
Definition otherwise_tagged (r : Jobs.row) : bool :=
  match Jobs.triage_status r with
  | Some s => negb (String.eqb s "yes") && negb (String.eqb s "no")
  | None => false
  end.

(** Rows as they are stored by hand or by older versions: regions with
    margins, a blank one, job types in two spellings. *)
Definition roster : list Jobs.row :=
  [ Sample.backend_a;
    set_triage "yes" (Sample.posting 7 "https://www.seek.co.nz/job/7" 70);
    Sample.cook;
    {| Jobs.id := 8; Jobs.url := None; Jobs.title := Some "Welder";
       Jobs.company := None; Jobs.location := None;
       Jobs.region := Some " Wellington "; Jobs.salary := None;
       Jobs.date_listed := None; Jobs.job_type := Some "Contract/Temp";
       Jobs.description := None; Jobs.first_seen := 80; Jobs.last_seen := 80;
       Jobs.is_active := true; Jobs.triage_status := Some "no" |};
    {| Jobs.id := 9; Jobs.url := None; Jobs.title := Some "Intern";
       Jobs.company := None; Jobs.location := None;
       Jobs.region := Some "  "; Jobs.salary := None;
       Jobs.date_listed := None; Jobs.job_type := Some "";
       Jobs.description := None; Jobs.first_seen := 90; Jobs.last_seen := 90;
       Jobs.is_active := true; Jobs.triage_status := Some "maybe" |} ].

End SupabaseClient.

(** * Facts *)

(** ** Lists *)

Module ListFacts.

Lemma find_ext_in {A : Type} (f g : A -> bool) (l : list A) :
  (forall x, In x l -> f x = g x) -> find f l = find g l.
Proof.
  induction l as [|x l IH]; intros H; [reflexivity |].
  simpl. rewrite (H x (or_introl eq_refl)).
  destruct (g x); [reflexivity |].
  apply IH. intros y Hy. apply H. now right.
Qed.

Lemma forallb_none {A : Type} (f : A -> bool) (l : list A) :
  forallb (fun x => negb (f x)) l = true -> forall x, In x l -> f x = false.
Proof.
  intros H x Hx. apply negb_true_iff.
  exact (proj1 (forallb_forall _ _) H x Hx).
Qed.



Lemma filter_nil {A : Type} (f : A -> bool) (l : list A) :
  (forall x, In x l -> f x = false) -> filter f l = [].
Proof.
  induction l as [|x l IH]; intros H; [reflexivity |].
  simpl. rewrite (H x (or_introl eq_refl)). apply IH.
  intros y Hy. apply H. now right.
Qed.

Lemma find_filter {A : Type} (f g : A -> bool) (l : list A) :
  find f (filter g l) = find (fun x => g x && f x) l.
Proof.
  induction l as [|x l IH]; [reflexivity |].
  simpl. destruct (g x); simpl; [now rewrite IH | exact IH].
Qed.

Lemma find_first {A : Type} (f : A -> bool) (before after : list A) (x : A) :
  (forall y, In y before -> f y = false) -> f x = true ->
  find f (before ++ x :: after) = Some x.
Proof.
  induction before as [|y before IH]; intros Hb Hx; simpl.
  - now rewrite Hx.
  - rewrite (Hb y (or_introl eq_refl)). apply IH; [| assumption].
    intros z Hz. apply Hb. now right.
Qed.

Lemma Forall_removelast {A : Type} (P : A -> Prop) (l : list A) :
  Forall P l -> Forall P (removelast l).
Proof.
  induction 1 as [|x l Hx Hl IH]; [constructor |].
  simpl. destruct l; [constructor | now constructor].
Qed.

Lemma NoDup_flat_map {A B : Type} (f : A -> list B) (l : list A) :
  NoDup l ->
  (forall x, In x l -> NoDup (f x)) ->
  (forall x y b, In x l -> In y l -> In b (f x) -> In b (f y) -> x = y) ->
  NoDup (flat_map f l).
Proof.
  intros Hl. induction Hl as [|x l Hx Hl IH]; intros Hf Hd; [constructor |].
  simpl. apply NoDup_app.
  - apply Hf. now left.
  - apply IH.
    + intros y Hy. apply Hf. now right.
    + intros y z b Hy Hz. apply Hd; now right.
  - intros b Hb Hb'. apply in_flat_map in Hb' as (y & Hy & Hby).
    apply Hx. rewrite (Hd x y b); auto; [now left | now right].
Qed.

Lemma map_tl {A B : Type} (f : A -> B) (l : list A) : tl (map f l) = map f (tl l).
Proof. now destruct l. Qed.

Lemma flat_map_filter_map {A B C : Type} (f : B -> list C) (p : B -> bool)
    (g : A -> B) (l : list A) :
  flat_map f (filter p (map g l)) =
  flat_map (fun x => if p (g x) then f (g x) else []) l.
Proof.
  induction l as [|x l IH]; [reflexivity |].
  simpl. destruct (p (g x)); simpl; now rewrite IH.
Qed.

Lemma filter_filter {A : Type} (f g : A -> bool) (l : list A) :
  filter f (filter g l) = filter (fun x => g x && f x) l.
Proof.
  induction l as [|x l IH]; [reflexivity |].
  simpl. destruct (g x); simpl; [now rewrite IH | exact IH].
Qed.

Lemma filter_partition_length {A : Type} (f : A -> bool) (l : list A) :
  length (filter f l) + length (filter (fun x => negb (f x)) l) = length l.
Proof.
  induction l as [|x l IH]; [reflexivity |].
  simpl. destruct (f x); simpl; lia.
Qed.

Lemma NoDup_map_injective {A B : Type} (f : A -> B) (l : list A) (x y : A) :
  NoDup (map f l) -> In x l -> In y l -> f x = f y -> x = y.
Proof.
  induction l as [|a l IH]; intros Hnd Hx Hy E; [contradiction |].
  simpl in Hnd. inversion Hnd as [|? ? Ha Hnd']; subst.
  destruct Hx as [-> | Hx], Hy as [-> | Hy].
  - reflexivity.
  - exfalso. apply Ha. rewrite E. now apply in_map.
  - exfalso. apply Ha. rewrite <- E. now apply in_map.
  - now apply IH.
Qed.

Lemma NoDup_map_incl {A B : Type} (f : A -> B) (l l' : list A) :
  NoDup (map f l) -> NoDup l' -> incl l' l -> NoDup (map f l').
Proof.
  intros Hnd Hl' Hincl. induction Hl' as [|x l' Hx Hl' IH]; [constructor |].
  simpl. constructor.
  - intros Hin. apply in_map_iff in Hin as (y & E & Hy). apply Hx.
    assert (y = x) as <-; [| assumption].
    apply (NoDup_map_injective f l); auto.
    + apply Hincl. now right.
    + apply Hincl. now left.
  - apply IH. intros y Hy. apply Hincl. now right.
Qed.

Lemma NoDup_all_equal {A : Type} (l : list A) (h : A) :
  NoDup l -> (forall x, In x l -> x = h) -> length l <= 1.
Proof.
  intros Hnd Hall. destruct l as [|a [|b l]]; simpl; try lia.
  exfalso. inversion Hnd as [|? ? Ha _]; subst. apply Ha.
  rewrite (Hall a), (Hall b); simpl; auto.
Qed.

Lemma NoDup_snoc {A : Type} (l : list A) (x : A) :
  NoDup l -> ~ In x l -> NoDup (l ++ [x]).
Proof.
  intros Hl Hx. apply NoDup_app; [assumption | now repeat constructor |].
  intros a Ha [<- | []]. contradiction.
Qed.

Lemma NoDup_tl {A : Type} (l : list A) : NoDup l -> NoDup (tl l).
Proof. destruct 1; [constructor | assumption]. Qed.

Lemma in_tl {A : Type} (x : A) (l : list A) : In x (tl l) -> In x l.
Proof. destruct l; simpl; auto. Qed.

End ListFacts.

(** ** Strings *)

Module PyStrFacts.
Import PyStr.

Lemma append_assoc (a b c : string) :
  ((a ++ b) ++ c)%string = (a ++ (b ++ c))%string.
Proof. induction a as [|x a IH]; simpl; [reflexivity | now rewrite IH]. Qed.

Lemma lower_app (a b : string) :
  lower (a ++ b)%string = (lower a ++ lower b)%string.
Proof. induction a as [|x a IH]; simpl; [reflexivity | now rewrite IH]. Qed.

Lemma startswith_spec (s k : string) :
  startswith s k = true <-> exists q, s = (k ++ q)%string.
Proof.
  revert s; induction k as [|a k IH]; intros s; simpl.
  - split; [intros _; now exists s | reflexivity].
  - destruct s as [|b s].
    + split; [discriminate | intros [q Hq]; discriminate].
    + rewrite andb_true_iff, IH, Ascii.eqb_eq. split.
      * intros [-> [q ->]]. now exists q.
      * intros [q Hq]. injection Hq as -> ->. split; [reflexivity | now exists q].
Qed.

Lemma str_in_unfold (k s : string) :
  str_in k s = startswith s k ||
               match s with
               | EmptyString => false
               | String _ s' => str_in k s'
               end.
Proof. destruct s; reflexivity. Qed.

Lemma str_in_spec (k s : string) :
  str_in k s = true <-> exists p q, s = (p ++ k ++ q)%string.
Proof.
  split.
  - induction s as [|c s IH]; rewrite str_in_unfold, orb_true_iff.
    + intros [H | H]; [| discriminate].
      apply startswith_spec in H as [q ->]. now exists EmptyString, q.
    + intros [H | H].
      * apply startswith_spec in H as [q ->]. now exists EmptyString, q.
      * destruct (IH H) as (p & q & ->). now exists (String c p), q.
  - intros (p & q & ->). induction p as [|c p IH].
    + rewrite str_in_unfold. simpl append.
      replace (startswith (k ++ q)%string k) with true; [reflexivity |].
      symmetry. apply startswith_spec. now exists q.
    + simpl. rewrite IH. apply orb_true_r.
Qed.

Lemma str_in_trans (a b c : string) :
  str_in a b = true -> str_in b c = true -> str_in a c = true.
Proof.
  rewrite !str_in_spec. intros (p1 & q1 & ->) (p2 & q2 & ->).
  exists (p2 ++ p1)%string, (q1 ++ q2)%string.
  now rewrite !append_assoc.
Qed.

Lemma str_in_lower (k s : string) :
  str_in k s = true -> str_in (lower k) (lower s) = true.
Proof.
  rewrite !str_in_spec. intros (p & q & ->).
  exists (lower p), (lower q). now rewrite !lower_app.
Qed.

Lemma str_in_empty (k : string) : k <> EmptyString -> str_in k "" = false.
Proof. destruct k; [congruence | reflexivity]. Qed.

Lemma ends_nonspace_nonempty (k : string) : ends_nonspace k = true -> k <> "".
Proof. destruct k; [discriminate | congruence]. Qed.

Lemma str_in_lstrip (k s : string) :
  starts_nonspace k = true -> str_in k (lstrip s) = str_in k s.
Proof.
  intros Hk. induction s as [|c s IH]; [reflexivity |].
  simpl lstrip. destruct (is_space c) eqn:Hc; [| reflexivity].
  rewrite IH, (str_in_unfold k (String c s)).
  destruct k as [|a k]; [discriminate |].
  simpl startswith. simpl in Hk.
  destruct (Ascii.eqb_spec a c) as [-> |]; [| reflexivity].
  rewrite Hc in Hk. discriminate.
Qed.

Lemma startswith_rstrip (k s : string) :
  ends_nonspace k = true -> startswith (rstrip s) k = startswith s k.
Proof.
  revert k. induction s as [|c s IH]; intros k Hk; [reflexivity |].
  destruct k as [|a k]; [discriminate |].
  destruct k as [|b k].
  - simpl in Hk. simpl.
    destruct (rstrip s); simpl; [| reflexivity].
    destruct (is_space c) eqn:Hc; simpl; [| reflexivity].
    destruct (Ascii.eqb_spec a c) as [-> |]; [| reflexivity].
    rewrite Hc in Hk. discriminate.
  - assert (Hk' : ends_nonspace (String b k) = true) by exact Hk.
    specialize (IH _ Hk').
    change (startswith (String c s) (String a (String b k)))
      with (Ascii.eqb a c && startswith s (String b k)).
    rewrite <- IH. simpl rstrip.
    destruct (rstrip s) eqn:Hr.
    + destruct (is_space c); simpl; now rewrite ?andb_false_r.
    + reflexivity.
Qed.

Lemma str_in_rstrip (k s : string) :
  ends_nonspace k = true -> str_in k (rstrip s) = str_in k s.
Proof.
  intros Hk. induction s as [|c s IH]; [reflexivity |].
  rewrite (str_in_unfold k (String c s)), <- IH.
  rewrite <- (startswith_rstrip k (String c s) Hk).
  rewrite (str_in_unfold k (rstrip (String c s))).
  f_equal. simpl rstrip.
  destruct (rstrip s) eqn:Hr.
  - destruct (is_space c); [| reflexivity].
    symmetry. now apply str_in_empty, ends_nonspace_nonempty.
  - reflexivity.
Qed.

Lemma str_in_strip (k s : string) :
  trimmed k = true -> str_in k (strip s) = str_in k s.
Proof.
  unfold trimmed, strip. rewrite andb_true_iff. intros [H1 H2].
  now rewrite str_in_rstrip, str_in_lstrip.
Qed.

End PyStrFacts.

(** ** Region lookup *)

Module NzLocationsFacts.
Import PyStr PyStrFacts NzLocations ListFacts.

(** Every keyword and every region name, lowercased, is a string that
    [strip] cannot cut into. *)
Lemma keywords_trimmed :
  forallb (fun kr => trimmed (lower (fst kr))) (Dict.items LOCATION_MAPPING) = true.
Proof. vm_compute. reflexivity. Qed.

Lemma regions_trimmed :
  forallb (fun r => trimmed (lower r)) REGIONS = true.
Proof. vm_compute. reflexivity. Qed.

(** Every region name but the sentinel contains a keyword of the table. *)
Lemma regions_covered :
  forallb (fun r => String.eqb r "Other NZ" ||
                    existsb (fun kr => str_in (lower (fst kr)) (lower r))
                            (Dict.items LOCATION_MAPPING)) REGIONS = true.
Proof. vm_compute. reflexivity. Qed.

Lemma keyword_strip (loc : string) (kr : string * string) :
  In kr (Dict.items LOCATION_MAPPING) ->
  str_in (lower (fst kr)) (strip (lower loc)) = str_in (lower (fst kr)) (lower loc).
Proof.
  intros H. apply str_in_strip.
  exact (proj1 (forallb_forall _ _) keywords_trimmed kr H).
Qed.

Lemma region_strip (loc r : string) :
  In r REGIONS ->
  str_in (lower r) (strip (lower loc)) = str_in (lower r) (lower loc).
Proof.
  intros H. apply str_in_strip.
  exact (proj1 (forallb_forall _ _) regions_trimmed r H).
Qed.

(** When no keyword matches, the only region name that can is the sentinel. *)
Lemma unmatched_region (loc r : string) :
  find (fun kr => str_in (lower (fst kr)) (lower loc))
       (Dict.items LOCATION_MAPPING) = None ->
  In r REGIONS -> str_in (lower r) (lower loc) = true -> r = "Other NZ".
Proof.
  intros Hnone Hr Hin.
  pose proof (proj1 (forallb_forall _ _) regions_covered r Hr) as Hc.
  apply orb_true_iff in Hc as [Hc | Hc]; [now apply String.eqb_eq |].
  apply existsb_exists in Hc as (kr & Hkr & Hsub).
  pose proof (find_none _ _ Hnone kr Hkr) as Hf. simpl in Hf.
  rewrite (str_in_trans _ _ _ Hsub Hin) in Hf. discriminate.
Qed.

(** C5. For every location string, [get_region] returns the region of the
    first pair of the table whose lowercased keyword is a substring of the
    lowercased location; when no keyword matches, the first canonical region
    name that is a substring of the location; and the sentinel otherwise.
    It is a function of the location alone: "123 Queen St, Auckland CBD"
    gives "Auckland" and a location that matches nothing gives the sentinel. *)
Theorem get_region_follows_rule :
  (forall loc : string,
     get_region (PyStr loc) =
     RegionRule.region_for (Dict.items LOCATION_MAPPING) REGIONS loc) /\
  get_region (PyStr "123 Queen St, Auckland CBD") = "Auckland" /\
  get_region (PyStr "somewhere with no match") = RegionRule.sentinel.
Proof.
  split; [| split; vm_compute; reflexivity].
  intros loc. destruct loc as [|c loc]; [vm_compute; reflexivity |].
  unfold get_region, RegionRule.region_for, RegionRule.sentinel.
  change (negb (truthy (PyStr (String c loc)))) with false. cbv iota.
  set (l := String c loc).
  rewrite (find_ext_in
             (fun kr => str_in (lower (fst kr)) (strip (lower l)))
             (fun kr => str_in (lower (fst kr)) (lower l))
             _ (keyword_strip l)).
  destruct (find (fun kr => str_in (lower (fst kr)) (lower l))
                 (Dict.items LOCATION_MAPPING)) as [[k r] |] eqn:Hkw;
    [reflexivity |].
  assert (Hcode :
    match find (fun region => str_in (lower region) (strip (lower l))) REGIONS with
    | Some region => region
    | None => "Other NZ"
    end = "Other NZ").
  { destruct (find _ REGIONS) as [r |] eqn:Hr; [| reflexivity].
    apply find_some in Hr as [Hin Hsub].
    rewrite (region_strip l r Hin) in Hsub.
    exact (unmatched_region l r Hkw Hin Hsub). }
  rewrite Hcode.
  destruct (find (fun name => str_in name l) REGIONS) as [r |] eqn:Hr;
    [| reflexivity].
  apply find_some in Hr as [Hin Hsub].
  symmetry. apply (unmatched_region l r Hkw Hin). now apply str_in_lower.
Qed.

Lemma find_keyword (f : string -> bool) (d : pydict string) (k v : string) :
  Dict.lookup d k = Some v ->
  (forall k', In k' (keywords_before k d) -> f k' = false) ->
  f k = true ->
  find (fun kr => f (fst kr)) d = Some (k, v).
Proof.
  induction d as [|[k0 v0] d IH]; simpl; [discriminate |].
  intros Hl Hbefore Hk.
  destruct (String.eqb_spec k0 k) as [-> | Hne].
  - rewrite Hk. now injection Hl as ->.
  - rewrite (Hbefore k0 (or_introl eq_refl)).
    apply IH; [assumption | | assumption].
    intros k' Hk'. apply Hbefore. now right.
Qed.

Lemma pair_not_in (l : list (string * string)) (k v : string) :
  forallb (fun kr => negb (String.eqb (fst kr) k && String.eqb (snd kr) v)) l = true ->
  ~ In (k, v) l.
Proof.
  intros H Hin. pose proof (proj1 (forallb_forall _ _) H _ Hin) as Hf.
  simpl in Hf. now rewrite !String.eqb_refl in Hf.
Qed.

Lemma pair_in (l : list (string * string)) (k v : string) :
  existsb (fun kr => String.eqb (fst kr) k && String.eqb (snd kr) v) l = true ->
  In (k, v) l.
Proof.
  intros H. apply existsb_exists in H as ([k' v'] & Hin & Heq).
  simpl in Heq. apply andb_true_iff in Heq as [H1 H2].
  apply String.eqb_eq in H1, H2. now subst.
Qed.

Lemma get_region_keyword (loc k v : string) :
  Dict.lookup LOCATION_MAPPING k = Some v ->
  str_in k loc = true ->
  k <> "" ->
  (forall k', In k' (keywords_before k (Dict.items LOCATION_MAPPING)) ->
              str_in (lower k') (lower loc) = false) ->
  get_region (PyStr loc) = v.
Proof.
  intros Hl Hin Hne Hbefore.
  destruct loc as [|c loc]; [now rewrite str_in_empty in Hin |].
  unfold get_region.
  change (negb (truthy (PyStr (String c loc)))) with false. cbv iota.
  set (l := String c loc) in *.
  rewrite (find_ext_in
             (fun kr => str_in (lower (fst kr)) (strip (lower l)))
             (fun kr => str_in (lower (fst kr)) (lower l))
             _ (keyword_strip l)).
  rewrite (find_keyword (fun k' => str_in (lower k') (lower l))
             (Dict.items LOCATION_MAPPING) k v Hl Hbefore (str_in_lower _ _ Hin)).
  reflexivity.
Qed.

(** C10. The table is a dict whose display lists "Frankton" and "Richmond"
    twice; the later pair replaces the value of the earlier one.  A location
    containing "Frankton" that no earlier keyword matches is in "Queenstown",
    one containing "Richmond" is in "Nelson", and the pairs
    ("Frankton", "Hamilton") and ("Richmond", "Christchurch") of the display
    are not in the table. *)
Theorem duplicate_keywords_take_last_region :
  (forall loc : string,
     str_in "Frankton" loc = true ->
     (forall k, In k (keywords_before "Frankton" (Dict.items LOCATION_MAPPING)) ->
                str_in (lower k) (lower loc) = false) ->
     get_region (PyStr loc) = "Queenstown") /\
  (forall loc : string,
     str_in "Richmond" loc = true ->
     (forall k, In k (keywords_before "Richmond" (Dict.items LOCATION_MAPPING)) ->
                str_in (lower k) (lower loc) = false) ->
     get_region (PyStr loc) = "Nelson") /\
  (In ("Frankton", "Hamilton") LOCATION_MAPPING_display /\
   ~ In ("Frankton", "Hamilton") (Dict.items LOCATION_MAPPING)) /\
  (In ("Richmond", "Christchurch") LOCATION_MAPPING_display /\
   ~ In ("Richmond", "Christchurch") (Dict.items LOCATION_MAPPING)).
Proof.
  split; [| split; [| split; split]].
  - intros loc Hin Hbefore.
    apply (get_region_keyword loc "Frankton"); try assumption;
      [vm_compute; reflexivity | discriminate].
  - intros loc Hin Hbefore.
    apply (get_region_keyword loc "Richmond"); try assumption;
      [vm_compute; reflexivity | discriminate].
  - apply pair_in. vm_compute. reflexivity.
  - apply pair_not_in. vm_compute. reflexivity.
  - apply pair_in. vm_compute. reflexivity.
  - apply pair_not_in. vm_compute. reflexivity.
Qed.

Lemma duplicate_keywords_take_last_region_witness :
  get_region (PyStr "12 Frankton Road") = "Queenstown" /\
  get_region (PyStr "Richmond") = "Nelson".
Proof.
  split.
  - apply (proj1 duplicate_keywords_take_last_region "12 Frankton Road").
    + vm_compute. reflexivity.
    + apply forallb_none. vm_compute. reflexivity.
  - apply (proj1 (proj2 duplicate_keywords_take_last_region) "Richmond").
    + vm_compute. reflexivity.
    + apply forallb_none. vm_compute. reflexivity.
Defined.

End NzLocationsFacts.

(** ** The incremental upsert *)

Module JobDatabaseFacts.
Import JobDatabase ListFacts.

(** *** Runs in which no request fails *)

Lemma execute_ok (w : world) : faults w = [] -> execute w = (Ok tt, w).
Proof. intros H. unfold execute. now rewrite H. Qed.

Lemma select_ok (p : Jobs.row -> bool) (w : world) :
  faults w = [] -> select p w = (Ok (filter p (jobs w)), w).
Proof. intros H. unfold select, bind. now rewrite (execute_ok w H). Qed.

Lemma update_seen_ok (now : time) (p : Jobs.row -> bool) (w : world) :
  faults w = [] ->
  update_seen now p w = (Ok tt, with_jobs w (map (touch_if p now) (jobs w))).
Proof. intros H. unfold update_seen, bind. now rewrite (execute_ok w H). Qed.

Lemma insert_ok (mk : Z -> Jobs.row) (w : world) :
  faults w = [] ->
  insert mk w = (Ok tt, {| jobs := jobs w ++ [mk (next_id w)];
                           next_id := next_id w + 1;
                           faults := faults w; log := log w |}).
Proof. intros H. unfold insert, bind. now rewrite (execute_ok w H). Qed.

Lemma check_description_ok (now : time) (job : pydict pyval) (snippet : string)
    (dups : list Jobs.row) (w : world) :
  faults w = [] ->
  check_description now job snippet dups w =
  match find (description_matches (jobs w) snippet) dups with
  | Some dup => duplicate_found now job dup w
  | None => (Ok None, w)
  end.
Proof.
  intros H. induction dups as [|dup rest IH]; [reflexivity |].
  simpl check_description. unfold bind at 1. rewrite (select_ok _ w H).
  simpl find. unfold description_matches at 1.
  destruct (filter (fun r => (Jobs.id r =? Jobs.id dup)%Z) (jobs w)) as [|d0 ds];
    [exact IH |].
  destruct (String.eqb _ snippet); [reflexivity | exact IH].
Qed.

(** What [duplicate_found] does for a candidate whose url is a string. *)
Lemma duplicate_found_ok (now : time) (job : pydict pyval) (u : string)
    (dup : Jobs.row) (w : world) :
  faults w = [] ->
  Dict.lookup job "url" = Some (PyStr u) ->
  exists w',
    faults w' = [] /\ next_id w' = next_id w /\
    match Jobs.url dup with
    | Some _ =>
        duplicate_found now job dup w = (Ok (Some false), w') /\
        jobs w' = map (touch_if (fun r => Jobs.id r =? Jobs.id dup)%Z now) (jobs w)
    | None =>
        duplicate_found now job dup w = (Raise TypeError, w') /\ jobs w' = jobs w
    end.
Proof.
  intros H Hu. unfold duplicate_found, subscript. rewrite Hu.
  destruct (Jobs.url dup) as [eu |];
    (eexists; split; [| split; [| split]];
     [| | unfold bind, logger, slice_of, ret, raise, update_seen, execute;
          simpl; rewrite ?H; reflexivity |]);
    simpl; try assumption; reflexivity.
Qed.

(** The three ways of a call in which no request fails, for a candidate
    whose url is a string. *)
Lemma upsert_ok (now : time) (job : pydict pyval) (u : string) (w : world) :
  faults w = [] ->
  Dict.lookup job "url" = Some (PyStr u) ->
  let res := fst (insert_or_update_job now job w) in
  let w' := snd (insert_or_update_job now job w) in
  faults w' = [] /\
  match url_rows (PyStr u) (jobs w) with
  | _ :: _ =>
      res = false /\ next_id w' = next_id w /\
      jobs w' = map (touch_if (fun r => eq_filter (Jobs.url r) (PyStr u)) now) (jobs w)
  | [] =>
      match first_duplicate job (jobs w) with
      | Some dup =>
          res = false /\ next_id w' = next_id w /\
          jobs w' = match Jobs.url dup with
                    | Some _ =>
                        map (touch_if (fun r => Jobs.id r =? Jobs.id dup)%Z now) (jobs w)
                    | None => jobs w
                    end
      | None =>
          res = true /\ next_id w' = (next_id w + 1)%Z /\
          jobs w' = jobs w ++ [new_row now job (next_id w)]
      end
  end.
Proof.
  intros H Hu. cbv zeta.
  remember (insert_or_update_job now job w) as R eqn:HR.
  unfold insert_or_update_job, insert_or_update_job_try, subscript in HR.
  rewrite Hu in HR. unfold bind at 1 in HR. unfold ret at 1 in HR.
  unfold bind at 1 in HR. rewrite (select_ok _ w H) in HR.
  fold (url_rows (PyStr u) (jobs w)) in HR.
  destruct (url_rows (PyStr u) (jobs w)) as [|r0 rs].
  - unfold bind at 1 in HR. rewrite (select_ok _ w H) in HR.
    fold (key_rows job (jobs w)) in HR. fold (desc_snippet_of job) in HR.
    unfold bind at 1 in HR. rewrite (check_description_ok _ _ _ _ w H) in HR.
    fold (first_duplicate job (jobs w)) in HR.
    destruct (first_duplicate job (jobs w)) as [dup |].
    + destruct (duplicate_found_ok now job u dup w H Hu) as (w' & Hf & Hn & Hd).
      destruct (Jobs.url dup) as [eu |]; destruct Hd as [Hd Hj];
        rewrite Hd in HR; subst R; simpl; repeat split; assumption.
    + unfold bind at 1 in HR. unfold bind at 1 in HR.
      rewrite (insert_ok _ w H) in HR. subst R. simpl.
      repeat split; assumption.
  - unfold bind at 1 in HR. rewrite (update_seen_ok _ _ w H) in HR.
    subst R. simpl. repeat split; assumption.
Qed.

(** *** Updates keep what the lookups read *)

Lemma touch_if_same (p : Jobs.row -> bool) (now : time) (r : Jobs.row) :
  same_except_seen r (touch_if p now r).
Proof. unfold touch_if, same_except_seen. destruct (p r); simpl; tauto. Qed.

Section TouchInvariance.
Variables (p : Jobs.row -> bool) (now : time).
Let t := touch_if p now.


Lemma touch_if_url r : Jobs.url (t r) = Jobs.url r.
Proof. apply (touch_if_same p now r). Qed.






End TouchInvariance.

Lemma map_touch_if_none (p : Jobs.row -> bool) (now : time) (l : list Jobs.row) :
  filter p l = [] -> map (touch_if p now) l = l.
Proof.
  induction l as [|x l IH]; [reflexivity |].
  simpl. unfold touch_if at 1. destruct (p x); [discriminate |].
  intros H. now rewrite IH.
Qed.

(** A call that does not insert leaves the number of rows and every column
    but [last_seen] and [is_active] as they were. *)
Lemma upsert_ok_not_new (now : time) (job : pydict pyval) (u : string) (w : world) :
  faults w = [] ->
  Dict.lookup job "url" = Some (PyStr u) ->
  fst (insert_or_update_job now job w) = false ->
  exists p, jobs (snd (insert_or_update_job now job w)) =
            map (touch_if p now) (jobs w).
Proof.
  intros H Hu Hres.
  destruct (upsert_ok now job u w H Hu) as [_ Hcases].
  destruct (url_rows (PyStr u) (jobs w)) as [|r0 rs].
  - destruct (first_duplicate job (jobs w)) as [dup |].
    + destruct Hcases as (_ & _ & ->).
      destruct (Jobs.url dup); [eexists; reflexivity |].
      exists (fun _ => false). symmetry. now apply map_touch_if_none, filter_false.
    + destruct Hcases as (Ht & _). congruence.
  - destruct Hcases as (_ & _ & ->). eexists; reflexivity.
Qed.

Lemma upsert_ok_new_iff (now : time) (job : pydict pyval) (u : string) (w : world) :
  faults w = [] ->
  Dict.lookup job "url" = Some (PyStr u) ->
  fst (insert_or_update_job now job w) = true <->
  url_rows (PyStr u) (jobs w) = [] /\ first_duplicate job (jobs w) = None.
Proof.
  intros H Hu.
  destruct (upsert_ok now job u w H Hu) as [_ Hcases].
  destruct (url_rows (PyStr u) (jobs w)) as [|r0 rs].
  - destruct (first_duplicate job (jobs w)) as [dup |].
    + destruct Hcases as (-> & _). split; [discriminate | intros [_ ?]; discriminate].
    + destruct Hcases as (-> & _). tauto.
  - destruct Hcases as (-> & _). split; [discriminate | intros [? _]; discriminate].
Qed.


Lemma eq_filter_url (r : Jobs.row) (u : string) :
  eq_filter (Jobs.url r) (PyStr u) = true <-> Jobs.url r = Some u.
Proof.
  unfold eq_filter. destruct (Jobs.url r) as [s |]; simpl.
  - rewrite String.eqb_eq. split; congruence.
  - split; discriminate.
Qed.




(** *** The second lookup on a table with distinct identifiers *)

Lemma filter_id_unique (table : list Jobs.row) (r : Jobs.row) :
  NoDup (map Jobs.id table) -> In r table ->
  filter (fun x => Jobs.id x =? Jobs.id r)%Z table = [r].
Proof.
  induction table as [|x table IH]; intros Hnd Hin; [contradiction |].
  simpl in Hnd. inversion Hnd as [|? ? Hx Hnd']; subst.
  simpl. destruct Hin as [-> | Hin].
  - rewrite Z.eqb_refl. f_equal. apply filter_nil.
    intros y Hy. apply Z.eqb_neq. intros E. apply Hx.
    rewrite <- E. now apply in_map.
  - destruct (Z.eqb_spec (Jobs.id x) (Jobs.id r)) as [E |].
    + exfalso. apply Hx. rewrite E. now apply in_map.
    + now apply IH.
Qed.

Lemma description_matches_self (table : list Jobs.row) (snippet : string)
    (r : Jobs.row) :
  NoDup (map Jobs.id table) -> In r table ->
  description_matches table snippet r =
  String.eqb (PyStr.slice_to 200 (Jobs.or_empty (Jobs.description r))) snippet.
Proof.
  intros Hnd Hin. unfold description_matches.
  now rewrite (filter_id_unique table r Hnd Hin).
Qed.

Lemma first_duplicate_find (job : pydict pyval) (table : list Jobs.row) :
  NoDup (map Jobs.id table) ->
  first_duplicate job table = find (same_identity job) table.
Proof.
  intros Hnd. unfold first_duplicate, key_rows. rewrite find_filter.
  apply find_ext_in. intros r Hr.
  now rewrite (description_matches_self table _ r Hnd Hr).
Qed.

Lemma same_identity_intro (job : pydict pyval) (t c l : string) (r : Jobs.row) :
  Dict.lookup job "title" = Some (PyStr t) ->
  Dict.lookup job "company" = Some (PyStr c) ->
  Dict.lookup job "location" = Some (PyStr l) ->
  Jobs.title r = Some t -> Jobs.company r = Some c -> Jobs.location r = Some l ->
  PyStr.slice_to 200 (Jobs.or_empty (Jobs.description r)) = desc_snippet_of job ->
  same_identity job r = true.
Proof.
  intros Ht Hc Hl Rt Rc Rl Hd. unfold same_identity, Dict.get.
  rewrite Ht, Hc, Hl, Rt, Rc, Rl, Hd. simpl.
  now rewrite !String.eqb_refl.
Qed.

Lemma touch_if_frame (p : Jobs.row -> bool) (now : time) (l : list Jobs.row) :
  Forall2 same_except_seen l (map (touch_if p now) l).
Proof.
  induction l as [|x l IH]; simpl; constructor; [apply touch_if_same | exact IH].
Qed.

(** C1 (amended). A candidate with the title, company, location and first
    200 characters of description of a stored row [r], under another url:
    the call answers "updated" ([False]), the number of rows is unchanged,
    and no stored row changes in anything but [last_seen] and [is_active]
    (the candidate's url and description are dropped).  When moreover no
    stored row carries the candidate's url, [r] is the first row of the
    table with that identity and [r] has a url, then [last_seen = now] and
    [is_active = True] are set on [r] and every other row stays as it was. *)
Theorem upsert_same_job_other_url (w : world) (job : pydict pyval)
    (u t c l : string) (now : time) (r : Jobs.row) :
  faults w = [] ->
  NoDup (map Jobs.id (jobs w)) ->
  Dict.lookup job "url" = Some (PyStr u) ->
  Dict.lookup job "title" = Some (PyStr t) ->
  Dict.lookup job "company" = Some (PyStr c) ->
  Dict.lookup job "location" = Some (PyStr l) ->
  In r (jobs w) ->
  Jobs.title r = Some t -> Jobs.company r = Some c -> Jobs.location r = Some l ->
  PyStr.slice_to 200 (Jobs.or_empty (Jobs.description r)) = desc_snippet_of job ->
  Jobs.url r <> Some u ->
  let res := fst (insert_or_update_job now job w) in
  let w' := snd (insert_or_update_job now job w) in
  res = false /\
  get_job_count w' = get_job_count w /\
  Forall2 same_except_seen (jobs w) (jobs w') /\
  (url_rows (PyStr u) (jobs w) = [] ->
   (exists before after,
      jobs w = before ++ r :: after /\
      forall x, In x before -> same_identity job x = false) ->
   Jobs.url r <> None ->
   In (Jobs.touch now r) (jobs w') /\
   forall x, In x (jobs w) -> x <> r -> In x (jobs w')).
Proof.
  intros H Hnd Hu Ht Hc Hl Hin Rt Rc Rl Hd Hne res w'.
  pose proof (same_identity_intro job t c l r Ht Hc Hl Rt Rc Rl Hd) as Hsame.
  assert (Hdup : first_duplicate job (jobs w) <> None).
  { rewrite (first_duplicate_find job (jobs w) Hnd). intros E.
    pose proof (find_none _ _ E r Hin) as F. congruence. }
  assert (Hres : res = false).
  { destruct res eqn:E; [| reflexivity].
    destruct (proj1 (upsert_ok_new_iff now job u w H Hu) E) as [_ D].
    contradiction. }
  destruct (upsert_ok_not_new now job u w H Hu Hres) as [p Hp].
  fold w' in Hp.
  split; [exact Hres |]. split; [| split].
  - unfold get_job_count. rewrite Hp. apply length_map.
  - rewrite Hp. apply touch_if_frame.
  - intros Hno (before & after & Hsplit & Hbefore) Hurl.
    assert (Hfirst : first_duplicate job (jobs w) = Some r).
    { rewrite (first_duplicate_find job (jobs w) Hnd), Hsplit.
      now apply find_first. }
    destruct (upsert_ok now job u w H Hu) as [_ Hcases].
    fold w' in Hcases. rewrite Hno, Hfirst in Hcases.
    destruct Hcases as (_ & _ & Hj).
    destruct (Jobs.url r) as [eu |]; [| contradiction].
    rewrite Hj. split.
    + apply in_map_iff. exists r. split; [| assumption].
      unfold touch_if. now rewrite Z.eqb_refl.
    + intros x Hx Hxr. apply in_map_iff. exists x. split; [| assumption].
      unfold touch_if.
      destruct (Z.eqb_spec (Jobs.id x) (Jobs.id r)) as [E |]; [| reflexivity].
      exfalso. apply Hxr.
      pose proof (filter_id_unique (jobs w) r Hnd Hin) as U.
      assert (Hxin : In x (filter (fun y => Jobs.id y =? Jobs.id r)%Z (jobs w))).
      { apply filter_In. split; [assumption | now apply Z.eqb_eq]. }
      rewrite U in Hxin. destruct Hxin as [-> |[]]. reflexivity.
Qed.



Lemma upsert_same_job_other_url_witness :
  let job := Sample.backend_candidate "https://www.seek.co.nz/job/1002" in
  let w := Sample.world_of [Sample.cook; Sample.backend_a] 4 in
  fst (insert_or_update_job 50 job w) = false /\
  get_job_count (snd (insert_or_update_job 50 job w)) = get_job_count w /\
  In (Jobs.touch 50 Sample.backend_a) (jobs (snd (insert_or_update_job 50 job w))).
Proof.
  cbv zeta.
  assert (Hnd : NoDup (map Jobs.id [Sample.cook; Sample.backend_a])).
  { repeat constructor; simpl; intuition discriminate. }
  assert (Hne : Jobs.url Sample.backend_a <> Some "https://www.seek.co.nz/job/1002")
    by discriminate.
  pose proof (upsert_same_job_other_url
                (Sample.world_of [Sample.cook; Sample.backend_a] 4)
                (Sample.backend_candidate "https://www.seek.co.nz/job/1002")
                "https://www.seek.co.nz/job/1002"
                "Backend Engineer" "Acme" "Auckland" 50 Sample.backend_a
                eq_refl Hnd eq_refl eq_refl eq_refl eq_refl
                (or_intror (or_introl eq_refl))
                eq_refl eq_refl eq_refl eq_refl Hne) as T.
  cbv zeta in T.
  destruct T as (T1 & T2 & _ & T4).
  split; [exact T1 |]. split; [exact T2 |].
  destruct T4 as [T5 _]; [reflexivity | | discriminate | exact T5].
  exists [Sample.cook], []. split; [reflexivity |].
  intros x [<- | []]. reflexivity.
Defined.

(** C1 (as stated) fails in two ways.  A candidate with the identity of a
    stored row and the url of another stored row updates that other row; and
    of two stored rows with the candidate's identity only the first is
    updated. *)
Lemma url_rename_counterexample :
  (let w := Sample.world_of [Sample.backend_a; Sample.cook] 4 in
   let job := Sample.backend_candidate "https://www.seek.co.nz/job/2001" in
   In Sample.backend_a (jobs w) /\
   same_identity job Sample.backend_a = true /\
   Jobs.url Sample.backend_a <> Some "https://www.seek.co.nz/job/2001" /\
   jobs (snd (insert_or_update_job 50 job w)) =
     [Sample.backend_a; Jobs.touch 50 Sample.cook] /\
   Jobs.last_seen Sample.backend_a <> 50%Z) /\
  (let w := Sample.world_of [Sample.backend_a; Sample.backend_b] 4 in
   let job := Sample.backend_candidate "https://www.seek.co.nz/job/1003" in
   In Sample.backend_b (jobs w) /\
   same_identity job Sample.backend_b = true /\
   Jobs.url Sample.backend_b <> Some "https://www.seek.co.nz/job/1003" /\
   jobs (snd (insert_or_update_job 50 job w)) =
     [Jobs.touch 50 Sample.backend_a; Sample.backend_b] /\
   Jobs.last_seen Sample.backend_b <> 50%Z).
Proof.
  split; cbv zeta.
  - split; [now left |]. split; [vm_compute; reflexivity |].
    split; [discriminate |]. split; [vm_compute; reflexivity | discriminate].
  - split; [right; now left |]. split; [vm_compute; reflexivity |].
    split; [discriminate |]. split; [vm_compute; reflexivity | discriminate].
Qed.

(** *** Runs in which requests may fail *)

Lemma attempts_none {A : Type} (o : outcome A) (w : world) :
  (forall e, o = Raise e -> e <> APIError) -> attempts o w w.
Proof.
  intros H. exists []. split; [reflexivity |].
  destruct o as [a | e]; [constructor |].
  destruct e; try constructor. now destruct (H APIError eq_refl).
Qed.

Lemma attempts_then {A B : Type} (a : A) (o : outcome B) (w w1 w2 : world) :
  attempts (Ok a) w w1 -> attempts o w1 w2 -> attempts o w w2.
Proof.
  intros (m1 & E1 & F1) (m2 & E2 & F2).
  exists (m1 ++ m2). split; [now rewrite E1, E2, app_assoc |].
  destruct o as [b | e].
  - now apply Forall_app.
  - destruct e; try (now apply Forall_app).
    destruct F2 as (before & -> & F2). exists (m1 ++ before).
    split; [now rewrite app_assoc | now apply Forall_app].
Qed.

Lemma same_table_refl (w : world) : same_table w w.
Proof. now split. Qed.

Lemma same_table_trans (w w1 w2 : world) :
  same_table w w1 -> same_table w1 w2 -> same_table w w2.
Proof. unfold same_table. intros [-> ->] [-> ->]. now split. Qed.

Lemma reads_ret {A : Type} (a : A) : reads (ret a).
Proof. intros w. split; [now apply attempts_none | apply same_table_refl]. Qed.

Lemma reads_raise {A : Type} (e : exn) : e <> APIError -> reads (@raise A e).
Proof.
  intros He w. split; [| apply same_table_refl].
  apply attempts_none. intros e' E. simpl in E. now injection E as <-.
Qed.

Lemma reads_logger (r : log_record) : reads (logger r).
Proof.
  intros w. split; [| now split].
  exists []. split; [reflexivity | constructor].
Qed.

Lemma reads_execute : reads execute.
Proof.
  intros w. unfold execute.
  destruct (faults w) as [|b rest] eqn:E.
  - split; [| apply same_table_refl]. exists []. simpl. rewrite E.
    split; [reflexivity | constructor].
  - destruct b; (split; [| now split]); simpl.
    + exists [true]. rewrite E. split; [reflexivity |].
      exists []. split; [reflexivity | constructor].
    + exists [false]. rewrite E. split; [reflexivity |]. now repeat constructor.
Qed.

Lemma reads_bind {A B : Type} (m : M A) (k : A -> M B) :
  reads m -> (forall a, reads (k a)) -> reads (bind m k).
Proof.
  intros Hm Hk w. specialize (Hm w). unfold bind.
  destruct (m w) as [[a | e] w1]; simpl in Hm; [| exact Hm].
  destruct Hm as [Am Sm]. destruct (Hk a w1) as [Ak Sk].
  split; [exact (attempts_then a _ w w1 _ Am Ak) |].
  exact (same_table_trans _ _ _ Sm Sk).
Qed.

Lemma reads_select (p : Jobs.row -> bool) : reads (select p).
Proof.
  unfold select. apply reads_bind; [apply reads_execute |].
  intros _ w. split; [now apply attempts_none | apply same_table_refl].
Qed.

Lemma reads_subscript (d : pydict pyval) (k : string) : reads (subscript d k).
Proof.
  unfold subscript. destruct (Dict.lookup d k);
    [apply reads_ret | apply reads_raise; discriminate].
Qed.

Lemma reads_slice_of (v : pyval) (n : nat) : reads (slice_of v n).
Proof.
  destruct v; [apply reads_raise; discriminate | apply reads_ret].
Qed.

Lemma one_write_none (now : time) (job : pydict pyval) (w w' : world) :
  same_table w w' -> one_write now job w w'.
Proof.
  intros [Hj Hn]. left. exists (fun _ => false). split; [| exact Hn].
  rewrite Hj. symmetry. apply map_touch_if_none, filter_false.
Qed.

Lemma writes_last_reads {A : Type} (now : time) (job : pydict pyval) (m : M A) :
  reads m -> writes_last now job m.
Proof.
  intros Hm w. destruct (Hm w) as [Am Sm]. split; [exact Am |].
  destruct (fst (m w)); [now apply one_write_none | exact Sm].
Qed.

Lemma one_write_after (now : time) (job : pydict pyval) (w w1 w2 : world) :
  same_table w w1 -> one_write now job w1 w2 -> one_write now job w w2.
Proof. unfold same_table, one_write. intros [-> ->]. tauto. Qed.

Lemma writes_last_bind {A B : Type} (now : time) (job : pydict pyval)
    (m : M A) (k : A -> M B) :
  reads m -> (forall a, writes_last now job (k a)) ->
  writes_last now job (bind m k).
Proof.
  intros Hm Hk w. specialize (Hm w). unfold bind.
  destruct (m w) as [[a | e] w1]; simpl in Hm; [| exact Hm].
  destruct Hm as [Am Sm]. destruct (Hk a w1) as [Ak Sk].
  split; [exact (attempts_then a _ w w1 _ Am Ak) |].
  destruct (fst (k a w1)).
  - exact (one_write_after _ _ _ _ _ Sm Sk).
  - exact (same_table_trans _ _ _ Sm Sk).
Qed.

Lemma writes_last_update (now : time) (job : pydict pyval)
    (p : Jobs.row -> bool) {A : Type} (a : A) :
  writes_last now job (update_seen now p ;;; ret a).
Proof.
  intros w. unfold update_seen, bind, ret.
  destruct (reads_execute w) as [Ae Se].
  destruct (execute w) as [[[] | e] w1]; simpl in *.
  - split; [exact Ae |]. left. exists p. destruct Se as [Sj Sn].
    simpl. rewrite Sj, Sn. now split.
  - now split.
Qed.

Lemma writes_last_insert (now : time) (job : pydict pyval) :
  writes_last now job
    (insert (new_row now job) ;;;
     logger (DebugInserted (NzLocations.get_region (Dict.get job "location" (PyStr "")))) ;;;
     ret true).
Proof.
  intros w. unfold insert, bind, ret, logger.
  destruct (reads_execute w) as [Ae Se].
  destruct (execute w) as [[[] | e] w1]; simpl in *.
  - split; [exact Ae |]. right. destruct Se as [Sj Sn].
    simpl. rewrite Sj, Sn. now split.
  - now split.
Qed.

Lemma writes_last_duplicate_found (now : time) (job : pydict pyval)
    (dup : Jobs.row) :
  writes_last now job (duplicate_found now job dup).
Proof.
  unfold duplicate_found.
  apply writes_last_bind; [apply reads_logger | intros _].
  apply writes_last_bind; [apply reads_slice_of | intros existing_url].
  apply writes_last_bind; [apply reads_logger | intros _].
  apply writes_last_bind; [apply reads_subscript | intros u].
  apply writes_last_bind; [apply reads_slice_of | intros new_url].
  apply writes_last_bind; [apply reads_logger | intros _].
  apply writes_last_update.
Qed.

Lemma writes_last_check_description (now : time) (job : pydict pyval)
    (snippet : string) (dups : list Jobs.row) :
  writes_last now job (check_description now job snippet dups).
Proof.
  induction dups as [|dup rest IH]; simpl.
  - apply writes_last_reads, reads_ret.
  - apply writes_last_bind; [apply reads_select | intros dup_full].
    destruct dup_full as [|d0 ds]; [exact IH |].
    destruct (String.eqb _ snippet);
      [apply writes_last_duplicate_found | exact IH].
Qed.

(** The loop writes only on the way out: when it runs out, the table is
    as it was. *)
Lemma check_description_none (now : time) (job : pydict pyval)
    (snippet : string) (dups : list Jobs.row) (w : world) :
  fst (check_description now job snippet dups w) = Ok None ->
  same_table w (snd (check_description now job snippet dups w)).
Proof.
  revert w. induction dups as [|dup rest IH]; intros w; simpl.
  - intros _. apply same_table_refl.
  - unfold bind at 1 2.
    destruct (reads_select (fun r => (Jobs.id r =? Jobs.id dup)%Z) w) as [_ Ss].
    destruct (select _ w) as [[dup_full | e] w1]; simpl in *; [| discriminate].
    assert (Hrest : fst (check_description now job snippet rest w1) = Ok None ->
                    same_table w (snd (check_description now job snippet rest w1))).
    { intros E. exact (same_table_trans _ _ _ Ss (IH w1 E)). }
    destruct dup_full as [|d0 ds]; [exact Hrest |].
    destruct (String.eqb _ snippet); [| exact Hrest].
    intros E. exfalso. revert E.
    unfold duplicate_found, bind, logger, slice_of, subscript, update_seen,
      execute, ret, raise.
    simpl.
    destruct (Jobs.url dup); simpl; [| discriminate].
    destruct (Dict.lookup job "url") as [[| u] |]; simpl; try discriminate.
    destruct (faults w1) as [|[] ?]; simpl; discriminate.
Qed.

Lemma one_write_before (now : time) (job : pydict pyval) (w w1 w2 : world) :
  one_write now job w w1 -> same_table w1 w2 -> one_write now job w w2.
Proof. unfold same_table, one_write. intros H [-> ->]. exact H. Qed.

Lemma writes_last_bind_found {B : Type} (now : time) (job : pydict pyval)
    (m : M (option bool)) (k : option bool -> M B) :
  writes_last now job m ->
  (forall w, fst (m w) = Ok None -> same_table w (snd (m w))) ->
  writes_last now job (k None) ->
  (forall b, exists c, k (Some b) = ret c) ->
  writes_last now job (bind m k).
Proof.
  intros Hm Hnone Hk Hret w.
  specialize (Hm w). specialize (Hnone w). unfold bind.
  destruct (m w) as [[[b |] | e] w1]; simpl in *.
  - destruct (Hret b) as [c ->]. exact Hm.
  - destruct Hm as [Am _]. specialize (Hnone eq_refl).
    destruct (Hk w1) as [Ak Sk].
    split; [exact (attempts_then _ _ w w1 _ Am Ak) |].
    destruct (fst (k None w1)).
    + exact (one_write_after _ _ _ _ _ Hnone Sk).
    + exact (same_table_trans _ _ _ Hnone Sk).
  - exact Hm.
Qed.

Lemma writes_last_try (now : time) (job : pydict pyval) :
  writes_last now job (insert_or_update_job_try now job).
Proof.
  unfold insert_or_update_job_try.
  apply writes_last_bind; [apply reads_subscript | intros u].
  apply writes_last_bind; [apply reads_select | intros existing].
  destruct existing as [|r0 rs]; [| apply writes_last_update].
  apply writes_last_bind; [apply reads_select | intros duplicate_query].
  apply writes_last_bind_found.
  - apply writes_last_check_description.
  - apply check_description_none.
  - apply writes_last_insert.
  - intros b. now exists b.
Qed.

(** The method never raises: an exception of the body becomes [False] and
    one more log record, and the table is the one the body left. *)
Lemma upsert_of_try (now : time) (job : pydict pyval) (w : world) :
  match fst (insert_or_update_job_try now job w) with
  | Ok is_new =>
      insert_or_update_job now job w =
      (is_new, snd (insert_or_update_job_try now job w))
  | Raise e =>
      fst (insert_or_update_job now job w) = false /\
      same_table (snd (insert_or_update_job_try now job w))
                 (snd (insert_or_update_job now job w)) /\
      faults (snd (insert_or_update_job now job w)) =
        faults (snd (insert_or_update_job_try now job w)) /\
      log (snd (insert_or_update_job now job w)) =
        log (snd (insert_or_update_job_try now job w)) ++ [ErrorInsertingUpdating e]
  end.
Proof.
  unfold insert_or_update_job.
  destruct (insert_or_update_job_try now job w) as [[b | e] w1]; simpl.
  - reflexivity.
  - repeat split.
Qed.

(** C8 (amended). When a lookup or write of the call fails, the exception is
    caught inside the method: the call answers [False] (the answer it also
    gives for an update), logs the error as its last record and leaves the
    table as it was; the failing request is the last one the call makes, so
    nothing is tried again; and the caller's loop goes on with the next
    candidate. *)
Theorem upsert_failure_is_contained (now : time) (job : pydict pyval)
    (w : world) (rest : list (time * pydict pyval)) (new_jobs : nat) :
  raised now job w = true ->
  let res := fst (insert_or_update_job now job w) in
  let w' := snd (insert_or_update_job now job w) in
  res = false /\
  same_table w w' /\
  (exists before e, log w' = before ++ [ErrorInsertingUpdating e]) /\
  (exists made,
     faults w = made ++ faults w' /\
     Forall (fun b => b = false) (removelast made)) /\
  save_jobs ((now, job) :: rest) new_jobs w = save_jobs rest new_jobs w'.
Proof.
  intros Hr res w'. unfold raised in Hr.
  pose proof (upsert_of_try now job w) as U.
  pose proof (writes_last_try now job w) as [At St].
  destruct (insert_or_update_job_try now job w) as [[b | e] w1] eqn:E;
    [discriminate |].
  simpl in U, At, St. fold res w' in U.
  destruct U as (Hres & Hs & Hf & Hl).
  split; [exact Hres |]. split; [exact (same_table_trans _ _ _ St Hs) |].
  split; [now exists (log w1), e |]. split.
  - destruct At as (made & Em & Fm). exists made. rewrite Hf.
    split; [exact Em |].
    destruct e; try (now apply Forall_removelast).
    destruct Fm as (before & -> & Fb). now rewrite removelast_last.
  - simpl. fold res w'. destruct (insert_or_update_job now job w) as [r w2].
    simpl in *. subst res w'. now rewrite Hres.
Qed.

Lemma upsert_failure_is_contained_witness :
  let job := Sample.backend_candidate "https://www.seek.co.nz/job/1001" in
  let w := Sample.failing [false; true] (Sample.world_of [Sample.cook] 4) in
  fst (insert_or_update_job 50 job w) = false /\
  jobs (snd (insert_or_update_job 50 job w)) = [Sample.cook].
Proof.
  cbv zeta.
  assert (Hr : raised 50 (Sample.backend_candidate "https://www.seek.co.nz/job/1001")
                 (Sample.failing [false; true] (Sample.world_of [Sample.cook] 4))
               = true) by reflexivity.
  destruct (upsert_failure_is_contained 50 _ _ [] 0%nat Hr) as (T1 & [T2 _] & _).
  split; [exact T1 | exact T2].
Defined.

(** C8 (as stated) fails: the answer to a call whose request failed is the
    answer to a call that updated a row. *)
Lemma failure_looks_like_update :
  let job := Sample.backend_candidate "https://www.seek.co.nz/job/1001" in
  let w_up := Sample.world_of [Sample.backend_a] 4 in
  let w_down := Sample.failing [true] w_up in
  raised 50 job w_up = false /\
  raised 50 job w_down = true /\
  fst (insert_or_update_job 50 job w_up) = fst (insert_or_update_job 50 job w_down).
Proof. vm_compute. repeat split. Qed.

(** *** Candidates with missing fields *)

(** C7 (amended). A candidate without a url is turned down before any
    request: the call answers [False], logs the [KeyError] and leaves the
    store as it was.  A candidate without a title, company or location is
    looked up like any other; when no stored row matches it, a row is
    inserted whose title or company is NULL and whose location is empty. *)
Theorem upsert_missing_fields (now : time) (job : pydict pyval) (w : world) :
  (Dict.lookup job "url" = None ->
   insert_or_update_job now job w =
   (false, {| jobs := jobs w; next_id := next_id w; faults := faults w;
              log := log w ++ [ErrorInsertingUpdating (KeyError "url")] |})) /\
  (forall u,
     faults w = [] ->
     Dict.lookup job "url" = Some (PyStr u) ->
     url_rows (PyStr u) (jobs w) = [] ->
     first_duplicate job (jobs w) = None ->
     fst (insert_or_update_job now job w) = true /\
     jobs (snd (insert_or_update_job now job w)) =
       jobs w ++ [new_row now job (next_id w)] /\
     (Dict.lookup job "title" = None ->
      Jobs.title (new_row now job (next_id w)) = None) /\
     (Dict.lookup job "company" = None ->
      Jobs.company (new_row now job (next_id w)) = None) /\
     (Dict.lookup job "location" = None ->
      Jobs.location (new_row now job (next_id w)) = Some "")).
Proof.
  split.
  - intros Hu. unfold insert_or_update_job, insert_or_update_job_try, subscript.
    now rewrite Hu.
  - intros u H Hu Hno Hdup.
    destruct (upsert_ok now job u w H Hu) as [_ Hcases].
    rewrite Hno, Hdup in Hcases. destruct Hcases as (Hres & _ & Hj).
    split; [exact Hres |]. split; [exact Hj |].
    repeat split; intros E; simpl; unfold Dict.get; now rewrite E.
Qed.

Lemma upsert_missing_fields_witness :
  fst (insert_or_update_job 50 Sample.unlinked_candidate
         (Sample.world_of [Sample.cook] 4)) = false /\
  jobs (snd (insert_or_update_job 50 Sample.unlinked_candidate
               (Sample.world_of [Sample.cook] 4))) = [Sample.cook] /\
  fst (insert_or_update_job 50 Sample.untitled_candidate
         (Sample.world_of [Sample.cook] 4)) = true.
Proof.
  destruct (upsert_missing_fields 50 Sample.unlinked_candidate
              (Sample.world_of [Sample.cook] 4)) as [T1 _].
  destruct (upsert_missing_fields 50 Sample.untitled_candidate
              (Sample.world_of [Sample.cook] 4)) as [_ T2].
  rewrite (T1 eq_refl).
  destruct (T2 "https://www.seek.co.nz/job/3001" eq_refl eq_refl eq_refl eq_refl)
    as [T3 _].
  split; [reflexivity | split; [reflexivity | exact T3]].
Defined.

(** C7 (as stated) fails: a candidate without a title is inserted, and the
    new row has a NULL title. *)
Lemma untitled_candidate_is_inserted :
  Dict.lookup Sample.untitled_candidate "title" = None /\
  fst (insert_or_update_job 50 Sample.untitled_candidate (Sample.world_of [] 1))
    = true /\
  map Jobs.title
      (jobs (snd (insert_or_update_job 50 Sample.untitled_candidate
                    (Sample.world_of [] 1)))) = [None].
Proof. vm_compute. repeat split. Qed.

(** *** The effect of one call, whatever happens *)

Lemma upsert_one_write (now : time) (job : pydict pyval) (w : world) :
  one_write now job w (snd (insert_or_update_job now job w)).
Proof.
  pose proof (upsert_of_try now job w) as U.
  pose proof (writes_last_try now job w) as [_ St].
  destruct (fst (insert_or_update_job_try now job w)) as [b | e].
  - now rewrite U.
  - destruct U as (_ & Hs & _).
    apply one_write_none. exact (same_table_trans _ _ _ St Hs).
Qed.

End JobDatabaseFacts.

(** ** The duplicate sweep *)

Module SqlFacts.
Import Sql ListFacts.

Lemma option_eqb_eq (a b : option string) : option_eqb a b = true <-> a = b.
Proof.
  destruct a as [x |], b as [y |]; simpl.
  - rewrite String.eqb_eq. split; congruence.
  - split; discriminate.
  - split; discriminate.
  - split; reflexivity.
Qed.

Lemma key_eqb_eq (a b : key) : key_eqb a b = true <-> a = b.
Proof.
  destruct a as [[[t1 c1] l1] d1], b as [[[t2 c2] l2] d2]. simpl.
  rewrite !andb_true_iff, !String.eqb_eq, option_eqb_eq.
  split; [intros [[[-> ->] ->] ->]; reflexivity | intros E; now inversion E].
Qed.

Lemma key_eqb_refl (k : key) : key_eqb k k = true.
Proof. now apply key_eqb_eq. Qed.

Lemma has_key_iff (k : key) (r : Jobs.row) :
  has_key k r = true <-> key_of r = Some k.
Proof.
  unfold has_key. destruct (key_of r) as [k' |].
  - rewrite key_eqb_eq. split; congruence.
  - split; discriminate.
Qed.

Lemma in_members (k : key) (table : list Jobs.row) (r : Jobs.row) :
  In r (members k table) <-> In r table /\ key_of r = Some k.
Proof. unfold members. now rewrite filter_In, has_key_iff. Qed.

(** [distinct] keeps every key once. *)
Lemma in_distinct (ks : list key) (k : key) : In k (distinct ks) <-> In k ks.
Proof.
  induction ks as [|k0 ks IH]; [reflexivity |].
  simpl. rewrite filter_In, IH, negb_true_iff.
  destruct (key_eqb k0 k) eqn:E.
  - apply key_eqb_eq in E. subst. intuition discriminate.
  - intuition.
Qed.

Lemma NoDup_distinct (ks : list key) : NoDup (distinct ks).
Proof.
  induction ks as [|k ks IH]; [constructor |].
  simpl. constructor; [| now apply NoDup_filter].
  rewrite filter_In, key_eqb_refl. intros [_ ?]. discriminate.
Qed.

Lemma in_keys_of (table : list Jobs.row) (k : key) :
  In k (keys_of table) <-> exists r, In r table /\ key_of r = Some k.
Proof.
  unfold keys_of. rewrite in_distinct, in_flat_map.
  split; intros (r & Hr & Hk); exists r; (split; [assumption |]).
  - destruct (key_of r); [destruct Hk as [-> |[]]; reflexivity | contradiction].
  - rewrite Hk. now left.
Qed.

(** Ordering a group permutes it. *)
Lemma insert_by_first_seen_perm (r : Jobs.row) (l : list Jobs.row) :
  Permutation (r :: l) (insert_by_first_seen r l).
Proof.
  induction l as [|x l IH]; simpl; [reflexivity |].
  destruct (Jobs.first_seen r <=? Jobs.first_seen x)%Z; [reflexivity |].
  rewrite perm_swap. now constructor.
Qed.

Lemma order_by_first_seen_perm (l : list Jobs.row) :
  Permutation l (order_by_first_seen l).
Proof.
  induction l as [|x l IH]; simpl; [constructor |].
  rewrite <- insert_by_first_seen_perm. now constructor.
Qed.

Lemma in_order_by_first_seen (l : list Jobs.row) (r : Jobs.row) :
  In r (order_by_first_seen l) <-> In r l.
Proof.
  split; apply Permutation_in;
    [symmetry |]; apply order_by_first_seen_perm.
Qed.

Lemma length_order_by_first_seen (l : list Jobs.row) :
  length (order_by_first_seen l) = length l.
Proof. symmetry. apply Permutation_length, order_by_first_seen_perm. Qed.

(** The first row of an ordered group is one with the least [first_seen]. *)
Lemma order_by_first_seen_head (l : list Jobs.row) (h : Jobs.row) :
  hd_error (order_by_first_seen l) = Some h ->
  Forall (fun x => (Jobs.first_seen h <= Jobs.first_seen x)%Z) l.
Proof.
  revert h. induction l as [|r l IH]; intros h Hh; [constructor |].
  simpl in Hh.
  destruct (order_by_first_seen l) as [|h' o] eqn:Ho.
  - simpl in Hh. injection Hh as <-.
    assert (l = []) as ->.
    { apply length_zero_iff_nil. rewrite <- length_order_by_first_seen, Ho.
      reflexivity. }
    constructor; [lia | constructor].
  - specialize (IH h' eq_refl). simpl in Hh.
    destruct (Z.leb_spec (Jobs.first_seen r) (Jobs.first_seen h')) as [Hle | Hlt];
      simpl in Hh; injection Hh as <-.
    + constructor; [lia |].
      eapply Forall_impl; [| exact IH]. simpl. intros x Hx. lia.
    + constructor; [lia | exact IH].
Qed.

End SqlFacts.

Module SweepFacts.
Import Sql ListFacts SqlFacts.

(** *** The deletions as a function of the table *)

(** The identifiers deleted for the rows with key [k]. *)
Lemma ids_group_of (table : list Jobs.row) (k : key) :
  ids (group_of table k) = map Jobs.id (order_by_first_seen (members k table)) /\
  count (group_of table k) = length (members k table).
Proof. destruct k as [[[t c] l] d]. now split. Qed.

Lemma removal_ids_by_key (table : list Jobs.row) :
  removal_ids table =
  flat_map (fun k => if (1 <? length (members k table))%nat
                     then map Jobs.id (tl (order_by_first_seen (members k table)))
                     else [])
           (keys_of table).
Proof.
  unfold removal_ids, duplicate_groups. rewrite flat_map_filter_map.
  apply flat_map_ext. intros k.
  destruct (ids_group_of table k) as [-> ->]. now rewrite map_tl.
Qed.

Lemma in_removal_ids (table : list Jobs.row) (i : Z) :
  In i (removal_ids table) <->
  exists k r, (1 < length (members k table))%nat /\
              In r (tl (order_by_first_seen (members k table))) /\
              Jobs.id r = i.
Proof.
  rewrite removal_ids_by_key, in_flat_map. split.
  - intros (k & _ & Hi).
    destruct (Nat.ltb_spec 1 (length (members k table))) as [Hlt |];
      [| contradiction].
    apply in_map_iff in Hi as (r & E & Hr). now exists k, r.
  - intros (k & r & Hlt & Hr & E). exists k. split.
    + apply in_keys_of. exists r.
      apply in_members, in_order_by_first_seen, in_tl, Hr.
    + apply Nat.ltb_lt in Hlt. rewrite Hlt. apply in_map_iff. now exists r.
Qed.

Lemma mem_iff (i : Z) (l : list Z) : mem i l = true <-> In i l.
Proof.
  unfold mem. rewrite existsb_exists. split.
  - intros (x & Hx & E). apply Z.eqb_eq in E. now subst.
  - intros H. exists i. split; [assumption | apply Z.eqb_refl].
Qed.

Lemma delete_all (l : list Z) (table : list Jobs.row) :
  fold_left (fun t i => delete i t) l table =
  filter (fun r => negb (mem (Jobs.id r) l)) table.
Proof.
  revert table. induction l as [|i l IH]; intros table; simpl.
  - symmetry. apply filter_true.
  - rewrite IH. unfold delete. rewrite filter_filter.
    apply filter_ext. intros r. unfold mem. simpl.
    now rewrite negb_orb.
Qed.

(** *** find_true_duplicates.py *)

Section FindTrueDuplicatesRuns.
Import FindTrueDuplicates.

Lemma delete_each_run (l : list Z) (s : state) :
  table (delete_each l s) = fold_left (fun t i => delete i t) l (table s) /\
  total_removed (delete_each l s) = (total_removed s + length l)%nat /\
  printed (delete_each l s) = printed s ++ map DeletedLine l.
Proof.
  revert s. induction l as [|i l IH]; intros s; simpl.
  - now rewrite Nat.add_0_r, app_nil_r.
  - destruct (IH (print (DeletedLine i)
                    {| table := delete i (table s);
                       total_removed := S (total_removed s);
                       printed := printed s |})) as (-> & -> & ->).
    simpl. rewrite <- app_assoc. repeat split. lia.
Qed.

Lemma deleted_ids_app (a b : list line) :
  deleted_ids (a ++ b) = deleted_ids a ++ deleted_ids b.
Proof. apply flat_map_app. Qed.

Lemma deleted_ids_deleted (l : list Z) : deleted_ids (map DeletedLine l) = l.
Proof. induction l as [|i l IH]; simpl; [reflexivity | now rewrite IH]. Qed.

Lemma resolve_groups_run (groups : list group) (s : state) :
  let s' := fold_left (fun s row => resolve_group false row s) groups s in
  let removed := flat_map (fun g => tl (ids g)) groups in
  table s' = fold_left (fun t i => delete i t) removed (table s) /\
  total_removed s' = (total_removed s + length removed)%nat /\
  deleted_ids (printed s') = deleted_ids (printed s) ++ removed.
Proof.
  revert s. induction groups as [|g groups IH]; intros s; simpl.
  - now rewrite Nat.add_0_r, app_nil_r.
  - destruct (IH (resolve_group false g s)) as (-> & -> & ->).
    unfold resolve_group. simpl negb. cbv iota.
    destruct (delete_each_run (tl (ids g))
                (print (RemovingLine (tl (ids g)))
                   (print (KeepingLine (hd 0%Z (ids g)))
                      (print (GroupLine (g_title g) (g_company g) (g_location g)) s))))
      as (-> & -> & ->).
    simpl. rewrite fold_left_app, length_app, !deleted_ids_app,
      deleted_ids_deleted.
    simpl. rewrite !app_nil_r, <- app_assoc. repeat split. lia.
Qed.

Lemma dry_groups_run (groups : list group) (s : state) :
  let s' := fold_left (fun s row => resolve_group true row s) groups s in
  table s' = table s /\
  total_removed s' = total_removed s /\
  printed s' = printed s ++ flat_map group_report groups.
Proof.
  revert s. induction groups as [|g groups IH]; intros s; simpl.
  - now rewrite app_nil_r.
  - destruct (IH (resolve_group true g s)) as (-> & -> & ->).
    unfold resolve_group. simpl. rewrite <- !app_assoc. now repeat split.
Qed.

(** A destructive run deletes the rows whose identifier is in
    [removal_ids], reports each of them and returns their number. *)
Lemma remove_duplicates_run (jobs : list Jobs.row) :
  table (remove_duplicates false jobs) =
    filter (fun r => negb (mem (Jobs.id r) (removal_ids jobs))) jobs /\
  total_removed (remove_duplicates false jobs) = length (removal_ids jobs) /\
  deleted_ids (printed (remove_duplicates false jobs)) = removal_ids jobs.
Proof.
  unfold remove_duplicates. simpl negb. cbv iota.
  destruct (resolve_groups_run (duplicate_groups jobs)
              {| table := jobs; total_removed := 0; printed := [] |})
    as (Ht & Hn & Hp).
  cbv zeta in Ht, Hn, Hp. simpl in Ht, Hn, Hp |- *.
  rewrite Ht, Hn, deleted_ids_app, Hp. simpl.
  rewrite app_nil_r. split; [apply delete_all | now split].
Qed.

End FindTrueDuplicatesRuns.

(** *** Who is deleted *)

Section DistinctIdentifiers.
Variable table : list Jobs.row.
Hypothesis distinct_ids : NoDup (map Jobs.id table).

Lemma NoDup_table : NoDup table.
Proof. exact (NoDup_map_inv _ _ distinct_ids). Qed.

Lemma NoDup_ordered_members (k : key) :
  NoDup (order_by_first_seen (members k table)).
Proof.
  eapply Permutation_NoDup; [apply order_by_first_seen_perm |].
  apply NoDup_filter, NoDup_table.
Qed.

Lemma in_ordered_members (k : key) (r : Jobs.row) :
  In r (order_by_first_seen (members k table)) <->
  In r table /\ key_of r = Some k.
Proof. now rewrite in_order_by_first_seen, in_members. Qed.

Lemma same_id_same_row (r r' : Jobs.row) :
  In r table -> In r' table -> Jobs.id r = Jobs.id r' -> r = r'.
Proof. apply NoDup_map_injective, distinct_ids. Qed.

(** A row with a key is deleted exactly when it is not the keeper of the
    rows with its key. *)
Lemma removed_iff_not_keeper (r : Jobs.row) (k : key) :
  In r table -> key_of r = Some k ->
  In (Jobs.id r) (removal_ids table) <-> keeper table k <> Some r.
Proof.
  intros Hr Hk. unfold keeper. rewrite in_removal_ids.
  assert (Hin : In r (order_by_first_seen (members k table)))
    by now apply in_ordered_members.
  pose proof (NoDup_ordered_members k) as Hnd.
  split.
  - intros (k' & r' & _ & Hr' & E).
    pose proof (proj1 (in_ordered_members k' r') (in_tl _ _ Hr')) as [Hr'1 Hk'].
    assert (r' = r) as -> by now apply same_id_same_row.
    assert (k' = k) as -> by congruence.
    destruct (order_by_first_seen (members k table)) as [|h o];
      [contradiction |].
    simpl in *. inversion Hnd as [|? ? Hh _]; subst.
    intros F. injection F as ->. contradiction.
  - intros Hne. exists k, r.
    destruct (order_by_first_seen (members k table)) as [|h o] eqn:Ho;
      [contradiction |].
    simpl in *. destruct Hin as [-> | Hin]; [congruence |].
    repeat split; [| assumption].
    rewrite <- length_order_by_first_seen, Ho. simpl.
    destruct o; [contradiction | simpl; lia].
Qed.

Lemma unkeyed_not_removed (r : Jobs.row) :
  In r table -> key_of r = None -> ~ In (Jobs.id r) (removal_ids table).
Proof.
  intros Hr Hk. rewrite in_removal_ids. intros (k' & r' & _ & Hr' & E).
  pose proof (proj1 (in_ordered_members k' r') (in_tl _ _ Hr')) as [Hr'1 Hk'].
  assert (r' = r) as -> by now apply same_id_same_row.
  congruence.
Qed.

Lemma NoDup_removal_ids : NoDup (removal_ids table).
Proof.
  rewrite removal_ids_by_key. apply NoDup_flat_map.
  - apply NoDup_distinct.
  - intros k _. destruct (1 <? _)%nat; [| constructor].
    apply (NoDup_map_incl Jobs.id table); [exact distinct_ids | |].
    + apply NoDup_tl, NoDup_ordered_members.
    + intros r Hr. now apply (in_ordered_members k r), in_tl.
  - intros k k' i _ _ Hi Hi'.
    destruct (1 <? length (members k table))%nat; [| contradiction].
    destruct (1 <? length (members k' table))%nat; [| contradiction].
    apply in_map_iff in Hi as (r & E & Hr), Hi' as (r' & E' & Hr').
    pose proof (proj1 (in_ordered_members k r) (in_tl _ _ Hr)) as [H1 H2].
    pose proof (proj1 (in_ordered_members k' r') (in_tl _ _ Hr')) as [H1' H2'].
    assert (r = r') as -> by (apply same_id_same_row; congruence).
    congruence.
Qed.

Lemma removal_ids_in_table (i : Z) :
  In i (removal_ids table) -> In i (map Jobs.id table).
Proof.
  rewrite in_removal_ids. intros (k & r & _ & Hr & <-).
  apply in_map. now apply (in_ordered_members k r), in_tl.
Qed.

(** As many rows go as there are identifiers to delete. *)
Lemma removed_count :
  length (filter (fun r => negb (mem (Jobs.id r) (removal_ids table))) table) +
  length (removal_ids table) = length table.
Proof.
  pose proof (filter_partition_length
                (fun r => mem (Jobs.id r) (removal_ids table)) table) as P.
  assert (E : length (filter (fun r => mem (Jobs.id r) (removal_ids table)) table)
              = length (removal_ids table)).
  { rewrite <- (length_map Jobs.id). apply Permutation_length, NoDup_Permutation.
    - apply (NoDup_map_incl Jobs.id table);
        [exact distinct_ids | apply NoDup_filter, NoDup_table |].
      intros r Hr. now apply filter_In in Hr.
    - apply NoDup_removal_ids.
    - intros i. rewrite in_map_iff. split.
      + intros (r & <- & Hr). apply filter_In in Hr as [_ Hr].
        now apply mem_iff.
      + intros Hi. pose proof (removal_ids_in_table i Hi) as Hin.
        apply in_map_iff in Hin as (r & <- & Hr). exists r.
        split; [reflexivity |]. apply filter_In. split; [assumption |].
        now apply mem_iff. }
  lia.
Qed.

End DistinctIdentifiers.

(** *** remove_duplicates_simple.py *)

Section RemoveDuplicatesSimpleRuns.
Import RemoveDuplicatesSimple.

Lemma simple_delete_each_run (l : list Z) (s : state) :
  table (delete_each l s) = fold_left (fun t i => delete i t) l (table s) /\
  total_removed (delete_each l s) = (total_removed s + length l)%nat.
Proof.
  revert s. induction l as [|i l IH]; intros s; simpl.
  - now rewrite Nat.add_0_r.
  - destruct (IH {| table := delete i (table s);
                    total_removed := S (total_removed s);
                    printed := printed s |}) as (-> & ->).
    simpl. split; [reflexivity | lia].
Qed.

Lemma simple_resolve_groups_run (groups : list group) (s : state) :
  let s' := fold_left (fun s row => resolve_group row s) groups s in
  let removed := flat_map (fun g => tl (ids g)) groups in
  table s' = fold_left (fun t i => delete i t) removed (table s) /\
  total_removed s' = (total_removed s + length removed)%nat.
Proof.
  revert s. induction groups as [|g groups IH]; intros s; simpl.
  - now rewrite Nat.add_0_r.
  - destruct (IH (resolve_group g s)) as (-> & ->).
    assert (E : table (resolve_group g s) = table (delete_each (tl (ids g)) s) /\
                total_removed (resolve_group g s) =
                total_removed (delete_each (tl (ids g)) s)).
    { unfold resolve_group. now destruct (_ =? 0)%nat. }
    destruct E as [-> ->].
    destruct (simple_delete_each_run (tl (ids g)) s) as (-> & ->).
    rewrite fold_left_app, length_app. split; [reflexivity | lia].
Qed.

Lemma simple_remove_duplicates_run (jobs : list Jobs.row) :
  table (remove_duplicates jobs) =
    filter (fun r => negb (mem (Jobs.id r) (removal_ids jobs))) jobs /\
  total_removed (remove_duplicates jobs) = length (removal_ids jobs).
Proof.
  unfold remove_duplicates. simpl.
  destruct (simple_resolve_groups_run (duplicate_groups jobs)
              (print (FoundGroupsLine (length (duplicate_groups jobs)))
                 (print (JobsBeforeCleanupLine (length jobs))
                    {| table := jobs; total_removed := 0; printed := [] |})))
    as (Ht & Hn).
  cbv zeta in Ht, Hn. simpl in Ht, Hn.
  rewrite Ht, Hn. split; [apply delete_all | reflexivity].
Qed.

End RemoveDuplicatesSimpleRuns.

(** *** The sweep keeps the earliest row of every group *)

Lemma kept_iff_keeper (jobs : list Jobs.row) (r : Jobs.row) (k : key) :
  NoDup (map Jobs.id jobs) -> In r jobs -> key_of r = Some k ->
  ~ In (Jobs.id r) (removal_ids jobs) <-> keeper jobs k = Some r.
Proof.
  intros Hnd Hr Hk. rewrite (removed_iff_not_keeper jobs Hnd r k Hr Hk).
  split; [| intros E F; contradiction].
  intros H. unfold keeper in *.
  pose proof (proj2 (in_ordered_members jobs k r) (conj Hr Hk)) as Hin.
  destruct (order_by_first_seen (members k jobs)) as [|h o] eqn:Ho;
    [contradiction |].
  simpl in *. f_equal.
  assert (Hh : In h jobs).
  { apply (in_ordered_members jobs k h). rewrite Ho. now left. }
  destruct (Z.eq_dec (Jobs.id h) (Jobs.id r)) as [E | Hne].
  - now apply (same_id_same_row jobs Hnd).
  - exfalso. apply H. intros F. injection F as ->. congruence.
Qed.

Lemma in_survivors (jobs : list Jobs.row) (r : Jobs.row) :
  In r (survivors jobs) <-> In r jobs /\ ~ In (Jobs.id r) (removal_ids jobs).
Proof.
  unfold survivors. rewrite filter_In, negb_true_iff.
  split; intros [H1 H2]; (split; [exact H1 |]).
  - intros F. apply mem_iff in F. congruence.
  - destruct (mem (Jobs.id r) (removal_ids jobs)) eqn:E; [| reflexivity].
    exfalso. now apply H2, mem_iff.
Qed.

Lemma survivor_iff_keeper (jobs : list Jobs.row) (r : Jobs.row) (k : key) :
  NoDup (map Jobs.id jobs) -> In r jobs -> key_of r = Some k ->
  In r (survivors jobs) <-> keeper jobs k = Some r.
Proof.
  intros Hnd Hr Hk.
  rewrite in_survivors, <- (kept_iff_keeper jobs r k Hnd Hr Hk). tauto.
Qed.

(** C2. On a table with distinct identifiers, [remove_duplicates(dry_run =
    False)] leaves the rows of the table that are not deleted as they were;
    a row outside the grouping (a NULL title, company or location) stays; of
    the rows with one key exactly the keeper stays, the first by
    [first_seen], so that no row with that key was seen earlier; and the
    value returned is the number of rows removed.  The simplified script
    does the same.  On the table seeded with the group 10, 11, 12 the run
    keeps 10, deletes 11 and 12 and returns 2. *)
Theorem sweep_keeps_earliest :
  (forall jobs : list Jobs.row,
     NoDup (map Jobs.id jobs) ->
     let s := FindTrueDuplicates.remove_duplicates false jobs in
     let left := FindTrueDuplicates.table s in
     left = filter (fun r => negb (mem (Jobs.id r) (removal_ids jobs))) jobs /\
     (forall r, In r jobs -> key_of r = None -> In r left) /\
     (forall r k, In r jobs -> key_of r = Some k ->
                  (In r left <-> keeper jobs k = Some r)) /\
     (forall r r' k, In r left -> key_of r = Some k ->
                     In r' jobs -> key_of r' = Some k ->
                     (Jobs.first_seen r <= Jobs.first_seen r')%Z) /\
     FindTrueDuplicates.total_removed s = length jobs - length left /\
     RemoveDuplicatesSimple.table (RemoveDuplicatesSimple.remove_duplicates jobs)
       = left /\
     RemoveDuplicatesSimple.total_removed
       (RemoveDuplicatesSimple.remove_duplicates jobs)
       = FindTrueDuplicates.total_removed s) /\
  (let s := FindTrueDuplicates.remove_duplicates false Sample.seeded in
   map Jobs.id (FindTrueDuplicates.table s) = [3; 10]%Z /\
   FindTrueDuplicates.deleted_ids (FindTrueDuplicates.printed s) = [11; 12]%Z /\
   FindTrueDuplicates.total_removed s = 2).
Proof.
  split; [| vm_compute; repeat split].
  intros jobs Hnd s left.
  destruct (remove_duplicates_run jobs) as (Ht & Hn & _).
  destruct (simple_remove_duplicates_run jobs) as (Hst & Hsn).
  fold s in Ht, Hn. fold left in Ht. fold (survivors jobs) in Ht.
  assert (Hleft : forall r, In r left <->
                            In r jobs /\ ~ In (Jobs.id r) (removal_ids jobs)).
  { intros r. rewrite Ht. apply in_survivors. }
  assert (Hkeep : forall r k, In r jobs -> key_of r = Some k ->
                              (In r left <-> keeper jobs k = Some r)).
  { intros r k Hr Hk. rewrite Ht. now apply survivor_iff_keeper. }
  split; [exact Ht |]. split; [| split; [exact Hkeep | split; [| split; [| split]]]].
  - intros r Hr Hk. apply Hleft. split; [assumption |].
    now apply unkeyed_not_removed.
  - intros r r' k Hr Hk Hr' Hk'.
    assert (Hrj : In r jobs) by now apply Hleft.
    pose proof (proj1 (Hkeep r k Hrj Hk) Hr) as Hkeeper.
    pose proof (order_by_first_seen_head _ _ Hkeeper) as Hmin.
    rewrite Forall_forall in Hmin. apply Hmin. now apply in_members.
  - pose proof (removed_count jobs Hnd) as Hc. fold (survivors jobs) in Hc.
    rewrite Hn, Ht. lia.
  - now rewrite Hst, Ht.
  - now rewrite Hsn, Hn.
Qed.

Lemma sweep_keeps_earliest_witness :
  let s := FindTrueDuplicates.remove_duplicates false Sample.seeded in
  In (Sample.posting 10 "https://www.seek.co.nz/job/10" 100)
     (FindTrueDuplicates.table s) /\
  FindTrueDuplicates.total_removed s =
    length Sample.seeded - length (FindTrueDuplicates.table s).
Proof.
  assert (Hnd : NoDup (map Jobs.id Sample.seeded)).
  { repeat constructor; simpl; intuition discriminate. }
  destruct (proj1 sweep_keeps_earliest Sample.seeded Hnd)
    as (_ & _ & Hkeep & _ & Hn & _).
  split; [| exact Hn].
  apply (Hkeep _ ("Backend Engineer", "Acme", "Auckland", Some "We need...")).
  - simpl. tauto.
  - reflexivity.
  - reflexivity.
Defined.

(** *** A second run finds nothing *)

Lemma no_duplicates_left (jobs : list Jobs.row) :
  NoDup (map Jobs.id jobs) -> duplicate_groups (survivors jobs) = [].
Proof.
  intros Hnd. unfold duplicate_groups. apply filter_nil.
  intros g Hg. apply in_map_iff in Hg as (k & <- & _).
  destruct (ids_group_of (survivors jobs) k) as [_ ->].
  apply Nat.ltb_ge.
  assert (Hm : NoDup (members k (survivors jobs))).
  { apply NoDup_filter, NoDup_filter, (NoDup_map_inv _ _ Hnd). }
  assert (Hall : forall x, In x (members k (survivors jobs)) ->
                           keeper jobs k = Some x).
  { intros x Hx. apply in_members in Hx as [Hx Hk].
    apply (survivor_iff_keeper jobs x k Hnd); [| assumption | assumption].
    now apply in_survivors in Hx. }
  destruct (keeper jobs k) as [h |] eqn:Hh.
  - apply (NoDup_all_equal _ h Hm). intros x Hx.
    specialize (Hall x Hx). congruence.
  - destruct (members k (survivors jobs)) as [|x l]; [simpl; lia |].
    specialize (Hall x (or_introl eq_refl)). discriminate.
Qed.

Lemma nothing_to_remove (jobs : list Jobs.row) :
  duplicate_groups jobs = [] -> survivors jobs = jobs.
Proof.
  intros E. unfold survivors, removal_ids. rewrite E. simpl. apply filter_true.
Qed.

(** C4. On a table with distinct identifiers, a destructive run followed
    by a second one on the resulting table: the second run finds no
    duplicate group, deletes nothing, returns 0 and leaves the table of the
    first run (each group lost only its non-keepers, so every key is left
    with one row).  The same holds for the simplified script. *)
Theorem sweep_twice (jobs : list Jobs.row) :
  NoDup (map Jobs.id jobs) ->
  let first := FindTrueDuplicates.remove_duplicates false jobs in
  let second :=
    FindTrueDuplicates.remove_duplicates false (FindTrueDuplicates.table first) in
  duplicate_groups (FindTrueDuplicates.table first) = [] /\
  FindTrueDuplicates.total_removed second = 0 /\
  FindTrueDuplicates.deleted_ids (FindTrueDuplicates.printed second) = [] /\
  FindTrueDuplicates.table second = FindTrueDuplicates.table first /\
  (let first' := RemoveDuplicatesSimple.remove_duplicates jobs in
   let second' :=
     RemoveDuplicatesSimple.remove_duplicates
       (RemoveDuplicatesSimple.table first') in
   RemoveDuplicatesSimple.total_removed second' = 0 /\
   RemoveDuplicatesSimple.table second' = RemoveDuplicatesSimple.table first').
Proof.
  intros Hnd first second.
  destruct (remove_duplicates_run jobs) as (Ht & _).
  fold first in Ht. fold (survivors jobs) in Ht.
  pose proof (no_duplicates_left jobs Hnd) as Hnone.
  destruct (remove_duplicates_run (survivors jobs)) as (Ht2 & Hn2 & Hp2).
  fold (survivors (survivors jobs)) in Ht2.
  rewrite (nothing_to_remove _ Hnone) in Ht2.
  unfold removal_ids in Hn2, Hp2. rewrite Hnone in Hn2, Hp2.
  subst second. rewrite Ht.
  split; [exact Hnone |]. split; [exact Hn2 |]. split; [exact Hp2 |].
  split; [exact Ht2 |].
  cbv zeta.
  destruct (simple_remove_duplicates_run jobs) as (Hs & _).
  fold (survivors jobs) in Hs. rewrite Hs.
  destruct (simple_remove_duplicates_run (survivors jobs)) as (Hs2 & Hsn2).
  fold (survivors (survivors jobs)) in Hs2.
  rewrite (nothing_to_remove _ Hnone) in Hs2.
  unfold removal_ids in Hsn2. rewrite Hnone in Hsn2.
  split; assumption.
Qed.

Lemma sweep_twice_witness :
  let first := FindTrueDuplicates.remove_duplicates false Sample.seeded in
  let second :=
    FindTrueDuplicates.remove_duplicates false (FindTrueDuplicates.table first) in
  FindTrueDuplicates.total_removed first = 2 /\
  FindTrueDuplicates.total_removed second = 0.
Proof.
  assert (Hnd : NoDup (map Jobs.id Sample.seeded)).
  { repeat constructor; simpl; intuition discriminate. }
  destruct (sweep_twice Sample.seeded Hnd) as (_ & T & _).
  split; [reflexivity | exact T].
Defined.

(** *** The dry run *)

Section DryRun.
Import FindTrueDuplicates.

Lemma reported_group_reports (groups : list group) :
  reported_keepers (flat_map group_report groups) =
    map (fun g => hd 0%Z (ids g)) groups /\
  reported_removals (flat_map group_report groups) =
    flat_map (fun g => tl (ids g)) groups /\
  deleted_ids (flat_map group_report groups) = [].
Proof.
  induction groups as [|g groups (IH1 & IH2 & IH3)]; [now repeat split |].
  unfold reported_keepers, reported_removals, deleted_ids in *.
  simpl. rewrite IH1, IH2, IH3. now repeat split.
Qed.

Lemma reported_keepers_app (a b : list line) :
  reported_keepers (a ++ b) = reported_keepers a ++ reported_keepers b.
Proof. apply flat_map_app. Qed.

Lemma reported_removals_app (a b : list line) :
  reported_removals (a ++ b) = reported_removals a ++ reported_removals b.
Proof. apply flat_map_app. Qed.

Lemma would_remove_count (groups : list group) :
  list_sum (map (fun row => length (ids row) - 1) groups) =
  length (flat_map (fun g => tl (ids g)) groups).
Proof.
  induction groups as [|g groups IH]; [reflexivity |].
  simpl. rewrite length_app, IH. f_equal.
  destruct (ids g); simpl; lia.
Qed.

Lemma dry_run_table (jobs : list Jobs.row) :
  table (remove_duplicates true jobs) = jobs.
Proof.
  destruct (dry_groups_run (duplicate_groups jobs)
              {| table := jobs; total_removed := 0; printed := [] |})
    as (Ht & _).
  unfold remove_duplicates. simpl. exact Ht.
Qed.

(** C6. [remove_duplicates(dry_run = True)] leaves the table as it is and
    returns 0; it prints, for every duplicate group, the keeper and the
    identifiers to remove, and at the end their total; these are the
    identifiers a destructive run deletes and the number it returns. *)
Theorem dry_run_is_pure (jobs : list Jobs.row) :
  let dry := remove_duplicates true jobs in
  let wet := remove_duplicates false jobs in
  table dry = jobs /\
  total_removed dry = 0 /\
  printed dry =
    flat_map group_report (duplicate_groups jobs) ++
    [TotalWouldLine (length (removal_ids jobs))] /\
  reported_keepers (printed dry) =
    map (fun g => hd 0%Z (ids g)) (duplicate_groups jobs) /\
  reported_removals (printed dry) = deleted_ids (printed wet) /\
  deleted_ids (printed dry) = [] /\
  length (reported_removals (printed dry)) = total_removed wet.
Proof.
  intros dry wet.
  destruct (remove_duplicates_run jobs) as (_ & Hn & Hp). fold wet in Hn, Hp.
  destruct (dry_groups_run (duplicate_groups jobs)
              {| table := jobs; total_removed := 0; printed := [] |})
    as (Ht & Hd & Hpr).
  cbv zeta in Ht, Hd, Hpr. simpl in Ht, Hd, Hpr.
  assert (E : printed dry =
              flat_map group_report (duplicate_groups jobs) ++
              [TotalWouldLine (length (removal_ids jobs))]).
  { unfold dry, remove_duplicates. simpl. rewrite Hpr.
    now rewrite would_remove_count. }
  destruct (reported_group_reports (duplicate_groups jobs)) as (R1 & R2 & R3).
  assert (K : reported_keepers (printed dry) =
              map (fun g => hd 0%Z (ids g)) (duplicate_groups jobs)).
  { rewrite E, reported_keepers_app, R1. apply app_nil_r. }
  assert (R : reported_removals (printed dry) = removal_ids jobs).
  { rewrite E, reported_removals_app, R2. apply app_nil_r. }
  assert (D : deleted_ids (printed dry) = []).
  { rewrite E, deleted_ids_app, R3. reflexivity. }
  split; [unfold dry, remove_duplicates; simpl; exact Ht |].
  split; [unfold dry, remove_duplicates; simpl; exact Hd |].
  split; [exact E |]. split; [exact K |].
  split; [now rewrite R, Hp |].
  split; [exact D | now rewrite R, Hn].
Qed.

End DryRun.

End SweepFacts.

(** ** Rows over the life of the store *)

Module StoreFacts.
Import JobDatabase Store.

Lemma same_except_seen_refl (r : Jobs.row) : same_except_seen r r.
Proof. unfold same_except_seen. tauto. Qed.

Lemma same_except_seen_trans (a b c : Jobs.row) :
  same_except_seen a b -> same_except_seen b c -> same_except_seen a c.
Proof.
  unfold same_except_seen. intros H1 H2.
  decompose [and] H1. decompose [and] H2. repeat split; congruence.
Qed.

Lemma carried_over_refl (w : world) : carried_over w w.
Proof.
  split; [lia |]. intros r Hr. left. exists r.
  split; [assumption | apply same_except_seen_refl].
Qed.

Lemma carried_over_trans (w w1 w2 : world) :
  carried_over w w1 -> carried_over w1 w2 -> carried_over w w2.
Proof.
  intros [N1 C1] [N2 C2]. split; [lia |].
  intros r2 Hr2. destruct (C2 r2 Hr2) as [(r1 & Hr1 & S12) | Hnew]; [| right; lia].
  destruct (C1 r1 Hr1) as [(r & Hr & S01) | Hnew].
  - left. exists r. split; [assumption |].
    exact (same_except_seen_trans _ _ _ S01 S12).
  - right. destruct S12 as (-> & _). exact Hnew.
Qed.

(** A sweep leaves rows of the table, untouched. *)
Lemma carried_over_subset (w : world) (left : list Jobs.row) :
  incl left (jobs w) -> carried_over w (with_jobs w left).
Proof.
  intros Hincl. split; [simpl; lia |].
  intros r Hr. left. exists r. split; [now apply Hincl | apply same_except_seen_refl].
Qed.

Lemma well_formed_subset (w : world) (left : list Jobs.row) :
  NoDup left -> incl left (jobs w) -> well_formed w ->
  well_formed (with_jobs w left).
Proof.
  intros Hnd Hincl [Hids Hbelow]. split; simpl.
  - exact (ListFacts.NoDup_map_incl Jobs.id (jobs w) left Hids Hnd Hincl).
  - rewrite Forall_forall in *. intros r Hr. now apply Hbelow, Hincl.
Qed.

Lemma upsert_carried_over (now : time) (job : pydict pyval) (w : world) :
  well_formed w ->
  carried_over w (snd (insert_or_update_job now job w)) /\
  well_formed (snd (insert_or_update_job now job w)).
Proof.
  intros [Hids Hbelow].
  destruct (JobDatabaseFacts.upsert_one_write now job w)
    as [(p & Hj & Hn) | (Hj & Hn)].
  - split; [split; [lia |] | split].
    + intros r' Hr'. rewrite Hj in Hr'.
      apply in_map_iff in Hr' as (r & <- & Hr). left. exists r.
      split; [assumption | apply JobDatabaseFacts.touch_if_same].
    + rewrite Hj, map_map.
      erewrite map_ext; [exact Hids |].
      intros r. apply (JobDatabaseFacts.touch_if_same p now r).
    + rewrite Hj, Hn, Forall_map. eapply Forall_impl; [| exact Hbelow].
      intros r Hr. simpl.
      now rewrite (proj1 (JobDatabaseFacts.touch_if_same p now r)).
  - split; [split; [lia |] | split].
    + intros r' Hr'. rewrite Hj in Hr'.
      apply in_app_iff in Hr' as [Hr' | [<- | []]].
      * left. exists r'. split; [assumption | apply same_except_seen_refl].
      * right. simpl. lia.
    + rewrite Hj, map_app. simpl. apply ListFacts.NoDup_snoc; [exact Hids |].
      intros Hin. apply in_map_iff in Hin as (r & E & Hr).
      rewrite Forall_forall in Hbelow. specialize (Hbelow r Hr). lia.
    + rewrite Hj, Hn. apply Forall_app. split.
      * eapply Forall_impl; [| exact Hbelow]. simpl. intros r Hr. lia.
      * constructor; [simpl; lia | constructor].
Qed.

Lemma survivors_subset (w : world) :
  well_formed w ->
  carried_over w (with_jobs w (Sql.survivors (jobs w))) /\
  well_formed (with_jobs w (Sql.survivors (jobs w))).
Proof.
  intros Hw.
  assert (Hincl : incl (Sql.survivors (jobs w)) (jobs w)).
  { intros r Hr. now apply filter_In in Hr. }
  split; [now apply carried_over_subset |].
  apply well_formed_subset; [| assumption | assumption].
  apply NoDup_filter. destruct Hw as [Hids _].
  exact (NoDup_map_inv _ _ Hids).
Qed.

Lemma apply_carried_over (o : operation) (w : world) :
  well_formed w -> carried_over w (apply o w) /\ well_formed (apply o w).
Proof.
  intros Hw. destruct o as [now job | [|] |]; unfold apply.
  - now apply upsert_carried_over.
  - rewrite SweepFacts.dry_run_table.
    assert (E : with_jobs w (jobs w) = w) by now destruct w.
    rewrite E. split; [apply carried_over_refl | exact Hw].
  - rewrite (proj1 (SweepFacts.remove_duplicates_run (jobs w))).
    now apply survivors_subset.
  - rewrite (proj1 (SweepFacts.simple_remove_duplicates_run (jobs w))).
    now apply survivors_subset.
Qed.

Lemma run_carried_over (ops : list operation) (w : world) :
  well_formed w -> carried_over w (run ops w) /\ well_formed (run ops w).
Proof.
  revert w. induction ops as [|o ops IH]; intros w Hw; simpl.
  - split; [apply carried_over_refl | exact Hw].
  - destruct (apply_carried_over o w Hw) as [C1 W1].
    destruct (IH (apply o w) W1) as [C2 W2].
    split; [exact (carried_over_trans _ _ _ C1 C2) | exact W2].
Qed.

(** C9. [first_seen] is written when a row is created and by nothing
    after: through any sequence of upserts (whether or not requests fail)
    and sweeps, a stored row keeps its [first_seen] and every other column
    but [last_seen] and [is_active].  The update of the url match sets
    [last_seen] and [is_active] on the rows with the candidate's url and
    changes nothing else; a row the upsert creates has [first_seen] at the
    time of the call. *)
Theorem first_seen_is_kept :
  (forall (ops : list operation) (w : world) (r r' : Jobs.row),
     well_formed w ->
     In r (jobs w) -> In r' (jobs (run ops w)) -> Jobs.id r' = Jobs.id r ->
     same_except_seen r r') /\
  (forall (now : time) (job : pydict pyval) (u : string) (w : world),
     faults w = [] ->
     Dict.lookup job "url" = Some (PyStr u) ->
     url_rows (PyStr u) (jobs w) <> [] ->
     let w' := snd (insert_or_update_job now job w) in
     jobs w' =
       map (touch_if (fun r => eq_filter (Jobs.url r) (PyStr u)) now) (jobs w) /\
     Forall2 same_except_seen (jobs w) (jobs w')) /\
  (forall (now : time) (job : pydict pyval) (w : world),
     let w' := snd (insert_or_update_job now job w) in
     (exists p, jobs w' = map (touch_if p now) (jobs w)) \/
     (jobs w' = jobs w ++ [new_row now job (next_id w)] /\
      Jobs.first_seen (new_row now job (next_id w)) = now)).
Proof.
  split; [| split].
  - intros ops w r r' Hw Hr Hr' E.
    destruct (run_carried_over ops w Hw) as [[_ C] _].
    destruct Hw as [Hids Hbelow].
    destruct (C r' Hr') as [(r0 & Hr0 & S) | Hnew].
    + assert (r0 = r) as <-; [| exact S].
      apply (ListFacts.NoDup_map_injective Jobs.id (jobs w)); auto.
      destruct S as (<- & _). exact E.
    + exfalso. rewrite Forall_forall in Hbelow. specialize (Hbelow r Hr). lia.
  - intros now job u w H Hu Hne w'.
    destruct (JobDatabaseFacts.upsert_ok now job u w H Hu) as [_ Hcases].
    fold w' in Hcases.
    destruct (url_rows (PyStr u) (jobs w)) as [|r0 rs]; [contradiction |].
    destruct Hcases as (_ & _ & Hj). split; [exact Hj |].
    rewrite Hj. apply JobDatabaseFacts.touch_if_frame.
  - intros now job w w'.
    destruct (JobDatabaseFacts.upsert_one_write now job w)
      as [(p & Hj & _) | (Hj & _)].
    + left. now exists p.
    + right. now split.
Qed.

Lemma first_seen_is_kept_witness :
  let job := Sample.backend_candidate "https://www.seek.co.nz/job/10" in
  let ops := [Upsert 400 job; Sweep false; Upsert 500 job] in
  let w := Sample.world_of Sample.seeded 13 in
  let r := Sample.posting 10 "https://www.seek.co.nz/job/10" 100 in
  In (Jobs.touch 500 r) (jobs (run ops w)) /\
  same_except_seen r (Jobs.touch 500 r) /\
  Forall2 same_except_seen (jobs w) (jobs (snd (insert_or_update_job 400 job w))).
Proof.
  intros job ops w r.
  assert (Hw : well_formed w).
  { split; [repeat constructor; simpl; intuition discriminate |].
    repeat constructor. }
  assert (Hin : In r (jobs w)) by (simpl; tauto).
  assert (Hr' : In (Jobs.touch 500 r) (jobs (run ops w)))
    by (vm_compute; tauto).
  assert (Hne : url_rows (PyStr "https://www.seek.co.nz/job/10") (jobs w) <> [])
    by discriminate.
  split; [exact Hr' |]. split.
  - exact (proj1 first_seen_is_kept ops w r (Jobs.touch 500 r) Hw Hin Hr' eq_refl).
  - exact (proj2 (proj1 (proj2 first_seen_is_kept) 400%Z job
                    "https://www.seek.co.nz/job/10" w eq_refl eq_refl Hne)).
Defined.

End StoreFacts.

(** * Further facts *)

(** ** nz_locations.py: what [get_region] can answer *)

Module RegionFacts.
Import PyStr PyStrFacts NzLocations ListFacts NzLocationsFacts.

Lemma mapping_values_are_regions :
  forallb (fun kr => existsb (String.eqb (snd kr)) REGIONS)
          (Dict.items LOCATION_MAPPING) = true.
Proof. vm_compute. reflexivity. Qed.

Lemma no_keyword_in_blank :
  find (fun kr => str_in (lower (fst kr)) "") (Dict.items LOCATION_MAPPING) = None.
Proof. vm_compute. reflexivity. Qed.

Lemma keyword_region_listed (f : string * string -> bool) (k r : string) :
  find f (Dict.items LOCATION_MAPPING) = Some (k, r) -> In r REGIONS.
Proof.
  intros Hkw. apply find_some in Hkw as [Hin _].
  pose proof (proj1 (forallb_forall _ _) mapping_values_are_regions _ Hin) as Hv.
  apply existsb_exists in Hv as (x & Hx & E).
  apply String.eqb_eq in E. simpl in E. now subst.
Qed.

Lemma region_is_listed (location : pyval) :
  In (get_region location) REGIONS.
Proof.
  assert (Hdefault : In "Other NZ" REGIONS) by (vm_compute; tauto).
  destruct location as [| loc]; [exact Hdefault |].
  unfold get_region. destruct (negb (truthy (PyStr loc))); [exact Hdefault |].
  destruct (find _ (Dict.items LOCATION_MAPPING)) as [[k r] |] eqn:Hkw.
  - exact (keyword_region_listed _ k r Hkw).
  - destruct (find _ REGIONS) as [r |] eqn:Hr; [| exact Hdefault].
    now apply find_some in Hr as [Hin _].
Qed.

(** X1. The scan of the region names never decides: without a matching keyword
    the answer is the default, whatever the names contain. *)
Theorem get_region_by_keyword (loc : string) :
  get_region (PyStr loc) =
  match find (fun kr => str_in (lower (fst kr)) (lower loc))
             (Dict.items LOCATION_MAPPING) with
  | Some (_, region) => region
  | None => "Other NZ"
  end.
Proof.
  destruct loc as [|c loc]; [vm_compute; reflexivity |].
  unfold get_region.
  change (negb (truthy (PyStr (String c loc)))) with false. cbv iota.
  set (l := String c loc).
  rewrite (find_ext_in
             (fun kr => str_in (lower (fst kr)) (strip (lower l)))
             (fun kr => str_in (lower (fst kr)) (lower l))
             _ (keyword_strip l)).
  destruct (find (fun kr => str_in (lower (fst kr)) (lower l))
                 (Dict.items LOCATION_MAPPING)) as [[k r] |] eqn:Hkw;
    [reflexivity |].
  destruct (find _ REGIONS) as [r |] eqn:Hr; [| reflexivity].
  apply find_some in Hr as [Hin Hsub].
  rewrite (region_strip l r Hin) in Hsub.
  exact (unmatched_region l r Hkw Hin Hsub).
Qed.

(** X2. Whatever the location ([None], empty, any text), the answer is one of
    the filter options. *)
Theorem get_region_in_REGIONS (location : pyval) :
  In (get_region location) REGIONS.
Proof.
  assert (Hdefault : In "Other NZ" REGIONS) by (vm_compute; tauto).
  destruct location as [| loc]; [exact Hdefault |].
  unfold get_region.
  destruct (negb (truthy (PyStr loc))); [exact Hdefault |].
  destruct (find _ (Dict.items LOCATION_MAPPING)) as [[k r] |] eqn:Hkw;
    [exact (keyword_region_listed _ k r Hkw) |].
  destruct (find _ REGIONS) as [r |] eqn:Hr; [| exact Hdefault].
  apply find_some in Hr. tauto.
Qed.

(** X3. Locations that differ only in letter case and in surrounding white
    space are in the same region. *)
Theorem get_region_ignores_case_and_margins (a b : string) :
  strip (lower a) = strip (lower b) ->
  get_region (PyStr a) = get_region (PyStr b).
Proof.
  assert (Hblank : forall s, strip (lower s) = "" ->
                             get_region (PyStr s) = "Other NZ").
  { intros s E. destruct s as [|c s]; [reflexivity |].
    unfold get_region.
    change (negb (truthy (PyStr (String c s)))) with false. cbv iota.
    rewrite E. vm_compute. reflexivity. }
  intros E.
  destruct a as [|ca a], b as [|cb b].
  - reflexivity.
  - rewrite (Hblank (String cb b)); [reflexivity | now rewrite <- E].
  - rewrite (Hblank (String ca a)); [reflexivity | now rewrite E].
  - unfold get_region.
    change (negb (truthy (PyStr (String ca a)))) with false.
    change (negb (truthy (PyStr (String cb b)))) with false.
    cbv iota. now rewrite E.
Qed.

Lemma get_region_ignores_case_and_margins_witness :
  get_region (PyStr "  AUCKLAND cbd ") = get_region (PyStr "Auckland CBD").
Proof.
  apply get_region_ignores_case_and_margins. vm_compute. reflexivity.
Defined.

End RegionFacts.

(** ** seek_scraper_selenium.py: what a call of [insert_or_update_job]
    leaves in the table, whether or not requests fail *)

Module UpsertFacts.
Import JobDatabase ListFacts JobDatabaseFacts.

Lemma select_inv (p : Jobs.row -> bool) (w : world) :
  same_table w (snd (select p w)) /\
  (fst (select p w) = Ok (filter p (jobs w)) \/
   fst (select p w) = Raise APIError).
Proof.
  unfold select, bind, execute.
  destruct (faults w) as [|[] rest]; simpl; repeat split; auto.
Qed.

Lemma duplicate_found_inv (now : time) (job : pydict pyval) (dup : Jobs.row)
    (w : world) :
  match fst (duplicate_found now job dup w) with
  | Ok found =>
      found = Some false /\
      jobs (snd (duplicate_found now job dup w)) =
        map (touch_if (fun r => Jobs.id r =? Jobs.id dup)%Z now) (jobs w) /\
      next_id (snd (duplicate_found now job dup w)) = next_id w
  | Raise _ => same_table w (snd (duplicate_found now job dup w))
  end.
Proof.
  unfold duplicate_found, bind, logger, slice_of, subscript, update_seen,
    execute, ret, raise.
  simpl.
  destruct (Jobs.url dup); simpl; [| now split].
  destruct (Dict.lookup job "url") as [[| u] |]; simpl; try (now split).
  destruct (faults w) as [|[] rest]; simpl; repeat split; auto.
Qed.

(** The loop over the rows with the candidate's title, company and
    location: it runs out only when no description matches, and it writes
    only by the update of the row at which it stops. *)
Lemma check_description_inv (now : time) (job : pydict pyval) (snippet : string)
    (dups : list Jobs.row) (w : world) :
  match fst (check_description now job snippet dups w) with
  | Ok None =>
      same_table w (snd (check_description now job snippet dups w)) /\
      find (description_matches (jobs w) snippet) dups = None
  | Ok (Some b) =>
      b = false /\
      (exists p, jobs (snd (check_description now job snippet dups w)) =
                 map (touch_if p now) (jobs w)) /\
      next_id (snd (check_description now job snippet dups w)) = next_id w
  | Raise _ => same_table w (snd (check_description now job snippet dups w))
  end.
Proof.
  revert w. induction dups as [|dup rest IH]; intros w.
  - simpl. split; [apply same_table_refl | reflexivity].
  - simpl check_description. unfold bind.
    destruct (select_inv (fun r => (Jobs.id r =? Jobs.id dup)%Z) w) as [Ss Hs].
    destruct (select _ w) as [o w1]. simpl in Ss, Hs.
    destruct Ss as [Sj Sn].
    assert (Hrest :
      description_matches (jobs w) snippet dup = false ->
      match fst (check_description now job snippet rest w1) with
      | Ok None =>
          same_table w (snd (check_description now job snippet rest w1)) /\
          find (description_matches (jobs w) snippet) (dup :: rest) = None
      | Ok (Some b) =>
          b = false /\
          (exists p, jobs (snd (check_description now job snippet rest w1)) =
                     map (touch_if p now) (jobs w)) /\
          next_id (snd (check_description now job snippet rest w1)) = next_id w
      | Raise _ => same_table w (snd (check_description now job snippet rest w1))
      end).
    { intros Hno. specialize (IH w1). simpl find. rewrite Hno.
      destruct (fst (check_description now job snippet rest w1)) as [[b |] | e].
      - now rewrite <- Sj, <- Sn.
      - destruct IH as [S F]. split.
        + exact (same_table_trans _ _ _ (conj Sj Sn) S).
        + now rewrite <- Sj.
      - exact (same_table_trans _ _ _ (conj Sj Sn) IH). }
    destruct Hs as [-> | ->]; [| now split].
    unfold description_matches at 1 in Hrest.
    destruct (filter (fun r => (Jobs.id r =? Jobs.id dup)%Z) (jobs w))
      as [|d0 ds]; [now apply Hrest |].
    destruct (String.eqb _ snippet); [| now apply Hrest].
    pose proof (duplicate_found_inv now job dup w1) as D.
    destruct (fst (duplicate_found now job dup w1)) as [found | e].
    + destruct D as (-> & Dj & Dn). split; [reflexivity |]. split.
      * eexists. rewrite Dj, Sj. reflexivity.
      * now rewrite Dn.
    + exact (same_table_trans _ _ _ (conj Sj Sn) D).
Qed.

Lemma bind_Ok {A B : Type} (m : M A) (k : A -> M B) (w w1 : world) (a : A) :
  m w = (Ok a, w1) -> bind m k w = k a w1.
Proof. intros E. unfold bind. now rewrite E. Qed.

Lemma bind_Raise {A B : Type} (m : M A) (k : A -> M B) (w w1 : world) (e : exn) :
  m w = (Raise e, w1) -> bind m k w = (Raise e, w1).
Proof. intros E. unfold bind. now rewrite E. Qed.

(** The three outcomes of the body: a new row only after both lookups came
    back empty-handed, updates otherwise, and no write at all when it raises. *)
Lemma try_inv (now : time) (job : pydict pyval) (w : world) :
  match fst (insert_or_update_job_try now job w) with
  | Ok true =>
      exists u, Dict.lookup job "url" = Some u /\
                url_rows u (jobs w) = [] /\
                first_duplicate job (jobs w) = None /\
                jobs (snd (insert_or_update_job_try now job w)) =
                  jobs w ++ [new_row now job (next_id w)]
  | Ok false =>
      exists p, jobs (snd (insert_or_update_job_try now job w)) =
                map (touch_if p now) (jobs w)
  | Raise _ => same_table w (snd (insert_or_update_job_try now job w))
  end.
Proof.
  remember (insert_or_update_job_try now job w) as R eqn:HR.
  unfold insert_or_update_job_try, subscript in HR.
  destruct (Dict.lookup job "url") as [u |] eqn:Hu;
    [| subst R; simpl; apply same_table_refl].
  rewrite (bind_Ok (ret u) _ w w u eq_refl) in HR.
  destruct (select_inv (fun r => eq_filter (Jobs.url r) u) w) as [[S1j S1n] H1].
  destruct (select (fun r => eq_filter (Jobs.url r) u) w) as [o1 w1] eqn:E1.
  simpl in S1j, S1n, H1.
  destruct H1 as [-> | ->];
    [| rewrite (bind_Raise _ _ _ _ _ E1) in HR; subst R; now split].
  rewrite (bind_Ok _ _ _ _ _ E1) in HR.
  fold (url_rows u (jobs w)) in HR.
  destruct (url_rows u (jobs w)) as [|r0 rs] eqn:U.
  - destruct (select_inv
                (fun r => eq_filter (Jobs.title r) (Dict.get job "title" PyNone) &&
                          eq_filter (Jobs.company r) (Dict.get job "company" PyNone) &&
                          eq_filter (Jobs.location r) (Dict.get job "location" PyNone))
                w1) as [[S2j S2n] H2].
    destruct (select _ w1) as [o2 w2] eqn:E2 in HR, S2j, S2n, H2.
    simpl in S2j, S2n, H2.
    destruct H2 as [-> | ->].
    2:{ rewrite (bind_Raise _ _ _ _ _ E2) in HR. subst R. simpl.
        split; congruence. }
    rewrite (bind_Ok _ _ _ _ _ E2) in HR.
    fold (key_rows job (jobs w1)) in HR. fold (desc_snippet_of job) in HR.
    pose proof (check_description_inv now job (desc_snippet_of job)
                  (key_rows job (jobs w1)) w2) as C.
    destruct (check_description now job (desc_snippet_of job)
                (key_rows job (jobs w1)) w2) as [o3 w3] eqn:E3.
    simpl in C.
    destruct o3 as [[b |] | e].
    + rewrite (bind_Ok _ _ _ _ _ E3) in HR. subst R. simpl.
      destruct C as (-> & (p & Cj) & _). exists p. rewrite Cj. congruence.
    + rewrite (bind_Ok _ _ _ _ _ E3) in HR.
      destruct C as ([Cj Cn] & Cf).
      unfold insert, bind, execute, logger, ret in HR.
      destruct (faults w3) as [|[] rest]; subst R; simpl.
      * exists u. split; [reflexivity |]. split; [exact U |]. split.
        -- unfold first_duplicate. rewrite S2j, S1j in Cf. exact Cf.
        -- rewrite Cj, S2j, S1j, Cn, S2n, S1n. reflexivity.
      * split; simpl; congruence.
      * exists u. split; [reflexivity |]. split; [exact U |]. split.
        -- unfold first_duplicate. rewrite S2j, S1j in Cf. exact Cf.
        -- rewrite Cj, S2j, S1j, Cn, S2n, S1n. reflexivity.
    + rewrite (bind_Raise _ _ _ _ _ E3) in HR. subst R. simpl.
      destruct C as [Cj Cn]. split; congruence.
  - unfold update_seen, bind, execute, ret in HR.
    destruct (faults w1) as [|[] rest]; subst R; simpl.
    + eexists. now rewrite S1j.
    + now split.
    + eexists. now rewrite S1j.
Qed.

Lemma upsert_inv (now : time) (job : pydict pyval) (w : world) :
  if fst (insert_or_update_job now job w)
  then exists u, Dict.lookup job "url" = Some u /\
                 url_rows u (jobs w) = [] /\
                 first_duplicate job (jobs w) = None /\
                 jobs (snd (insert_or_update_job now job w)) =
                   jobs w ++ [new_row now job (next_id w)]
  else exists p, jobs (snd (insert_or_update_job now job w)) =
                 map (touch_if p now) (jobs w).
Proof.
  pose proof (upsert_of_try now job w) as U.
  pose proof (try_inv now job w) as T.
  destruct (fst (insert_or_update_job_try now job w)) as [[|] | e].
  - rewrite U. exact T.
  - rewrite U. exact T.
  - destruct U as (-> & [Uj _] & _). destruct T as [Tj _].
    exists (fun _ => false). rewrite Uj, Tj. symmetry.
    apply map_touch_if_none, filter_false.
Qed.

(** X4. The answer [True] counts rows: the table grows by one row when the
    method answers [True] and keeps its length when it answers [False],
    whether or not requests fail; so the caller's [new_jobs] is the number
    of rows its calls added. *)
Theorem new_jobs_counts_rows :
  (forall (now : time) (job : pydict pyval) (w : world),
     length (jobs (snd (insert_or_update_job now job w))) =
     length (jobs w) + (if fst (insert_or_update_job now job w) then 1 else 0)) /\
  (forall (page_jobs : list (time * pydict pyval)) (new_jobs : nat) (w : world),
     length (jobs (snd (save_jobs page_jobs new_jobs w))) + new_jobs =
     length (jobs w) + fst (save_jobs page_jobs new_jobs w)).
Proof.
  assert (One : forall now job w,
            length (jobs (snd (insert_or_update_job now job w))) =
            length (jobs w) +
            (if fst (insert_or_update_job now job w) then 1 else 0)).
  { intros now job w. pose proof (upsert_inv now job w) as U.
    destruct (fst (insert_or_update_job now job w)).
    - destruct U as (u & _ & _ & _ & ->). rewrite length_app. reflexivity.
    - destruct U as (p & ->). rewrite length_map. lia. }
  split; [exact One |].
  induction page_jobs as [|[now job] rest IH]; intros n w; simpl; [lia |].
  specialize (One now job w).
  destruct (insert_or_update_job now job w) as [[|] w1]; simpl in One.
  - specialize (IH (S n) w1). lia.
  - specialize (IH n w1). lia.
Qed.

Lemma in_stored_urls (table : list Jobs.row) (u : string) :
  In u (Views.stored_urls table) <-> exists r, In r table /\ Jobs.url r = Some u.
Proof.
  unfold Views.stored_urls. rewrite in_flat_map.
  split; intros (r & Hr & H); exists r; (split; [assumption |]).
  - destruct (Jobs.url r) as [x |]; [| contradiction].
    destruct H as [-> | []]. reflexivity.
  - rewrite H. now left.
Qed.

Lemma stored_urls_touch (p : Jobs.row -> bool) (now : time) (table : list Jobs.row) :
  Views.stored_urls (map (touch_if p now) table) = Views.stored_urls table.
Proof.
  unfold Views.stored_urls. induction table as [|r table IH]; [reflexivity |].
  simpl. now rewrite IH, touch_if_url.
Qed.

Lemma url_rows_nil_not_stored (u : string) (table : list Jobs.row) :
  url_rows (PyStr u) table = [] -> ~ In u (Views.stored_urls table).
Proof.
  intros E Hin. apply in_stored_urls in Hin as (r & Hr & Hu).
  assert (Hin : In r (url_rows (PyStr u) table)).
  { apply filter_In. split; [assumption | now apply eq_filter_url]. }
  now rewrite E in Hin.
Qed.

(** X5. The method never stores a url a second time: a table in which no url
    occurs twice stays so, for every candidate and whether or not requests
    fail. *)
Theorem upsert_keeps_urls_distinct (now : time) (job : pydict pyval) (w : world) :
  Views.urls_distinct (jobs w) ->
  Views.urls_distinct (jobs (snd (insert_or_update_job now job w))).
Proof.
  unfold Views.urls_distinct. intros Hnd.
  pose proof (upsert_inv now job w) as U.
  destruct (fst (insert_or_update_job now job w)).
  - destruct U as (u & Hu & Hno & _ & ->).
    unfold Views.stored_urls. rewrite flat_map_app. simpl.
    unfold Dict.get. rewrite Hu, app_nil_r.
    destruct u as [| s]; simpl; [now rewrite app_nil_r |].
    apply NoDup_snoc; [exact Hnd | now apply url_rows_nil_not_stored].
  - destruct U as (p & ->). now rewrite stored_urls_touch.
Qed.

Lemma upsert_keeps_urls_distinct_witness :
  Views.urls_distinct
    (jobs (snd (insert_or_update_job 50
                  (Sample.backend_candidate "https://www.seek.co.nz/job/2001")
                  (Sample.world_of [Sample.backend_a; Sample.cook] 4)))).
Proof.
  apply upsert_keeps_urls_distinct.
  unfold Views.urls_distinct. simpl.
  repeat constructor; simpl; intuition discriminate.
Defined.

(** X6. A row is inserted only for a job that is not stored under either rule:
    when the method answers [True], no row of the table had the candidate's
    url, and none had its title, company, location and first 200 characters
    of description. *)
Theorem upsert_inserts_only_unknown_jobs (now : time) (job : pydict pyval)
    (w : world) :
  NoDup (map Jobs.id (jobs w)) ->
  fst (insert_or_update_job now job w) = true ->
  forall r, In r (jobs w) ->
    same_identity job r = false /\
    (forall u, Dict.lookup job "url" = Some (PyStr u) -> Jobs.url r <> Some u).
Proof.
  intros Hnd Hres r Hr.
  pose proof (upsert_inv now job w) as U. rewrite Hres in U.
  destruct U as (u & Hu & Hno & Hdup & _). split.
  - rewrite (first_duplicate_find job (jobs w) Hnd) in Hdup.
    exact (find_none _ _ Hdup r Hr).
  - intros s Hs E. rewrite Hs in Hu. injection Hu as <-.
    apply (url_rows_nil_not_stored s (jobs w) Hno).
    apply in_stored_urls. now exists r.
Qed.

Lemma upsert_inserts_only_unknown_jobs_witness :
  same_identity (Sample.backend_candidate "https://www.seek.co.nz/job/1002")
                Sample.cook = false.
Proof.
  assert (Hnd : NoDup (map Jobs.id [Sample.cook])).
  { repeat constructor; simpl; intuition discriminate. }
  exact (proj1 (upsert_inserts_only_unknown_jobs 50
                  (Sample.backend_candidate "https://www.seek.co.nz/job/1002")
                  (Sample.world_of [Sample.cook] 4) Hnd eq_refl
                  Sample.cook (or_introl eq_refl))).
Defined.

End UpsertFacts.

(** ** seek_scraper_selenium.py: the loop over the jobs of a page *)

Module ScraperFacts.
Import JobDatabase ListFacts JobDatabaseFacts UpsertFacts SeekSeleniumScraper.

Section Page.
Variable scrape_job_details : string -> pyval.

Lemma turn_none (now : time) (w w' : world) :
  same_table w w' -> turn now w w' false.
Proof.
  intros [Sj Sn]. apply (turn_seen now w w' (fun _ => false)); [| exact Sn].
  rewrite Sj. symmetry. apply map_touch_if_none, filter_false.
Qed.

Lemma update_seen_inv (now : time) (p : Jobs.row -> bool) {A : Type} (a : A)
    (w : world) :
  match fst ((update_seen now p ;;; ret a) w) with
  | Ok a' => a' = a /\
             jobs (snd ((update_seen now p ;;; ret a) w)) =
               map (touch_if p now) (jobs w) /\
             next_id (snd ((update_seen now p ;;; ret a) w)) = next_id w
  | Raise e => e = APIError /\ same_table w (snd ((update_seen now p ;;; ret a) w))
  end.
Proof.
  unfold update_seen, bind, execute, ret.
  destruct (faults w) as [|[] rest]; simpl; repeat split.
Qed.

Lemma update_description_inv (now : time) (full : string) (i : Z) {A : Type}
    (a : A) (w : world) :
  match fst ((update_description now full i ;;; ret a) w) with
  | Ok a' => a' = a /\
             jobs (snd ((update_description now full i ;;; ret a) w)) =
               map (fun r => if (Jobs.id r =? i)%Z then backfill now full r else r)
                   (jobs w) /\
             next_id (snd ((update_description now full i ;;; ret a) w)) = next_id w
  | Raise e => e = APIError /\
               same_table w (snd ((update_description now full i ;;; ret a) w))
  end.
Proof.
  unfold update_description, bind, execute, ret.
  destruct (faults w) as [|[] rest]; simpl; repeat split.
Qed.

Lemma turn_after (now : time) (w w1 w2 : world) (b : bool) :
  same_table w w1 -> turn now w1 w2 b -> turn now w w2 b.
Proof.
  intros [Sj Sn] T. destruct T as [job' Tj Tn | p Tj Tn | ex full Ti Tb Tl Tj Tn];
    rewrite Sj, ?Sn in *.
  - now apply (turn_new now w w2 job').
  - now apply (turn_seen now w w2 p).
  - now apply (turn_backfill now w w2 ex full).
Qed.

(** One turn of the loop: a failed request of the loop itself is the only
    exception, and it leaves the table as it was. *)
Lemma save_job_inv (now : time) (job : pydict pyval) (w : world) :
  match fst (save_job scrape_job_details now job w) with
  | Ok saved => turn now w (snd (save_job scrape_job_details now job w)) (snd saved)
  | Raise e => e = APIError /\
               same_table w (snd (save_job scrape_job_details now job w))
  end.
Proof.
  remember (save_job scrape_job_details now job w) as R eqn:HR.
  unfold save_job in HR.
  destruct (Dict.get job "url" PyNone) as [| job_url];
    [subst R; simpl; apply turn_none, same_table_refl |].
  destruct (String.eqb job_url "");
    [subst R; simpl; apply turn_none, same_table_refl |].
  destruct (select_inv (fun r => eq_filter (Jobs.url r) (PyStr job_url)) w)
    as [S1 H1].
  destruct (select (fun r => eq_filter (Jobs.url r) (PyStr job_url)) w)
    as [o1 w1] eqn:E1.
  simpl in S1, H1.
  destruct H1 as [-> | ->];
    [| rewrite (bind_Raise _ _ _ _ _ E1) in HR; subst R; simpl; now split].
  rewrite (bind_Ok _ _ _ _ _ E1) in HR.
  assert (Hseen : forall p,
            R = (update_seen now p ;;; ret (job, false)) w1 ->
            match fst R with
            | Ok saved => turn now w (snd R) (snd saved)
            | Raise e => e = APIError /\ same_table w (snd R)
            end).
  { intros p ->. pose proof (update_seen_inv now p (job, false) w1) as U.
    destruct (fst ((update_seen now p ;;; ret (job, false)) w1)) as [saved | e].
    - destruct U as (-> & Uj & Un). simpl.
      apply (turn_after now w w1 _ false S1). now apply (turn_seen now _ _ p).
    - destruct U as [-> U]. split; [reflexivity |].
      exact (same_table_trans _ _ _ S1 U). }
  destruct (filter (fun r => eq_filter (Jobs.url r) (PyStr job_url)) (jobs w))
    as [|existing_job others] eqn:F.
  - cbv zeta in HR. unfold call_insert_or_update_job, bind, ret in HR.
    set (job' := if truthy (scrape_job_details job_url)
                 then Dict.set job "description" (scrape_job_details job_url)
                 else job) in HR.
    pose proof (upsert_inv now job' w1) as U.
    pose proof (upsert_one_write now job' w1) as O.
    destruct (insert_or_update_job now job' w1) as [is_new w2].
    subst R. simpl in *.
    apply (turn_after now w w1 w2 is_new S1).
    destruct is_new.
    + destruct U as (u & _ & _ & _ & Uj).
      destruct O as [(p & Oj & On) | (Oj & On)].
      * exfalso. rewrite Uj in Oj.
        apply (f_equal (@length Jobs.row)) in Oj.
        rewrite length_app, length_map in Oj. simpl in Oj. lia.
      * now apply (turn_new now w1 w2 job').
    + destruct U as (p & Uj).
      destruct O as [(q & Oj & On) | (Oj & On)].
      * now apply (turn_seen now w1 w2 p).
      * exfalso. rewrite Uj in Oj.
        apply (f_equal (@length Jobs.row)) in Oj.
        rewrite length_app, length_map in Oj. simpl in Oj. lia.
  - assert (Hin : In existing_job (jobs w)).
    { assert (H : In existing_job (existing_job :: others)) by now left.
      rewrite <- F in H. now apply filter_In in H. }
    cbv zeta in HR.
    destruct (needs_backfill (Jobs.or_empty (Jobs.description existing_job)))
      eqn:Hb; [| now apply (Hseen _ HR)].
    destruct (scrape_job_details job_url) as [| full]; [now apply (Hseen _ HR) |].
    destruct (negb (String.eqb full "")); simpl andb in HR;
      [| now apply (Hseen _ HR)].
    destruct (Nat.ltb_spec
                (String.length (Jobs.or_empty (Jobs.description existing_job)))
                (String.length full)) as [Hlt | _]; [| now apply (Hseen _ HR)].
    pose proof (update_description_inv now full (Jobs.id existing_job)
                  (job, false) w1) as U.
    assert (HR' : R = (update_description now full (Jobs.id existing_job) ;;;
                       ret (job, false)) w1) by exact HR.
    rewrite <- HR' in U.
    destruct (fst R) as [saved | e].
    + destruct U as (-> & Uj & Un). simpl.
      apply (turn_after now w w1 _ false S1).
      apply (turn_backfill now _ _ existing_job full); auto.
      now rewrite (proj1 S1).
    + destruct U as [-> U]. split; [reflexivity |].
      exact (same_table_trans _ _ _ S1 U).
Qed.

Lemma grown_refl (r : Jobs.row) : grown r r.
Proof. unfold grown. tauto. Qed.

Lemma grown_trans (a b c : Jobs.row) : grown a b -> grown b c -> grown a c.
Proof.
  unfold grown. intros H1 H2.
  destruct H1 as (A1 & A2 & A3 & A4 & A5 & A6 & A7 & A8 & A9 & A10 & A11 & A12).
  destruct H2 as (B1 & B2 & B3 & B4 & B5 & B6 & B7 & B8 & B9 & B10 & B11 & B12).
  repeat (split; [congruence |]).
  destruct A12 as [E | [N L]], B12 as [E' | [N' L']].
  - left. congruence.
  - right. rewrite <- E. now split.
  - right. rewrite E'. now split.
  - right. split; [assumption | lia].
Qed.

Lemma grown_touch_if (p : Jobs.row -> bool) (now : time) (r : Jobs.row) :
  grown r (touch_if p now r).
Proof. unfold grown, touch_if. destruct (p r); simpl; tauto. Qed.

Lemma grown_over_refl (w : world) : grown_over w w.
Proof.
  split; [lia |]. split.
  - intros r Hr. exists r. split; [assumption | apply grown_refl].
  - intros r Hr. left. exists r. split; [assumption | apply grown_refl].
Qed.

Lemma grown_over_trans (w w1 w2 : world) :
  grown_over w w1 -> grown_over w1 w2 -> grown_over w w2.
Proof.
  intros (N1 & F1 & B1) (N2 & F2 & B2). split; [lia |]. split.
  - intros r Hr. destruct (F1 r Hr) as (r1 & Hr1 & G1).
    destruct (F2 r1 Hr1) as (r2 & Hr2 & G2).
    exists r2. split; [assumption | exact (grown_trans _ _ _ G1 G2)].
  - intros r2 Hr2. destruct (B2 r2 Hr2) as [(r1 & Hr1 & G2) | Hnew]; [| right; lia].
    destruct (B1 r1 Hr1) as [(r & Hr & G1) | Hnew].
    + left. exists r. split; [assumption | exact (grown_trans _ _ _ G1 G2)].
    + right. destruct G2 as (-> & _). exact Hnew.
Qed.

Lemma grown_over_same_table (w w' : world) : same_table w w' -> grown_over w w'.
Proof.
  intros [Sj Sn]. split; [lia |]. rewrite Sj. split.
  - intros r Hr. exists r. split; [assumption | apply grown_refl].
  - intros r Hr. left. exists r. split; [assumption | apply grown_refl].
Qed.

Lemma well_formed_same_table (w w' : world) :
  same_table w w' -> well_formed w -> well_formed w'.
Proof. unfold well_formed. intros [-> ->]. tauto. Qed.

Lemma grown_over_map (w w' : world) (f : Jobs.row -> Jobs.row) :
  (forall r, In r (jobs w) -> grown r (f r)) ->
  jobs w' = map f (jobs w) -> next_id w' = next_id w ->
  well_formed w ->
  grown_over w w' /\ well_formed w'.
Proof.
  intros Hf Hj Hn [Hids Hbelow].
  assert (Hid : map Jobs.id (jobs w') = map Jobs.id (jobs w)).
  { rewrite Hj, map_map. apply map_ext_in. intros r Hr.
    apply (proj1 (Hf r Hr)). }
  split; [split; [lia | split] | split].
  - intros r Hr. exists (f r). split; [| now apply Hf].
    rewrite Hj. now apply in_map.
  - intros r' Hr'. rewrite Hj in Hr'. apply in_map_iff in Hr' as (r & <- & Hr).
    left. exists r. split; [assumption | now apply Hf].
  - now rewrite Hid.
  - rewrite Hn, Hj, Forall_map. rewrite Forall_forall in *.
    intros r Hr. rewrite (proj1 (Hf r Hr)). now apply Hbelow.
Qed.

(** A turn of the loop keeps every row, changes at most what a backfill
    may change, and adds one row exactly when it counts a new job. *)
Lemma turn_grown_over (now : time) (w w' : world) (b : bool) :
  well_formed w -> turn now w w' b ->
  grown_over w w' /\ well_formed w'.
Proof.
  intros Hw T. pose proof Hw as [Hids Hbelow].
  destruct T as [job' Tj Tn | p Tj Tn | ex full Ti Tb Tl Tj Tn].
  - split; [split; [lia | split] | split].
    + intros r Hr. exists r. rewrite Tj.
      split; [apply in_app_iff; now left | apply grown_refl].
    + intros r' Hr'. rewrite Tj in Hr'.
      apply in_app_iff in Hr' as [Hr' | [<- | []]].
      * left. exists r'. split; [assumption | apply grown_refl].
      * right. simpl. lia.
    + rewrite Tj, map_app. simpl. apply NoDup_snoc; [exact Hids |].
      intros Hin. apply in_map_iff in Hin as (r & E & Hr).
      rewrite Forall_forall in Hbelow. specialize (Hbelow r Hr). lia.
    + rewrite Tj, Tn. apply Forall_app. split.
      * eapply Forall_impl; [| exact Hbelow]. simpl. intros r Hr. lia.
      * constructor; [simpl; lia | constructor].
  - apply (grown_over_map w w' (touch_if p now)); auto.
    intros r _. apply grown_touch_if.
  - apply (grown_over_map w w'
             (fun r => if (Jobs.id r =? Jobs.id ex)%Z
                       then backfill now full r else r)); auto.
    intros r Hr. destruct (Z.eqb_spec (Jobs.id r) (Jobs.id ex)) as [E |];
      [| apply grown_refl].
    assert (r = ex) as -> by
      (apply (NoDup_map_injective Jobs.id (jobs w)); auto).
    unfold grown. simpl. repeat (split; [reflexivity |]).
    right. now split.
Qed.

Lemma turn_length (now : time) (w w' : world) (b : bool) :
  turn now w w' b ->
  length (jobs w') = length (jobs w) + (if b then 1 else 0).
Proof.
  intros [job' Tj Tn | p Tj Tn | ex full Ti Tb Tl Tj Tn]; rewrite Tj.
  - rewrite length_app. reflexivity.
  - rewrite length_map. lia.
  - rewrite length_map. lia.
Qed.

Lemma save_page_inv (page_jobs : list (time * pydict pyval)) (new_jobs : nat)
    (w : world) :
  (well_formed w ->
   grown_over w (snd (save_page scrape_job_details page_jobs new_jobs w)) /\
   well_formed (snd (save_page scrape_job_details page_jobs new_jobs w))) /\
  match fst (save_page scrape_job_details page_jobs new_jobs w) with
  | Ok done =>
      length (fst done) = length page_jobs /\
      length (jobs (snd (save_page scrape_job_details page_jobs new_jobs w)))
        + new_jobs = length (jobs w) + snd done
  | Raise e => e = APIError
  end.
Proof.
  revert new_jobs w.
  induction page_jobs as [|[now job] rest IH]; intros n w.
  - simpl. split; [intros Hw; split; [apply grown_over_refl | exact Hw] |].
    split; [reflexivity | lia].
  - remember (save_page scrape_job_details ((now, job) :: rest) n w) as R eqn:HR.
    simpl save_page in HR.
    pose proof (save_job_inv now job w) as J.
    destruct (save_job scrape_job_details now job w) as [[[job' is_new] | e] w1]
      eqn:E1.
    + simpl in J. rewrite (bind_Ok _ _ _ _ _ E1) in HR. cbn [fst snd] in HR.
      specialize (IH (if is_new then S n else n) w1).
      pose proof (turn_length now w w1 is_new J) as L.
      destruct (save_page scrape_job_details rest (if is_new then S n else n) w1)
        as [[[jobs' n'] | e] w2] eqn:E2.
      * rewrite (bind_Ok _ _ _ _ _ E2) in HR. subst R. simpl in IH |- *.
        destruct IH as [IHw [IHl IHn]]. split.
        -- intros Hw. destruct (turn_grown_over now w w1 is_new Hw J) as [G1 W1].
           destruct (IHw W1) as [G2 W2].
           split; [exact (grown_over_trans _ _ _ G1 G2) | exact W2].
        -- split; [now rewrite IHl |]. destruct is_new; lia.
      * rewrite (bind_Raise _ _ _ _ _ E2) in HR. subst R. simpl in IH |- *.
        destruct IH as [IHw IHe]. split; [| exact IHe].
        intros Hw. destruct (turn_grown_over now w w1 is_new Hw J) as [G1 W1].
        destruct (IHw W1) as [G2 W2].
        split; [exact (grown_over_trans _ _ _ G1 G2) | exact W2].
    + rewrite (bind_Raise _ _ _ _ _ E1) in HR. subst R.
      simpl in J |- *. destruct J as [-> S]. split; [| reflexivity].
      intros Hw. split; [now apply grown_over_same_table |].
      exact (well_formed_same_table _ _ S Hw).
Qed.

(** X7. The loop over a page never loses a row and never shortens a
    description: whatever the job pages give and whether or not requests
    fail, every row of the table is still there afterwards, with the same
    columns but [last_seen], [is_active] and possibly [description]; and a
    description changes only when the stored one needed a backfill (shorter
    than 500 characters, ending in an ellipsis, or the placeholder), to a
    longer one. *)
Theorem page_only_grows_descriptions
    (page_jobs : list (time * pydict pyval)) (new_jobs : nat) (w : world) :
  well_formed w ->
  let w' := snd (save_page scrape_job_details page_jobs new_jobs w) in
  (forall r, In r (jobs w) -> exists r', In r' (jobs w') /\ grown r r') /\
  (forall r r', In r (jobs w) -> In r' (jobs w') -> Jobs.id r' = Jobs.id r ->
                grown r r').
Proof.
  intros Hw w'.
  destruct (proj1 (save_page_inv page_jobs new_jobs w) Hw) as [(_ & F & B) _].
  fold w' in F, B. split; [exact F |].
  intros r r' Hr Hr' E. destruct Hw as [Hids Hbelow].
  destruct (B r' Hr') as [(r0 & Hr0 & G) | Hnew].
  - assert (r0 = r) as <-; [| exact G].
    apply (NoDup_map_injective Jobs.id (jobs w)); auto.
    destruct G as (<- & _). exact E.
  - exfalso. rewrite Forall_forall in Hbelow. specialize (Hbelow r Hr). lia.
Qed.

(** X8. The count of new jobs of a page is the number of rows the page added,
    and the loop hands back as many jobs as it was given. *)
Theorem page_counts_new_rows
    (page_jobs : list (time * pydict pyval)) (new_jobs : nat) (w : world)
    (done : list (pydict pyval) * nat) :
  fst (save_page scrape_job_details page_jobs new_jobs w) = Ok done ->
  length (fst done) = length page_jobs /\
  length (jobs (snd (save_page scrape_job_details page_jobs new_jobs w)))
    + new_jobs = length (jobs w) + snd done.
Proof.
  intros E. pose proof (proj2 (save_page_inv page_jobs new_jobs w)) as H.
  now rewrite E in H.
Qed.

(** X9. The loop's own requests are not guarded.  The only exception that
    leaves the loop is a failed request; and when the lookup for a job with
    a url fails, the loop ends there: the rest of the page is not looked at,
    whatever it holds, and the table is as it was. *)
Theorem page_stops_at_failed_lookup :
  (forall (page_jobs : list (time * pydict pyval)) (new_jobs : nat) (w : world)
          (e : exn),
     fst (save_page scrape_job_details page_jobs new_jobs w) = Raise e ->
     e = APIError) /\
  (forall (now : time) (job : pydict pyval) (job_url : string)
          (rest : list (time * pydict pyval)) (new_jobs : nat) (w : world)
          (later : list bool),
     Dict.get job "url" PyNone = PyStr job_url ->
     job_url <> "" ->
     faults w = true :: later ->
     save_page scrape_job_details ((now, job) :: rest) new_jobs w =
     (Raise APIError, Sample.failing later w)).
Proof.
  split.
  - intros page_jobs n w e E.
    pose proof (proj2 (save_page_inv page_jobs n w)) as H. now rewrite E in H.
  - intros now job job_url rest n w later Hu Hne Hf.
    simpl save_page. unfold save_job. rewrite Hu.
    apply String.eqb_neq in Hne. rewrite Hne.
    unfold bind, select, bind, execute. now rewrite Hf.
Qed.

End Page.

Lemma page_only_grows_descriptions_witness :
  let details := fun _ : string => PyStr "Busy cafe seeking a cook for weekends" in
  let job := [("url", PyStr "https://www.seek.co.nz/job/2001");
              ("title", PyStr "Cook")] in
  let w := Sample.world_of [Sample.cook] 4 in
  let w' := snd (save_page details [(50%Z, job)] 0 w) in
  In (backfill 50 "Busy cafe seeking a cook for weekends" Sample.cook) (jobs w') /\
  grown Sample.cook (backfill 50 "Busy cafe seeking a cook for weekends" Sample.cook).
Proof.
  intros details job w w'.
  assert (Hw : well_formed w).
  { split; repeat constructor; simpl; intuition discriminate. }
  assert (Hin : In (backfill 50 "Busy cafe seeking a cook for weekends" Sample.cook)
                   (jobs w')) by (vm_compute; tauto).
  split; [exact Hin |].
  exact (proj2 (page_only_grows_descriptions details [(50%Z, job)] 0 w Hw)
           Sample.cook _ (or_introl eq_refl) Hin eq_refl).
Defined.

Lemma page_counts_new_rows_witness :
  let details := fun _ : string => PyNone in
  let page := [(50%Z, Sample.backend_candidate "https://www.seek.co.nz/job/1001");
               (51%Z, Sample.unlinked_candidate);
               (52%Z, Sample.backend_candidate "https://www.seek.co.nz/job/1002")] in
  let w := Sample.world_of [Sample.cook] 4 in
  length (jobs (snd (save_page details page 0 w))) + 0 = length (jobs w) + 1.
Proof.
  intros details page w.
  exact (proj2 (page_counts_new_rows details page 0 w
                  ([Sample.backend_candidate "https://www.seek.co.nz/job/1001";
                    Sample.unlinked_candidate;
                    Sample.backend_candidate "https://www.seek.co.nz/job/1002"], 1)
                  eq_refl)).
Defined.

Lemma page_stops_at_failed_lookup_witness :
  let details := fun _ : string => PyNone in
  let page := [(50%Z, Sample.backend_candidate "https://www.seek.co.nz/job/1001");
               (51%Z, Sample.backend_candidate "https://www.seek.co.nz/job/1002")] in
  let w := Sample.failing [true] (Sample.world_of [Sample.cook] 4) in
  jobs (snd (save_page details page 0 w)) = [Sample.cook].
Proof.
  intros details page w.
  assert (Hne : "https://www.seek.co.nz/job/1001" <> "") by discriminate.
  exact (f_equal (fun out => jobs (snd out))
           (proj2 (page_stops_at_failed_lookup details) 50%Z
              (Sample.backend_candidate "https://www.seek.co.nz/job/1001")
              "https://www.seek.co.nz/job/1001"
              [(51%Z, Sample.backend_candidate "https://www.seek.co.nz/job/1002")]
              0 w [] eq_refl Hne eq_refl)).
Defined.

End ScraperFacts.

(** ** find_true_duplicates.py: the finder and the confirmation *)

Module FindDuplicatesFacts.
Import JobDatabase ListFacts SqlFacts SweepFacts FindDuplicates.

Lemma insert_by_count_perm (g : duplicate) (l : list duplicate) :
  Permutation (g :: l) (insert_by_count g l).
Proof.
  induction l as [|x l IH]; simpl; [reflexivity |].
  destruct (count x <=? count g)%nat; [reflexivity |].
  rewrite perm_swap. now constructor.
Qed.

Lemma order_by_count_perm (l : list duplicate) :
  Permutation l (order_by_count l).
Proof.
  induction l as [|x l IH]; simpl; [constructor |].
  rewrite <- insert_by_count_perm. now constructor.
Qed.

Lemma list_sum_perm (l l' : list nat) :
  Permutation l l' -> list_sum l = list_sum l'.
Proof. induction 1; simpl; lia. Qed.

Lemma duplicate_of_fields (table : list Jobs.row) (k : Sql.key) :
  count (duplicate_of table k) = length (Sql.members k table) /\
  ids (duplicate_of table k) = map Jobs.id (Sql.members k table) /\
  desc_snippet (duplicate_of table k) = snd k.
Proof. destruct k as [[[t c] l] d]. now repeat split. Qed.

Lemma in_query (table : list Jobs.row) (g : duplicate) :
  In g (query table) <->
  exists k, In k (Sql.keys_of table) /\
            (1 < length (Sql.members k table))%nat /\
            g = duplicate_of table k.
Proof.
  unfold query.
  split.
  - intros H. apply (Permutation_in _ (Permutation_sym (order_by_count_perm _))) in H.
    apply filter_In in H as [H Hc]. apply in_map_iff in H as (k & <- & Hk).
    exists k. repeat split; auto.
    apply Nat.ltb_lt in Hc. now rewrite (proj1 (duplicate_of_fields table k)) in Hc.
  - intros (k & Hk & Hc & ->).
    apply (Permutation_in _ (order_by_count_perm _)).
    apply filter_In. split; [now apply in_map |].
    apply Nat.ltb_lt. now rewrite (proj1 (duplicate_of_fields table k)).
Qed.

(** The finder and the sweep see the same groups. *)
Lemma groups_agree (table : list Jobs.row) (keys : list Sql.key) :
  let found := filter (fun g => (1 <? count g)%nat)
                      (map (duplicate_of table) keys) in
  let swept := filter (fun g => (1 <? Sql.count g)%nat)
                      (map (Sql.group_of table) keys) in
  length found = length swept /\
  list_sum (map (fun row => count row - 1) found) =
  length (flat_map (fun g => tl (Sql.ids g)) swept).
Proof.
  induction keys as [|k keys [IH1 IH2]]; [now split |].
  simpl.
  destruct (duplicate_of_fields table k) as (Hc & _).
  destruct (ids_group_of table k) as (Hi & Hc').
  rewrite Hc, Hc'.
  destruct (1 <? length (Sql.members k table))%nat; [| now split].
  simpl. rewrite length_app, IH1, IH2, Hc, Hi.
  split; [reflexivity |]. f_equal.
  rewrite map_tl, length_map.
  rewrite <- (length_order_by_first_seen (Sql.members k table)).
  destruct (Sql.order_by_first_seen (Sql.members k table)); simpl; lia.
Qed.

Lemma query_agrees (table : list Jobs.row) :
  length (query table) = length (Sql.duplicate_groups table) /\
  list_sum (map (fun row => count row - 1) (query table)) =
  length (Sql.removal_ids table).
Proof.
  destruct (groups_agree table (Sql.keys_of table)) as [H1 H2].
  cbv zeta in H1, H2. unfold query, Sql.removal_ids, Sql.duplicate_groups.
  split.
  - rewrite <- H1. symmetry. apply Permutation_length, order_by_count_perm.
  - rewrite <- H2. symmetry. apply list_sum_perm, Permutation_map,
      order_by_count_perm.
Qed.

Lemma show_groups_ok (table : list Jobs.row) (i : nat) (rows : list duplicate)
    (groups : list found) :
  snd (show_groups table i rows) = Ok groups -> groups = map found_of rows.
Proof.
  revert i groups. induction rows as [|row rest IH]; intros i groups; simpl.
  - intros E. now injection E as <-.
  - destruct (show_group table i row) as [printed [|]]; [discriminate |].
    specialize (IH (S i)).
    destruct (show_groups table (S i) rest) as [printed' [gs | e]];
      simpl; [| discriminate].
    intros E. injection E as <-. f_equal. now apply IH.
Qed.

Lemma find_duplicates_ok (table : list Jobs.row) (groups : list found) :
  snd (find_duplicates table) = Ok groups ->
  groups = map found_of (query table).
Proof.
  unfold find_duplicates.
  destruct (query table) as [|row rest] eqn:Q.
  - simpl. intros E. now injection E as <-.
  - pose proof (show_groups_ok table 1 (row :: rest) groups) as H.
    destruct (show_groups table 1 (row :: rest)) as [printed result].
    simpl in *. exact H.
Qed.

Lemma find_by_id (table : list Jobs.row) (r : Jobs.row) :
  NoDup (map Jobs.id table) -> In r table ->
  find (fun x => Jobs.id x =? Jobs.id r)%Z table = Some r.
Proof.
  induction table as [|x table IH]; intros Hnd Hin; [contradiction |].
  simpl in Hnd. inversion Hnd as [|? ? Hx Hnd']; subst. simpl.
  destruct (Z.eqb_spec (Jobs.id x) (Jobs.id r)) as [E | Hne].
  - f_equal. destruct Hin as [-> | Hin]; [reflexivity |].
    exfalso. apply Hx. rewrite E. now apply in_map.
  - destruct Hin as [-> | Hin]; [congruence | now apply IH].
Qed.

Lemma show_job_raised (table : list Jobs.row) (r : Jobs.row) :
  NoDup (map Jobs.id table) -> In r table ->
  snd (show_job table (Jobs.id r)) = true <->
  Jobs.date_listed r = None \/ Jobs.url r = None.
Proof.
  intros Hnd Hin. unfold show_job. rewrite (find_by_id table r Hnd Hin).
  destruct (Jobs.date_listed r), (Jobs.url r); simpl;
    split; intros H; try reflexivity; try discriminate; auto;
    destruct H; discriminate.
Qed.

Lemma show_jobs_raised (table : list Jobs.row) (l : list Z) :
  snd (show_jobs table l) = true <->
  exists i, In i l /\ snd (show_job table i) = true.
Proof.
  induction l as [|i l IH]; simpl.
  - split; [discriminate | intros (i & [] & _)].
  - destruct (show_job table i) as [printed raised] eqn:E.
    destruct raised; simpl.
    + split; [intros _ | reflexivity]. exists i. rewrite E. auto.
    + destruct (show_jobs table l) as [printed' raised']. simpl in *.
      rewrite IH. split.
      * intros (j & Hj & Hr). exists j. auto.
      * intros (j & [<- | Hj] & Hr); [rewrite E in Hr; discriminate |].
        now exists j.
Qed.

Lemma show_group_raised (table : list Jobs.row) (i : nat) (row : duplicate) :
  snd (show_group table i row) = true <->
  desc_snippet row = None \/ snd (show_jobs table (ids row)) = true.
Proof.
  unfold show_group. destruct (desc_snippet row) as [snippet |]; simpl.
  - destruct (show_jobs table (ids row)) as [printed raised]. simpl.
    split; [auto | intros [H | H]; [discriminate | exact H]].
  - split; auto.
Qed.

Lemma show_groups_raises (table : list Jobs.row) (i : nat) (rows : list duplicate) :
  match snd (show_groups table i rows) with
  | Ok _ => forall row, In row rows ->
                        desc_snippet row <> None /\
                        snd (show_jobs table (ids row)) = false
  | Raise e => e = TypeError /\
               exists row, In row rows /\
                           (desc_snippet row = None \/
                            snd (show_jobs table (ids row)) = true)
  end.
Proof.
  revert i. induction rows as [|row rest IH]; intros i; simpl.
  - intros row [].
  - pose proof (show_group_raised table i row) as G.
    destruct (show_group table i row) as [printed [|]]; simpl in *.
    + split; [reflexivity |]. exists row. split; [now left | now apply G].
    + specialize (IH (S i)).
      destruct (show_groups table (S i) rest) as [printed' [gs | e]]; simpl in *.
      * intros x [E | Hx]; [subst x | now apply IH].
        split.
        -- intros E. assert (false = true) by (apply G; now left). discriminate.
        -- destruct (snd (show_jobs table (ids row))) eqn:E; [| reflexivity].
           assert (false = true) by (apply G; now right). discriminate.
      * destruct IH as [-> (x & Hx & Hb)]. split; [reflexivity |].
        exists x. split; [now right | exact Hb].
Qed.

Lemma find_duplicates_raises (table : list Jobs.row) :
  match snd (find_duplicates table) with
  | Ok _ => forall row, In row (query table) ->
                        desc_snippet row <> None /\
                        snd (show_jobs table (ids row)) = false
  | Raise e => e = TypeError /\
               exists row, In row (query table) /\
                           (desc_snippet row = None \/
                            snd (show_jobs table (ids row)) = true)
  end.
Proof.
  unfold find_duplicates.
  destruct (query table) as [|row rest] eqn:Q; [intros row [] |].
  pose proof (show_groups_raises table 1 (row :: rest)) as H.
  destruct (show_groups table 1 (row :: rest)) as [printed result].
  exact H.
Qed.

(** The rows of a duplicate group that the finder stumbles over. *)
Lemma bad_group_iff_unprintable (table : list Jobs.row) :
  NoDup (map Jobs.id table) ->
  (exists row, In row (query table) /\
               (desc_snippet row = None \/
                snd (show_jobs table (ids row)) = true)) <->
  exists r, unprintable table r.
Proof.
  intros Hnd. split.
  - intros (row & Hrow & Hbad).
    apply in_query in Hrow as (k & Hk & Hc & ->).
    destruct (duplicate_of_fields table k) as (_ & Hi & Hd).
    rewrite Hi, Hd in Hbad. destruct Hbad as [Hbad | Hbad].
    + destruct (Sql.members k table) as [|r rs] eqn:M; [simpl in Hc; lia |].
      assert (Hr : In r (Sql.members k table)) by (rewrite M; now left).
      apply in_members in Hr as [Hr Hkey].
      exists r. split; [exact Hr |]. split.
      * exists k. split; [exact Hkey | now rewrite M].
      * left. unfold Sql.key_of in Hkey.
        destruct (Jobs.title r), (Jobs.company r), (Jobs.location r);
          try discriminate.
        injection Hkey as <-. simpl in Hbad.
        now destruct (Jobs.description r).
    + apply show_jobs_raised in Hbad as (i & Hi' & Hr).
      apply in_map_iff in Hi' as (r & <- & Hr').
      apply in_members in Hr' as [Hin Hkey].
      exists r. split; [exact Hin |]. split; [now exists k |].
      right. now apply (show_job_raised table r Hnd Hin).
  - intros (r & Hin & (k & Hkey & Hc) & Hnull).
    exists (duplicate_of table k). split.
    + apply in_query. exists k. repeat split; auto.
      apply in_keys_of. now exists r.
    + destruct (duplicate_of_fields table k) as (_ & Hi & Hd).
      rewrite Hi, Hd.
      destruct Hnull as [Hnull | Hnull].
      * left. unfold Sql.key_of in Hkey.
        destruct (Jobs.title r), (Jobs.company r), (Jobs.location r);
          try discriminate.
        injection Hkey as <-. simpl. now rewrite Hnull.
      * right. apply show_jobs_raised. exists (Jobs.id r). split.
        -- apply in_map. now apply in_members.
        -- now apply (show_job_raised table r Hnd Hin).
Qed.

Lemma finder_agrees_groups (table : list Jobs.row) :
  snd (find_duplicates table) = Ok [] -> Sql.duplicate_groups table = [].
Proof.
  intros E. pose proof (find_duplicates_ok table [] E) as H.
  destruct (query_agrees table) as [Hl _].
  apply length_zero_iff_nil. rewrite <- Hl.
  apply (f_equal (@length found)) in H. now rewrite length_map in H.
Qed.

(** X10. When the finder returns, it returns the groups the sweep resolves:
    none exactly when the sweep has nothing to do; otherwise groups of more
    than one identifier whose surplus, the "total duplicate entries" it
    prints second, is the number of rows [remove_duplicates(dry_run=False)]
    deletes. *)
Theorem finder_agrees_with_sweep (table : list Jobs.row) (groups : list found) :
  snd (find_duplicates table) = Ok groups ->
  (groups = [] <-> Sql.duplicate_groups table = []) /\
  list_sum (map (fun g => f_count g - 1) groups) =
    FindTrueDuplicates.total_removed
      (FindTrueDuplicates.remove_duplicates false table) /\
  Forall (fun g => f_count g = length (f_ids g) /\ 1 < f_count g) groups /\
  (groups <> [] ->
   nth_error (fst (find_duplicates table)) 1 =
   Some (TotalDuplicateEntriesLine
           (FindTrueDuplicates.total_removed
              (FindTrueDuplicates.remove_duplicates false table)))).
Proof.
  intros E. pose proof (find_duplicates_ok table groups E) as ->.
  destruct (query_agrees table) as [Hl Hs].
  destruct (remove_duplicates_run table) as (_ & Hn & _).
  split; [| split; [| split]].
  - split; intros H.
    + apply length_zero_iff_nil. rewrite <- Hl.
      apply (f_equal (@length found)) in H. now rewrite length_map in H.
    + apply length_zero_iff_nil. rewrite length_map, Hl, H. reflexivity.
  - rewrite Hn, <- Hs, map_map. reflexivity.
  - apply Forall_forall. intros g Hg. apply in_map_iff in Hg as (row & <- & Hrow).
    apply in_query in Hrow as (k & _ & Hc & ->). simpl.
    destruct (duplicate_of_fields table k) as (-> & -> & _).
    now rewrite length_map.
  - intros Hne. unfold find_duplicates in *.
    destruct (query table) as [|row rest] eqn:Q; [now destruct Hne |].
    destruct (show_groups table 1 (row :: rest)) as [printed result].
    rewrite Hn, <- Hs. reflexivity.
Qed.

Lemma finder_agrees_with_sweep_witness :
  let table := [Sample.backend_a; Sample.cook; Sample.backend_b] in
  list_sum (map (fun g => f_count g - 1)
                [{| f_ids := [1; 2]%Z; f_count := 2;
                    f_title := "Backend Engineer"; f_company := "Acme";
                    f_location := "Auckland" |}]) =
  FindTrueDuplicates.total_removed
    (FindTrueDuplicates.remove_duplicates false table).
Proof.
  intros table.
  exact (proj1 (proj2 (finder_agrees_with_sweep table _ eq_refl))).
Defined.

(** X11. The finder raises exactly when a row of a duplicate group has a NULL
    description, [date_listed] or url, and then [main] stops before its
    prompt: whatever the answer would be, nothing is deleted, although the
    table holds duplicates. *)
Theorem unprintable_duplicates_stop_main (table : list Jobs.row) :
  NoDup (map Jobs.id table) ->
  ((exists r, unprintable table r) <->
   snd (find_duplicates table) = Raise TypeError) /\
  (forall e, snd (find_duplicates table) = Raise e -> e = TypeError) /\
  ((exists r, unprintable table r) ->
   Sql.duplicate_groups table <> [] /\
   forall response,
     main response table =
     (table, map Finding (fst (find_duplicates table)), Raise TypeError)).
Proof.
  intros Hnd.
  pose proof (find_duplicates_raises table) as R.
  pose proof (bad_group_iff_unprintable table Hnd) as B.
  assert (Iff : (exists r, unprintable table r) <->
                snd (find_duplicates table) = Raise TypeError).
  { split.
    - intros U. apply B in U as (row & Hrow & Hbad).
      destruct (snd (find_duplicates table)) as [gs | e].
      + destruct (R row Hrow) as [R1 R2].
        destruct Hbad as [Hbad | Hbad]; [contradiction | congruence].
      + destruct R as [-> _]. reflexivity.
    - intros E. rewrite E in R. destruct R as [_ R]. now apply B. }
  split; [exact Iff |]. split.
  - intros e E. rewrite E in R. now destruct R.
  - intros U. split.
    + destruct U as (r & _ & (k & Hk & Hc) & _).
      intros E. destruct (query_agrees table) as [Hl _]. rewrite E in Hl.
      apply length_zero_iff_nil in Hl.
      assert (Hin : In (duplicate_of table k) (query table)).
      { apply in_query. exists k. repeat split; auto.
        apply in_keys_of. destruct (Sql.members k table) as [|x xs] eqn:M;
          [simpl in Hc; lia |].
        exists x. apply in_members. rewrite M. now left. }
      now rewrite Hl in Hin.
    + intros response. apply Iff in U. unfold main.
      destruct (find_duplicates table) as [printed result]. simpl in U.
      now rewrite U.
Qed.

Lemma unprintable_duplicates_stop_main_witness :
  main "yes" Sample.seeded =
  (Sample.seeded, map Finding (fst (find_duplicates Sample.seeded)),
   Raise TypeError).
Proof.
  assert (Hnd : NoDup (map Jobs.id Sample.seeded)).
  { repeat constructor; simpl; intuition discriminate. }
  apply (proj2 (proj2 (unprintable_duplicates_stop_main Sample.seeded Hnd))).
  exists (Sample.posting 10 "https://www.seek.co.nz/job/10" 100).
  split; [simpl; tauto |]. split.
  - exists ("Backend Engineer", "Acme", "Auckland", Some "We need...").
    split; [reflexivity | vm_compute; lia].
  - right. left. reflexivity.
Defined.

(** X12. [main] deletes only on the answer "yes" (in any letter case, with any
    white space around it): with another answer, or when the finder raises,
    the table is left as it is; with "yes" after the finder returned, the
    table is what a destructive run leaves, and the number printed as
    removed is what that run returns. *)
Theorem main_deletes_only_on_yes (response : string) (table : list Jobs.row) :
  let table' := fst (fst (main response table)) in
  let printed := snd (fst (main response table)) in
  let out := snd (main response table) in
  (PyStr.lower (PyStr.strip response) <> "yes" -> table' = table) /\
  (forall e, snd (find_duplicates table) = Raise e ->
             table' = table /\ out = Raise e) /\
  (forall groups,
     PyStr.lower (PyStr.strip response) = "yes" ->
     snd (find_duplicates table) = Ok groups ->
     table' = Sql.survivors table /\ out = Ok tt /\
     (groups <> [] ->
      In (SuccessLine (FindTrueDuplicates.total_removed
                         (FindTrueDuplicates.remove_duplicates false table)))
         printed)).
Proof.
  cbv zeta. unfold main.
  pose proof (dry_run_table table) as Hdry.
  destruct (find_duplicates table) as [printed result] eqn:F.
  split; [| split].
  - intros Hno. apply String.eqb_neq in Hno.
    destruct result as [[|g gs] | e]; cbv beta iota zeta; try reflexivity.
    rewrite Hno. cbn [fst snd]. exact Hdry.
  - intros e E. simpl in E. subst result. now split.
  - intros groups Hyes E. simpl in E. subst result.
    apply String.eqb_eq in Hyes.
    destruct groups as [|g gs]; cbv beta iota zeta.
    + cbn [fst snd].
      split; [| split; [reflexivity | intros H; now destruct H]].
      symmetry. apply nothing_to_remove.
      assert (H : snd (find_duplicates table) = Ok []) by now rewrite F.
      now apply (finder_agrees_groups table) in H.
    + rewrite Hyes, !Hdry. cbn [fst snd].
      split; [exact (proj1 (remove_duplicates_run table)) |].
      split; [reflexivity |]. intros _.
      rewrite !in_app_iff. right. right. now left.
Qed.

Lemma main_deletes_only_on_yes_witness :
  fst (fst (main "  Yes " [Sample.backend_a; Sample.cook; Sample.backend_b])) =
    [Sample.backend_a; Sample.cook] /\
  fst (fst (main "y" [Sample.backend_a; Sample.cook; Sample.backend_b])) =
    [Sample.backend_a; Sample.cook; Sample.backend_b].
Proof.
  split.
  - destruct (main_deletes_only_on_yes "  Yes "
                [Sample.backend_a; Sample.cook; Sample.backend_b])
      as (_ & _ & H).
    destruct (H _ eq_refl eq_refl) as [-> _]. reflexivity.
  - assert (Hno : PyStr.lower (PyStr.strip "y") <> "yes") by discriminate.
    exact (proj1 (main_deletes_only_on_yes "y"
                    [Sample.backend_a; Sample.cook; Sample.backend_b]) Hno).
Defined.

End FindDuplicatesFacts.

(** ** backfill_regions.py: what a run does to the table *)

Module BackfillFacts.
Import JobDatabase ListFacts BackfillRegions.

Lemma set_region_same (n : string) (r : Jobs.row) :
  Jobs.region r = Some n -> set_region n r = r.
Proof. destruct r. simpl. now intros ->. Qed.

Lemma stale_relabel (r : Jobs.row) : stale (relabel r) = false.
Proof.
  unfold stale, relabel, differs, new_region_of. simpl.
  now rewrite String.eqb_refl.
Qed.

Lemma relabel_fresh (r : Jobs.row) : stale r = false -> relabel r = r.
Proof.
  unfold stale, differs, relabel.
  destruct (Jobs.region r) as [c |] eqn:E; [| discriminate].
  intros H. apply negb_false_iff, String.eqb_eq in H. subst c.
  now apply set_region_same.
Qed.

Lemma errors_app (a b : list line) : errors (a ++ b) = errors a + errors b.
Proof. unfold errors. now rewrite filter_app, length_app. Qed.

Lemma update_fresh (f : Jobs.row -> Jobs.row) (i : Z) (l : list Jobs.row) :
  ~ In i (map Jobs.id l) ->
  map (fun r => if (Jobs.id r =? i)%Z then f r else r) l = l.
Proof.
  induction l as [|x l IH]; intros H; [reflexivity |].
  simpl in *. destruct (Z.eqb_spec (Jobs.id x) i) as [E |]; [tauto |].
  f_equal. apply IH. tauto.
Qed.

Lemma update_one (f : Jobs.row -> Jobs.row) (pre rest : list Jobs.row)
    (j : Jobs.row) :
  NoDup (map Jobs.id (pre ++ j :: rest)) ->
  map (fun r => if (Jobs.id r =? Jobs.id j)%Z then f r else r)
      (pre ++ j :: rest) = pre ++ f j :: rest.
Proof.
  intros Hnd. rewrite map_app in Hnd. simpl in Hnd.
  pose proof (NoDup_remove_2 _ _ _ Hnd) as Hnot.
  rewrite in_app_iff in Hnot.
  rewrite map_app. simpl. rewrite Z.eqb_refl.
  rewrite !update_fresh; tauto.
Qed.

(** One pass of the loop over the row at its place in the table. *)
Lemma process_step (j : Jobs.row) (pre rest : list Jobs.row) (s : state)
    (w : world) :
  jobs w = pre ++ j :: rest ->
  NoDup (map Jobs.id (pre ++ j :: rest)) ->
  let s' := fst (process j (s, w)) in
  let w' := snd (process j (s, w)) in
  exists j',
    jobs w' = pre ++ j' :: rest /\
    ((j' = relabel j /\ errors (printed s') = errors (printed s) /\
      updated s' + skipped s' = S (updated s + skipped s)) \/
     (j' = j /\ stale j = true /\
      errors (printed s') = S (errors (printed s)) /\
      updated s' = updated s /\ skipped s' = skipped s)) /\
    (faults w = [] ->
     faults w' = [] /\ j' = relabel j /\
     updated s' = updated s + (if stale j then 1 else 0) /\
     skipped s' = skipped s + (if stale j then 0 else 1)).
Proof.
  intros Hw Hnd. cbv zeta. unfold process.
  fold (stale j).
  destruct (stale j) eqn:St.
  - unfold update_region, bind, execute.
    destruct (faults w) as [|[] fs] eqn:Hf; simpl.
    + exists (relabel j). rewrite Hw, update_one by exact Hnd.
      split; [reflexivity |]. split.
      * left. split; [reflexivity |]. rewrite errors_app.
        destruct (_ =? 0)%nat; unfold errors; simpl; lia.
      * intros _. repeat split; auto; lia.
    + exists j. split; [exact Hw |]. split; [| discriminate].
      right. rewrite errors_app. unfold errors at 2. simpl.
      repeat split; lia.
    + exists (relabel j). rewrite Hw, update_one by exact Hnd.
      split; [reflexivity |]. split; [| discriminate].
      left. split; [reflexivity |]. rewrite errors_app.
      destruct (_ =? 0)%nat; unfold errors; simpl; lia.
  - simpl. exists j. split; [exact Hw |].
    rewrite (relabel_fresh j St). split.
    + left. repeat split; lia.
    + intros Hf. repeat split; auto; lia.
Qed.

(** The relation between a row before the run and after it. *)
Lemma process_all_inv (rest pre : list Jobs.row) (s : state) (w : world) :
  jobs w = pre ++ rest ->
  NoDup (map Jobs.id (pre ++ rest)) ->
  let s' := fst (process_all rest (s, w)) in
  let w' := snd (process_all rest (s, w)) in
  exists rest',
    jobs w' = pre ++ rest' /\
    Forall2 (fun r r' => r' = relabel r \/ r' = r /\ stale r = true) rest rest' /\
    updated s' + skipped s' + errors (printed s') =
      updated s + skipped s + errors (printed s) + length rest /\
    errors (printed s') = errors (printed s) + length (filter stale rest') /\
    (faults w = [] ->
     faults w' = [] /\ rest' = map relabel rest /\
     updated s' = updated s + length (filter stale rest) /\
     skipped s' = skipped s + length (filter (fun r => negb (stale r)) rest)).
Proof.
  revert pre s w. induction rest as [|j rest IH]; intros pre s w Hw Hnd; cbv zeta.
  - exists []. simpl. repeat split; auto; lia.
  - change (process_all (j :: rest) (s, w))
      with (process_all rest (process j (s, w))).
    destruct (process_step j pre rest s w Hw Hnd) as (j' & Hj & Hcase & Hclean).
    cbv zeta in Hj, Hcase, Hclean.
    destruct (process j (s, w)) as [s1 w1] eqn:P. simpl in Hj, Hcase, Hclean.
    assert (Hid : Jobs.id j' = Jobs.id j).
    { destruct Hcase as [(-> & _) | (-> & _)]; reflexivity. }
    assert (Hw1 : jobs w1 = (pre ++ [j']) ++ rest) by now rewrite <- app_assoc.
    assert (Hnd1 : NoDup (map Jobs.id ((pre ++ [j']) ++ rest))).
    { rewrite <- app_assoc. simpl. rewrite map_app. simpl. rewrite Hid.
      now rewrite map_app in Hnd. }
    destruct (IH (pre ++ [j']) s1 w1 Hw1 Hnd1) as (rest' & Hr & HF & Hsum & Herr & Hcl).
    cbv zeta in Hr, HF, Hsum, Herr, Hcl.
    exists (j' :: rest'). split; [now rewrite Hr, <- app_assoc |].
    split.
    { constructor; [| exact HF].
      destruct Hcase as [(-> & _) | (-> & St & _)]; auto. }
    split.
    { rewrite Hsum. simpl.
      destruct Hcase as [(_ & E & U) | (_ & _ & E & U1 & U2)]; lia. }
    split.
    { rewrite Herr. simpl.
      destruct Hcase as [(-> & E & U) | (-> & St & E & U1 & U2)].
      - rewrite stale_relabel. lia.
      - rewrite St. simpl. lia. }
    intros Hf. destruct (Hclean Hf) as (Hf1 & -> & Hu & Hs).
    destruct (Hcl Hf1) as (Hf2 & -> & Hu2 & Hs2).
    split; [exact Hf2 |]. split; [reflexivity |]. simpl.
    destruct (stale j); simpl; lia.
Qed.

(** *** The region distribution *)

Lemma lookup_set (d : pydict nat) (k k' : string) (v : nat) :
  Dict.lookup (Dict.set d k v) k' =
  if String.eqb k k' then Some v else Dict.lookup d k'.
Proof.
  induction d as [|[a n] d IH]; simpl.
  - destruct (String.eqb_spec k k') as [-> | Hne]; [reflexivity | reflexivity].
  - destruct (String.eqb_spec a k) as [-> | Hak]; simpl.
    + destruct (String.eqb k k'); reflexivity.
    + rewrite IH. destruct (String.eqb_spec a k') as [-> | Hak'];
        [| reflexivity].
      destruct (String.eqb_spec k k') as [E | _]; [| reflexivity].
      now subst.
Qed.

Lemma key_of_set (d : pydict nat) (k : string) (v : nat) (x : string) :
  In x (map fst (Dict.set d k v)) -> x = k \/ In x (map fst d).
Proof.
  induction d as [|[a n] d IH]; simpl.
  - intros [E | []]. now left.
  - destruct (String.eqb_spec a k) as [E | Hak]; simpl.
    + intros [H | H]; [right; now left | right; now right].
    + intros [H | H]; [right; now left |].
      destruct (IH H) as [H' | H']; [now left | right; now right].
Qed.

Lemma keys_set (d : pydict nat) (k : string) (v : nat) :
  NoDup (map fst d) -> NoDup (map fst (Dict.set d k v)).
Proof.
  induction d as [|[a n] d IH]; simpl; intros Hnd.
  - repeat constructor. intros [].
  - inversion Hnd as [| ? ? Ha Hd]; subst.
    destruct (String.eqb_spec a k) as [E | Hak]; simpl.
    + now constructor.
    + constructor; [| now apply IH].
      intros Hin. apply key_of_set in Hin as [E | Hin];
        [now apply Hak | now apply Ha].
Qed.

Lemma sum_set (d : pydict nat) (k : string) :
  list_sum (map snd (Dict.set d k (count_of d k + 1))) =
  list_sum (map snd d) + 1.
Proof.
  unfold count_of. induction d as [|[a n] d IH]; simpl; [reflexivity |].
  destruct (String.eqb a k); simpl; [lia |]. rewrite IH. lia.
Qed.

Lemma in_set (d : pydict nat) (k : string) (v : nat) (x : string * nat) :
  In x (Dict.set d k v) -> x = (k, v) \/ In x d.
Proof.
  induction d as [|[a n] d IH]; simpl.
  - intros [E | []]. now left.
  - destruct (String.eqb_spec a k) as [E | Hak]; simpl.
    + intros [H | H]; [left; now subst | right; now right].
    + intros [H | H]; [right; now left |].
      destruct (IH H) as [H' | H']; [now left | right; now right].
Qed.

Lemma lookup_in (d : pydict nat) (k : string) (n : nat) :
  NoDup (map fst d) -> (In (k, n) d <-> Dict.lookup d k = Some n).
Proof.
  induction d as [|[a m] d IH]; simpl; intros Hnd.
  - split; [tauto | discriminate].
  - inversion Hnd as [| ? ? Ha Hd]; subst.
    destruct (String.eqb_spec a k) as [-> | Hak].
    + split.
      * intros [E | Hin]; [now inversion E |].
        exfalso. apply Ha. apply in_map_iff. now exists (k, n).
      * intros E. inversion E. now left.
    + rewrite <- (IH Hd). split; [| tauto].
      intros [E | Hin]; [inversion E; contradiction | assumption].
Qed.

(** The counting loop from any dict [acc]. *)
Lemma counting (rows : list Jobs.row) (acc : pydict nat) :
  let d := fold_left
             (fun region_counts job =>
                Dict.set region_counts (region_or_unknown job)
                         (count_of region_counts (region_or_unknown job) + 1))
             rows acc in
  (NoDup (map fst acc) -> NoDup (map fst d)) /\
  (forall k, count_of d k =
             count_of acc k +
             length (filter (fun r => String.eqb (region_or_unknown r) k) rows)) /\
  list_sum (map snd d) = list_sum (map snd acc) + length rows /\
  ((forall x, In x acc -> 0 < snd x) -> forall x, In x d -> 0 < snd x).
Proof.
  revert acc. induction rows as [|r rows IH]; intros acc; cbv zeta.
  - simpl. repeat split; auto; lia.
  - simpl fold_left.
    destruct (IH (Dict.set acc (region_or_unknown r)
                           (count_of acc (region_or_unknown r) + 1)))
      as (Hnd & Hc & Hs & Hp).
    cbv zeta in Hnd, Hc, Hs, Hp.
    split; [| split; [| split]].
    + intros H. apply Hnd. now apply keys_set.
    + intros k. rewrite Hc. unfold count_of at 1. rewrite lookup_set. simpl.
      destruct (String.eqb (region_or_unknown r) k) eqn:E; simpl.
      * apply String.eqb_eq in E. subst k. lia.
      * fold (count_of acc k). lia.
    + rewrite Hs, sum_set. simpl. lia.
    + intros H. apply Hp. intros x Hx. apply in_set in Hx as [-> | Hx];
        [simpl; lia | now apply H].
Qed.

Lemma count_regions_spec (rows : list Jobs.row) :
  NoDup (map fst (count_regions rows)) /\
  (forall region n,
     In (region, n) (count_regions rows) <->
     0 < n /\
     n = length (filter (fun r => String.eqb (region_or_unknown r) region) rows)) /\
  list_sum (map snd (count_regions rows)) = length rows.
Proof.
  destruct (counting rows []) as (Hnd & Hc & Hs & Hp).
  cbv zeta in Hnd, Hc, Hs, Hp. fold (count_regions rows) in Hnd, Hc, Hs, Hp.
  assert (Hnd' : NoDup (map fst (count_regions rows))) by (apply Hnd; constructor).
  split; [exact Hnd' |]. split; [| exact Hs].
  intros region n. rewrite (lookup_in _ region n Hnd'). split.
  - intros E. pose proof (Hc region) as C. unfold count_of in C.
    rewrite E in C. simpl in C. split; [| exact C].
    apply (lookup_in _ region n Hnd') in E.
    apply (Hp (fun x H => match H with end) _ E).
  - intros [Hpos ->]. pose proof (Hc region) as C. unfold count_of in C.
    simpl in C. destruct (Dict.lookup (count_regions rows) region) as [m |];
      [now rewrite C | lia].
Qed.

Lemma insert_region_count_perm (x : string * nat) (l : list (string * nat)) :
  Permutation (x :: l) (insert_by_count x l).
Proof.
  induction l as [|y l IH]; simpl; [reflexivity |].
  destruct (snd y <=? snd x)%nat; [reflexivity |].
  rewrite perm_swap. now constructor.
Qed.

Lemma sorted_by_count_perm (l : list (string * nat)) :
  Permutation l (sorted_by_count l).
Proof.
  induction l as [|x l IH]; simpl; [constructor |].
  rewrite <- insert_region_count_perm. now constructor.
Qed.

Lemma insert_by_count_sorted (x : string * nat) (l : list (string * nat)) :
  StronglySorted (fun a b => snd b <= snd a) l ->
  StronglySorted (fun a b => snd b <= snd a) (insert_by_count x l).
Proof.
  induction 1 as [|y l Hl IH Hy]; simpl.
  - repeat constructor.
  - destruct (Nat.leb_spec (snd y) (snd x)) as [Hle | Hlt].
    + constructor; [now constructor |].
      constructor; [exact Hle |].
      eapply Forall_impl; [| exact Hy]. simpl. intros z Hz. lia.
    + constructor; [exact IH |].
      apply Forall_forall. intros z Hz.
      apply (Permutation_in _ (Permutation_sym (insert_region_count_perm x l))) in Hz.
      destruct Hz as [<- | Hz]; [lia |].
      now apply (proj1 (Forall_forall _ _) Hy).
Qed.

Lemma sorted_by_count_sorted (l : list (string * nat)) :
  StronglySorted (fun a b => snd b <= snd a) (sorted_by_count l).
Proof.
  induction l as [|x l IH]; simpl; [constructor |].
  now apply insert_by_count_sorted.
Qed.

Lemma distribution_spec (rows : list Jobs.row) :
  NoDup (map fst (distribution rows)) /\
  (forall region n,
     In (region, n) (distribution rows) <->
     0 < n /\
     n = length (filter (fun r => String.eqb (region_or_unknown r) region) rows)) /\
  list_sum (map snd (distribution rows)) = length rows /\
  StronglySorted (fun a b => snd b <= snd a) (distribution rows).
Proof.
  destruct (count_regions_spec rows) as (Hnd & Hin & Hs).
  pose proof (sorted_by_count_perm (Dict.items (count_regions rows))) as P.
  unfold distribution, Dict.items in *.
  split; [| split; [| split]].
  - eapply Permutation_NoDup; [| exact Hnd]. now apply Permutation_map.
  - intros region n. rewrite <- Hin. split; intros H.
    + now apply (Permutation_in _ (Permutation_sym P)).
    + now apply (Permutation_in _ P).
  - rewrite <- Hs. symmetry. apply FindDuplicatesFacts.list_sum_perm.
    now apply Permutation_map.
  - apply sorted_by_count_sorted.
Qed.

(** *** The whole run *)

Lemma errors_region_lines (l : list (string * nat)) :
  errors (map (fun rc => RegionCountLine (fst rc) (snd rc)) l) = 0.
Proof. unfold errors. induction l as [|x l IH]; simpl; auto. Qed.

Lemma errors_summary (p : list line) (u k : nat) (l : list (string * nat)) :
  errors (p ++ UpdatedLine u :: SkippedLine k ::
          map (fun rc => RegionCountLine (fst rc) (snd rc)) l) = errors p.
Proof.
  rewrite errors_app.
  change (errors (UpdatedLine u :: SkippedLine k ::
                  map (fun rc => RegionCountLine (fst rc) (snd rc)) l))
    with (errors (map (fun rc => RegionCountLine (fst rc) (snd rc)) l)).
  rewrite errors_region_lines. lia.
Qed.

Lemma region_lines_app (a b : list line) :
  region_lines (a ++ b) = region_lines a ++ region_lines b.
Proof. unfold region_lines. apply flat_map_app. Qed.

Lemma region_lines_map (l : list (string * nat)) :
  region_lines (map (fun rc => RegionCountLine (fst rc) (snd rc)) l) = l.
Proof.
  unfold region_lines. induction l as [|[k n] l IH]; simpl; [reflexivity |].
  now f_equal.
Qed.

(** What the loop prints holds no region line. *)
Lemma process_all_region_lines (rows : list Jobs.row) (s : state) (w : world) :
  region_lines (printed (fst (process_all rows (s, w)))) =
  region_lines (printed s).
Proof.
  revert s w. induction rows as [|j rows IH]; intros s w; [reflexivity |].
  change (process_all (j :: rows) (s, w))
    with (process_all rows (process j (s, w))).
  destruct (process j (s, w)) as [s1 w1] eqn:P. rewrite IH.
  unfold process in P.
  destruct (differs _ _).
  - destruct (update_region _ _ w) as [[[] | e] w2]; inversion P; subst; simpl.
    + rewrite region_lines_app.
      destruct (_ =? 0)%nat; simpl; now rewrite app_nil_r.
    + rewrite region_lines_app. simpl. now rewrite app_nil_r.
  - now inversion P.
Qed.

(** The shape of a run with both settings present. *)
Lemma configured_run (url key : pyval) (w : world) :
  truthy url = true -> truthy key = true ->
  backfill_regions url key w =
  match select (fun _ => true) w with
  | (Ok rows, w0) =>
      let (s, w1) :=
        process_all rows
          ({| updated := 0; skipped := 0;
              printed := [FoundJobsLine (length rows)] |}, w0) in
      match select (fun _ => true) w1 with
      | (Ok stats, w2) =>
          (Ok {| updated := updated s; skipped := skipped s;
                 printed := printed s ++
                            [UpdatedLine (updated s); SkippedLine (skipped s)] ++
                            map (fun rc => RegionCountLine (fst rc) (snd rc))
                                (distribution stats) |}, w2)
      | (Raise e, w2) => (Raise e, w2)
      end
  | (Raise e, w0) => (Raise e, w0)
  end.
Proof.
  intros Hu Hk. unfold backfill_regions. rewrite Hu, Hk. simpl.
  unfold bind at 1.
  destruct (select (fun _ => true) w) as [[rows | e] w0]; [| reflexivity].
  destruct (process_all rows _) as [s w1].
  unfold bind, ret.
  destruct (select (fun _ => true) w1) as [[stats | e] w2]; reflexivity.
Qed.

(** A read of the whole table: the rows and the same table, or a failure
    and the same table; without pending failures it is the former. *)
Lemma select_all (w : world) :
  jobs (snd (select (fun _ => true) w)) = jobs w /\
  (fst (select (fun _ => true) w) = Ok (jobs w) \/
   fst (select (fun _ => true) w) = Raise APIError) /\
  (faults w = [] -> select (fun _ => true) w = (Ok (jobs w), w)).
Proof.
  unfold select, bind, execute.
  destruct (faults w) as [|[] rest]; simpl; rewrite ?filter_true;
    repeat split; auto; discriminate.
Qed.

Lemma Forall2_same {A : Type} (R : A -> A -> Prop) (l : list A) :
  (forall x, R x x) -> Forall2 R l l.
Proof. intros H. induction l; constructor; auto. Qed.

(** A run without failing requests. *)
Lemma clean_run (url key : pyval) (w : world) :
  truthy url = true -> truthy key = true ->
  faults w = [] -> NoDup (map Jobs.id (jobs w)) ->
  exists s,
    fst (backfill_regions url key w) = Ok s /\
    jobs (snd (backfill_regions url key w)) = map relabel (jobs w) /\
    faults (snd (backfill_regions url key w)) = [] /\
    updated s = length (filter stale (jobs w)) /\
    skipped s = length (filter (fun r => negb (stale r)) (jobs w)) /\
    region_lines (printed s) = distribution (map relabel (jobs w)).
Proof.
  intros Hu Hk Hf Hnd. rewrite (configured_run url key w Hu Hk).
  destruct (select_all w) as (_ & _ & Hsel). rewrite (Hsel Hf).
  destruct (process_all_inv (jobs w) []
              {| updated := 0; skipped := 0;
                 printed := [FoundJobsLine (length (jobs w))] |} w eq_refl Hnd)
    as (rest' & Hj & _ & _ & _ & Hclean).
  cbv zeta in Hj, Hclean. destruct (Hclean Hf) as (Hf1 & -> & Hup & Hsk).
  pose proof (process_all_region_lines (jobs w)
                {| updated := 0; skipped := 0;
                   printed := [FoundJobsLine (length (jobs w))] |} w) as Hrl.
  destruct (process_all (jobs w) _) as [s w1]. simpl in Hj, Hf1, Hup, Hsk, Hrl.
  destruct (select_all w1) as (_ & _ & Hsel1). rewrite (Hsel1 Hf1), Hj.
  eexists. split; [reflexivity |]. simpl.
  repeat split; auto.
  rewrite region_lines_app, Hrl. simpl. apply region_lines_map.
Qed.

Lemma relabel_twice (l : list Jobs.row) :
  map relabel (map relabel l) = map relabel l /\
  filter stale (map relabel l) = [] /\
  map Jobs.id (map relabel l) = map Jobs.id l.
Proof.
  induction l as [|r l (IH1 & IH2 & IH3)]; simpl; [auto |].
  rewrite IH1, IH3, stale_relabel, IH2.
  now rewrite (relabel_fresh (relabel r) (stale_relabel r)).
Qed.

(** X13. After a run in which no request fails, on a table with distinct
    identifiers: every row has the region [get_region] gives for its
    location ([''] for a NULL one), a name of [REGIONS]; no other column and
    no other row has changed; [updated] counts the rows whose region was
    another one or NULL, [skipped] the others. *)
Theorem backfill_labels_every_row (url key : pyval) (w : world) :
  truthy url = true -> truthy key = true ->
  faults w = [] -> NoDup (map Jobs.id (jobs w)) ->
  let w' := snd (backfill_regions url key w) in
  exists s,
    fst (backfill_regions url key w) = Ok s /\
    jobs w' = map (fun r => set_region (new_region_of r) r) (jobs w) /\
    (forall r, In r (jobs w') ->
       Jobs.region r =
         Some (NzLocations.get_region (PyStr (Jobs.or_empty (Jobs.location r)))) /\
       In (Jobs.or_empty (Jobs.region r)) NzLocations.REGIONS) /\
    updated s = length (filter stale (jobs w)) /\
    updated s + skipped s = length (jobs w).
Proof.
  intros Hu Hk Hf Hnd. cbv zeta.
  destruct (clean_run url key w Hu Hk Hf Hnd) as (s & Hs & Hj & _ & Hup & Hsk & _).
  exists s. split; [exact Hs |]. split; [exact Hj |]. split; [| split].
  - intros r Hr. rewrite Hj in Hr. apply in_map_iff in Hr as (r0 & <- & _).
    split; [reflexivity |]. simpl. apply RegionFacts.region_is_listed.
  - exact Hup.
  - rewrite Hup, Hsk. apply filter_partition_length.
Qed.

Lemma backfill_labels_every_row_witness :
  jobs (snd (backfill_regions (PyStr "https://x.supabase.co") (PyStr "secret")
                              (Sample.world_of legacy 7))) =
  [ Sample.backend_a; set_region "Auckland" unlabelled; Sample.cook;
    set_region "Other NZ" placeless; set_region "Wellington" misfiled ].
Proof.
  assert (Hnd : NoDup (map Jobs.id (jobs (Sample.world_of legacy 7)))).
  { repeat constructor; simpl; intuition discriminate. }
  destruct (backfill_labels_every_row (PyStr "https://x.supabase.co")
              (PyStr "secret") (Sample.world_of legacy 7)
              eq_refl eq_refl eq_refl Hnd) as (s & _ & Hj & _).
  rewrite Hj. vm_compute. reflexivity.
Defined.

(** X14. A second run after one without failures changes nothing: it updates no
    row and skips them all. *)
Theorem backfill_twice (url key : pyval) (w : world) :
  truthy url = true -> truthy key = true ->
  faults w = [] -> NoDup (map Jobs.id (jobs w)) ->
  let w1 := snd (backfill_regions url key w) in
  exists s2,
    fst (backfill_regions url key w1) = Ok s2 /\
    jobs (snd (backfill_regions url key w1)) = jobs w1 /\
    updated s2 = 0 /\ skipped s2 = length (jobs w).
Proof.
  intros Hu Hk Hf Hnd. cbv zeta.
  destruct (clean_run url key w Hu Hk Hf Hnd) as (s & _ & Hj & Hf1 & _).
  destruct (relabel_twice (jobs w)) as (Hm & Hst & Hid).
  assert (Hnd1 : NoDup (map Jobs.id (jobs (snd (backfill_regions url key w))))).
  { now rewrite Hj, Hid. }
  destruct (clean_run url key _ Hu Hk Hf1 Hnd1) as (s2 & Hs2 & Hj2 & _ & Hup & Hsk & _).
  exists s2. split; [exact Hs2 |]. rewrite Hj2, Hup, Hsk, Hj, Hm, Hst.
  split; [reflexivity |]. split; [reflexivity |].
  pose proof (filter_partition_length stale (map relabel (jobs w))) as H.
  rewrite Hst, length_map in H. simpl in H. exact H.
Qed.

Lemma backfill_twice_witness :
  let w1 := snd (backfill_regions (PyStr "https://x.supabase.co")
                                  (PyStr "secret") (Sample.world_of legacy 7)) in
  exists s2,
    fst (backfill_regions (PyStr "https://x.supabase.co") (PyStr "secret") w1)
      = Ok s2 /\
    updated s2 = 0 /\ skipped s2 = 5.
Proof.
  assert (Hnd : NoDup (map Jobs.id (jobs (Sample.world_of legacy 7)))).
  { repeat constructor; simpl; intuition discriminate. }
  destruct (backfill_twice (PyStr "https://x.supabase.co") (PyStr "secret")
              (Sample.world_of legacy 7) eq_refl eq_refl eq_refl Hnd)
    as (s2 & Hs2 & _ & Hup & Hsk).
  exists s2. split; [exact Hs2 |]. split; [exact Hup | exact Hsk].
Defined.

(** *** Which requests a run makes *)

Lemma hd_skipn (n : nat) (l : list bool) : hd false (skipn n l) = nth n l false.
Proof.
  revert l. induction n as [|n IH]; intros [|b l]; simpl; auto.
Qed.

Lemma hd_skipn_tl (n : nat) (l : list bool) :
  hd false (skipn n (tl l)) = nth (S n) l false.
Proof.
  destruct l as [|b l]; simpl; [now rewrite skipn_nil | apply hd_skipn].
Qed.

Lemma skipn_tl (n : nat) (l : list bool) : skipn n (tl l) = skipn (S n) l.
Proof. destruct l; simpl; [apply skipn_nil | reflexivity]. Qed.

(** A read takes the next flag, and fails exactly when the flag is set. *)
Lemma select_flags (p : Jobs.row -> bool) (w : world) :
  fst (select p w) = (if hd false (faults w) then Raise APIError
                      else Ok (filter p (jobs w))) /\
  faults (snd (select p w)) = tl (faults w).
Proof.
  unfold select. unfold bind, execute.
  destruct (faults w) as [|[] fs] eqn:Hf; simpl; rewrite ?Hf; now split.
Qed.

(** The loop makes one request for each row of its list whose region is
    not the one of its location, whether the request fails or not. *)
Lemma process_all_flags (rows : list Jobs.row) (s : state) (w : world) :
  faults (snd (process_all rows (s, w))) =
  skipn (length (filter stale rows)) (faults w).
Proof.
  revert s w. induction rows as [|j rows IH]; intros s w; [reflexivity |].
  change (process_all (j :: rows) (s, w))
    with (process_all rows (process j (s, w))).
  assert (Hstep : faults (snd (process j (s, w))) =
                  if stale j then tl (faults w) else faults w).
  { unfold process. fold (stale j). destruct (stale j); [| reflexivity].
    unfold update_region. unfold bind, execute.
    destruct (faults w) as [|[] fs] eqn:Hf; simpl; rewrite ?Hf; reflexivity. }
  destruct (process j (s, w)) as [s1 w1]. cbn [snd] in Hstep.
  rewrite IH, Hstep. cbn [filter].
  destruct (stale j); [apply skipn_tl | reflexivity].
Qed.

(** The function raises exactly when its first read fails or its last read
    fails, the request made after one update request for each stale row. *)
Lemma backfill_raises_iff (url key : pyval) (w : world) (e : exn) :
  truthy url = true -> truthy key = true ->
  (fst (backfill_regions url key w) = Raise e <->
   e = APIError /\
   (nth 0 (faults w) false = true \/
    nth (S (length (filter stale (jobs w)))) (faults w) false = true)).
Proof.
  intros Hu Hk. rewrite (configured_run url key w Hu Hk).
  destruct (select_flags (fun _ => true) w) as [O0 F0].
  destruct (select_all w) as (J0 & _ & _).
  assert (H0 : nth 0 (faults w) false = hd false (faults w))
    by now destruct (faults w).
  rewrite H0.
  destruct (select (fun _ => true) w) as [[rows | e0] w0]; cbn [fst snd] in *.
  - destruct (hd false (faults w)); [discriminate |].
    inversion O0 as [Hrows]. rewrite filter_true.
    pose proof (process_all_flags (jobs w)
                  {| updated := 0; skipped := 0;
                     printed := [FoundJobsLine (length (jobs w))] |} w0) as F1.
    destruct (process_all (jobs w) _) as [s w1]. cbn [snd] in F1.
    destruct (select_flags (fun _ => true) w1) as [O1 _].
    rewrite F1, F0, hd_skipn_tl in O1.
    destruct (select (fun _ => true) w1) as [[stats | e1] w2]; cbn [fst] in *.
    + destruct (nth (S (length (filter stale (jobs w)))) (faults w) false);
        [discriminate |].
      split; [discriminate | intros [_ [H | H]]; discriminate].
    + destruct (nth (S (length (filter stale (jobs w)))) (faults w) false);
        [| discriminate].
      inversion O1. split; [intros E; inversion E; auto | intros [-> _]; reflexivity].
  - destruct (hd false (faults w)); [| discriminate].
    inversion O0. split; [intros E; inversion E; auto | intros [-> _]; reflexivity].
Qed.

(** X15. Whatever requests fail, on a table with distinct identifiers: a row is
    left as it was or gets the region of its location; the function raises
    exactly when its first read fails or its last read fails (the request
    that follows one update request for each row whose region is not the one
    of its location), so that no failed update makes it raise; when it
    returns, every row was counted once, as updated, skipped or in an error
    line, and the error lines are as many as the rows whose region is still
    not the one of their location. *)
Theorem backfill_errors_are_stale_rows (url key : pyval) (w : world) :
  truthy url = true -> truthy key = true ->
  NoDup (map Jobs.id (jobs w)) ->
  let out := fst (backfill_regions url key w) in
  let w' := snd (backfill_regions url key w) in
  Forall2 (fun r r' => r' = set_region (new_region_of r) r \/ r' = r)
          (jobs w) (jobs w') /\
  (forall e, out = Raise e <->
             e = APIError /\
             (nth 0 (faults w) false = true \/
              nth (S (length (filter stale (jobs w)))) (faults w) false = true)) /\
  (forall s, out = Ok s ->
     updated s + skipped s + errors (printed s) = length (jobs w) /\
     errors (printed s) = length (filter stale (jobs w'))).
Proof.
  intros Hu Hk Hnd. cbv zeta.
  assert (Hraise := fun e => backfill_raises_iff url key w e Hu Hk).
  assert (Main :
    Forall2 (fun r r' => r' = set_region (new_region_of r) r \/ r' = r)
            (jobs w) (jobs (snd (backfill_regions url key w))) /\
    (forall s, fst (backfill_regions url key w) = Ok s ->
       updated s + skipped s + errors (printed s) = length (jobs w) /\
       errors (printed s) =
         length (filter stale (jobs (snd (backfill_regions url key w)))))).
  { clear Hraise. rewrite (configured_run url key w Hu Hk).
    destruct (select_all w) as (Hj0 & Hout0 & _).
    destruct (select (fun _ => true) w) as [[rows | e] w0]; simpl in Hj0, Hout0.
    - destruct Hout0 as [E0 | E0]; [| discriminate]. inversion E0; subst rows.
      clear E0.
      destruct (process_all_inv (jobs w) [] {| updated := 0; skipped := 0;
                   printed := [FoundJobsLine (length (jobs w))] |} w0 Hj0 Hnd)
        as (rest' & Hj & HF & Hsum & Herr & _).
      cbv zeta in Hj, Hsum, Herr.
      destruct (process_all (jobs w) _) as [s w1].
      cbn [fst snd updated skipped printed] in Hj, Hsum, Herr.
      assert (Hfound : errors [FoundJobsLine (length (jobs w))] = 0)
        by reflexivity.
      rewrite Hfound in Hsum, Herr.
      destruct (select_all w1) as (Hj1 & Hout1 & _).
      assert (HF' : Forall2 (fun r r' => r' = set_region (new_region_of r) r \/ r' = r)
                            (jobs w) rest').
      { eapply Forall2_impl; [| exact HF]. simpl. intros a b [H | [H _]]; auto. }
      destruct (select (fun _ => true) w1) as [[stats | e] w2];
        cbn [fst snd] in Hj1, Hout1 |- *; rewrite Hj1, Hj.
      + split; [exact HF' |].
        intros s' E1. inversion E1; subst s'.
        cbn [updated skipped printed]. rewrite errors_summary. simpl app. lia.
      + split; [exact HF' | discriminate].
    - cbn [fst snd] in *. rewrite Hj0. split; [apply Forall2_same; auto |].
      discriminate. }
  destruct Main as [M1 M3].
  split; [exact M1 |]. split; [exact Hraise | exact M3].
Qed.

Lemma backfill_errors_are_stale_rows_witness :
  let w := Sample.failing [false; true] (Sample.world_of legacy 7) in
  let w_last :=
    Sample.failing [false; false; false; false; true]
                   (Sample.world_of legacy 7) in
  match fst (backfill_regions (PyStr "https://x.supabase.co") (PyStr "secret") w)
  with
  | Ok s => updated s + skipped s + errors (printed s) = 5 /\
            errors (printed s) = 1
  | Raise _ => False
  end /\
  fst (backfill_regions (PyStr "https://x.supabase.co") (PyStr "secret") w_last)
    = Raise APIError.
Proof.
  intros w w_last. split.
  - assert (Hnd : NoDup (map Jobs.id (jobs w))).
    { repeat constructor; simpl; intuition discriminate. }
    destruct (backfill_errors_are_stale_rows (PyStr "https://x.supabase.co")
                (PyStr "secret") w eq_refl eq_refl Hnd) as (_ & _ & H).
    destruct (fst (backfill_regions (PyStr "https://x.supabase.co")
                                    (PyStr "secret") w)) as [s | e] eqn:E.
    + destruct (H s eq_refl) as [H1 H2]. split; [exact H1 |].
      rewrite H2. vm_compute. reflexivity.
    + vm_compute in E. discriminate.
  - assert (Hnd : NoDup (map Jobs.id (jobs w_last))).
    { repeat constructor; simpl; intuition discriminate. }
    destruct (backfill_errors_are_stale_rows (PyStr "https://x.supabase.co")
                (PyStr "secret") w_last eq_refl eq_refl Hnd) as (_ & H & _).
    apply (proj2 (H APIError)). split; [reflexivity |].
    right. vm_compute. reflexivity.
Defined.

(** X16. When the function returns, the region lines it printed are the census
    of the table it leaves: one line for each region that occurs, NULL and
    the empty text being counted as "Unknown", with the number of its rows;
    the numbers add up to the number of rows and never grow down the list. *)
Theorem region_lines_count_every_row (url key : pyval) (w : world) (s : state) :
  truthy url = true -> truthy key = true ->
  fst (backfill_regions url key w) = Ok s ->
  let table := jobs (snd (backfill_regions url key w)) in
  let lines := region_lines (printed s) in
  NoDup (map fst lines) /\
  (forall region n,
     In (region, n) lines <->
     0 < n /\
     n = length (filter (fun r => String.eqb (region_or_unknown r) region) table)) /\
  list_sum (map snd lines) = length table /\
  StronglySorted (fun a b => snd b <= snd a) lines.
Proof.
  intros Hu Hk. cbv zeta. rewrite (configured_run url key w Hu Hk).
  destruct (select (fun _ => true) w) as [[rows | e] w0]; [| discriminate].
  pose proof (process_all_region_lines rows
                {| updated := 0; skipped := 0;
                   printed := [FoundJobsLine (length rows)] |} w0) as Hrl.
  destruct (process_all rows _) as [s1 w1]. simpl in Hrl.
  destruct (select_all w1) as (Hj1 & Hout1 & _).
  destruct (select (fun _ => true) w1) as [[stats | e] w2]; [| discriminate].
  simpl in Hj1, Hout1. simpl. intros E. inversion E; subst s. simpl.
  destruct Hout1 as [H | H]; [| discriminate]. inversion H; subst stats.
  rewrite region_lines_app, Hrl. simpl. rewrite region_lines_map, Hj1.
  apply distribution_spec.
Qed.

Lemma region_lines_count_every_row_witness :
  let w := Sample.failing [false; true] (Sample.world_of legacy 7) in
  match fst (backfill_regions (PyStr "https://x.supabase.co") (PyStr "secret") w)
  with
  | Ok s => list_sum (map snd (region_lines (printed s))) = 5 /\
            NoDup (map fst (region_lines (printed s)))
  | Raise _ => False
  end.
Proof.
  intros w.
  pose proof (region_lines_count_every_row (PyStr "https://x.supabase.co")
                (PyStr "secret") w) as H.
  destruct (fst (backfill_regions (PyStr "https://x.supabase.co")
                                  (PyStr "secret") w)) as [s | e] eqn:E.
  - destruct (H s eq_refl eq_refl eq_refl) as (Hnd & _ & Hsum & _).
    split; [| exact Hnd]. rewrite Hsum. vm_compute. reflexivity.
  - vm_compute in E. discriminate.
Defined.

End BackfillFacts.

(** ** supabase_client.py: triage, statistics and the filter options *)

Module ClientFacts.
Import JobDatabase ListFacts SupabaseClient.

(** *** Text *)

Lemma rstrip_rstrip (s : string) : PyStr.rstrip (PyStr.rstrip s) = PyStr.rstrip s.
Proof.
  induction s as [|c s IH]; [reflexivity |].
  simpl. destruct (PyStr.rstrip s) as [|a r] eqn:E.
  - destruct (PyStr.is_space c) eqn:Sp; simpl; [reflexivity |].
    now rewrite Sp.
  - change (PyStr.rstrip (String c (String a r)))
      with (match PyStr.rstrip (String a r) with
            | EmptyString =>
                if PyStr.is_space c then EmptyString else String c EmptyString
            | String x y => String c (String x y)
            end).
    now rewrite IH.
Qed.

Lemma lstrip_head (s : string) :
  PyStr.lstrip s = EmptyString \/
  exists c t, PyStr.lstrip s = String c t /\ PyStr.is_space c = false.
Proof.
  induction s as [|c s IH]; [now left |].
  simpl. destruct (PyStr.is_space c) eqn:Sp; [exact IH |].
  right. now exists c, s.
Qed.

Lemma strip_strip (s : string) : PyStr.strip (PyStr.strip s) = PyStr.strip s.
Proof.
  unfold PyStr.strip.
  assert (H : PyStr.lstrip (PyStr.rstrip (PyStr.lstrip s)) =
              PyStr.rstrip (PyStr.lstrip s)).
  { destruct (lstrip_head s) as [-> | (c & t & -> & Sp)]; [reflexivity |].
    simpl. destruct (PyStr.rstrip t); rewrite ?Sp; simpl; now rewrite Sp. }
  rewrite H. apply rstrip_rstrip.
Qed.

(** *** Sorting a set of texts *)

Lemma insert_sorted_perm (x : string) (l : list string) :
  Permutation (x :: l) (insert_sorted x l).
Proof.
  induction l as [|y l IH]; simpl; [reflexivity |].
  destruct (String.leb x y); [reflexivity |].
  rewrite perm_swap. now constructor.
Qed.

Lemma sorted_perm (l : list string) : Permutation l (sorted l).
Proof.
  induction l as [|x l IH]; simpl; [constructor |].
  rewrite <- insert_sorted_perm. now constructor.
Qed.

Lemma insert_sorted_Sorted (x : string) (l : list string) :
  Sorted (fun a b => String.leb a b = true) l ->
  Sorted (fun a b => String.leb a b = true) (insert_sorted x l).
Proof.
  induction 1 as [|y l Hl IH Hy]; simpl.
  - repeat constructor.
  - destruct (String.leb x y) eqn:E.
    + constructor; [now constructor | now constructor].
    + assert (Hyx : String.leb y x = true).
      { destruct (String.leb_total x y) as [H | H]; congruence. }
      constructor; [exact IH |].
      destruct l as [|z l]; simpl; [now constructor |].
      inversion Hy; subst.
      destruct (String.leb x z); now constructor.
Qed.

Lemma sorted_Sorted (l : list string) :
  Sorted (fun a b => String.leb a b = true) (sorted l).
Proof.
  induction l as [|x l IH]; simpl; [constructor |].
  now apply insert_sorted_Sorted.
Qed.

Lemma ltb_of_leb (a b : string) :
  String.leb a b = true -> a <> b -> String.ltb a b = true.
Proof.
  unfold String.leb, String.ltb. intros H Hne.
  destruct (String.compare a b) eqn:C; try reflexivity; try discriminate.
  apply String.compare_eq_iff in C. contradiction.
Qed.

Lemma Sorted_strict (l : list string) :
  Sorted (fun a b => String.leb a b = true) l -> NoDup l ->
  Sorted (fun a b => String.ltb a b = true) l.
Proof.
  induction 1 as [|a l Hl IH Ha]; intros Hnd; constructor.
  - apply IH. now inversion Hnd.
  - inversion Ha as [| b l' Hab]; subst; constructor.
    apply ltb_of_leb; [exact Hab |].
    inversion Hnd as [| ? ? Hnot _]; subst.
    intros ->. apply Hnot. now left.
Qed.

Lemma sorted_set_of (l : list string) :
  Sorted (fun a b => String.ltb a b = true) (sorted (set_of l)) /\
  NoDup (sorted (set_of l)) /\
  (forall x, In x (sorted (set_of l)) <-> In x l).
Proof.
  assert (Hnd : NoDup (sorted (set_of l))).
  { eapply Permutation_NoDup; [apply sorted_perm |]. apply NoDup_nodup. }
  split; [| split; [exact Hnd |]].
  - apply Sorted_strict; [apply sorted_Sorted | exact Hnd].
  - intros x. unfold set_of. rewrite <- (nodup_In string_dec l x). split.
    + apply Permutation_in. apply Permutation_sym, sorted_perm.
    + apply Permutation_in. apply sorted_perm.
Qed.

(** *** The filter options *)

(** A function body that makes one read and computes on its rows. *)
Lemma one_read {A : Type} (url key : pyval) (p : Jobs.row -> bool)
    (f : list Jobs.row -> A) (w : world) (a : A) :
  fst (with_client url key (data <- select p ;; ret (f data)) w) = Returns a ->
  a = f (filter p (jobs w)).
Proof.
  unfold with_client, select. unfold bind, execute, ret.
  destruct (negb (truthy url) || negb (truthy key)); [discriminate |].
  destruct (faults w) as [|[] fs]; simpl; intros E;
    try discriminate; congruence.
Qed.

(** X17. The regions offered as a filter are in strictly ascending order, hence
    without repetition; none is empty or has white space at either end;
    and they are the stored regions, stripped, that are not blank. *)
Theorem get_regions_are_normalized (url key : pyval) (w : world)
    (regions : list string) :
  fst (get_regions url key w) = Returns regions ->
  Sorted (fun a b => String.ltb a b = true) regions /\
  NoDup regions /\
  (forall x, In x regions <->
             x <> "" /\
             exists r region, In r (jobs w) /\ Jobs.region r = Some region /\
                              PyStr.strip region = x) /\
  (forall x, In x regions -> PyStr.strip x = x).
Proof.
  intros E. unfold get_regions in E. apply one_read in E. subst regions.
  match goal with |- context [sorted (set_of ?l)] => set (found := l) end.
  destruct (sorted_set_of found) as (Hs & Hnd & Hin).
  assert (Hfound : forall x, In x found <->
            x <> "" /\
            exists r region, In r (jobs w) /\ Jobs.region r = Some region /\
                             PyStr.strip region = x).
  { intros x. unfold found. rewrite in_flat_map. split.
    - intros (r & Hr & Hx). apply filter_In in Hr as [Hr _].
      destruct (Jobs.region r) as [region |] eqn:R; [| contradiction].
      destruct (truthy (PyStr region) && truthy (PyStr (PyStr.strip region)))
        eqn:T; [| contradiction].
      destruct Hx as [<- | []]. apply andb_true_iff in T as [_ T].
      simpl in T. apply negb_true_iff, String.eqb_neq in T.
      split; [exact T |]. now exists r, region.
    - intros (Hne & r & region & Hr & R & <-).
      assert (Hreg : region <> "") by (intros ->; now apply Hne).
      exists r. split.
      + apply filter_In. split; [exact Hr |]. rewrite R. simpl.
        now apply negb_true_iff, String.eqb_neq.
      + rewrite R. simpl.
        apply String.eqb_neq in Hreg, Hne. rewrite Hreg, Hne. simpl. now left. }
  split; [exact Hs |]. split; [exact Hnd |]. split.
  - intros x. now rewrite Hin.
  - intros x Hx. apply Hin, Hfound in Hx as (_ & r & region & _ & _ & <-).
    apply strip_strip.
Qed.

Lemma get_regions_are_normalized_witness :
  let regions := ["Auckland"; "Wellington"] in
  Sorted (fun a b => String.ltb a b = true) regions /\ NoDup regions.
Proof.
  intros regions.
  destruct (get_regions_are_normalized (PyStr "https://x.supabase.co")
              (PyStr "secret") (Sample.world_of roster 10) regions eq_refl)
    as (Hs & Hnd & _).
  now split.
Defined.

(** X18. The job types offered as a filter are in strictly ascending order,
    hence without repetition, and are the stored job types other than the
    empty text, as they are stored. *)
Theorem get_job_types_are_distinct (url key : pyval) (w : world)
    (job_types : list string) :
  fst (get_job_types url key w) = Returns job_types ->
  Sorted (fun a b => String.ltb a b = true) job_types /\
  NoDup job_types /\
  (forall x, In x job_types <->
             x <> "" /\ exists r, In r (jobs w) /\ Jobs.job_type r = Some x).
Proof.
  intros E. unfold get_job_types in E. apply one_read in E. subst job_types.
  match goal with |- context [sorted (set_of ?l)] => set (found := l) end.
  destruct (sorted_set_of found) as (Hs & Hnd & Hin).
  split; [exact Hs |]. split; [exact Hnd |].
  intros x. rewrite Hin. unfold found. rewrite in_flat_map. split.
  - intros (r & Hr & Hx). apply filter_In in Hr as [Hr _].
    destruct (Jobs.job_type r) as [t |] eqn:T; [| contradiction].
    simpl in Hx. destruct (String.eqb_spec t "") as [-> | Hne];
      simpl in Hx; [contradiction |].
    destruct Hx as [<- | []]. split; [exact Hne |]. now exists r.
  - intros (Hne & r & Hr & T). exists r. split.
    + apply filter_In. split; [exact Hr |]. rewrite T. simpl.
      now apply negb_true_iff, String.eqb_neq.
    + rewrite T. simpl. apply String.eqb_neq in Hne. rewrite Hne. simpl.
      now left.
Qed.

Lemma get_job_types_are_distinct_witness :
  let job_types := ["Contract/Temp"; "Full time"] in
  Sorted (fun a b => String.ltb a b = true) job_types /\ NoDup job_types.
Proof.
  intros job_types.
  destruct (get_job_types_are_distinct (PyStr "https://x.supabase.co")
              (PyStr "secret") (Sample.world_of roster 10) job_types eq_refl)
    as (Hs & Hnd & _).
  now split.
Defined.

(** *** Triage and statistics *)

(** Every row is counted in one of four classes. *)
Lemma triage_classes (table : list Jobs.row) :
  length (filter (fun r => eq_filter (Jobs.triage_status r) (PyStr "yes")) table) +
  length (filter (fun r => eq_filter (Jobs.triage_status r) (PyStr "no")) table) +
  length (filter (fun r => is_null (Jobs.triage_status r)) table) +
  length (filter otherwise_tagged table) = length table.
Proof.
  induction table as [|r table IH]; [reflexivity |].
  assert (H : (if eq_filter (Jobs.triage_status r) (PyStr "yes") then 1 else 0) +
              (if eq_filter (Jobs.triage_status r) (PyStr "no") then 1 else 0) +
              (if is_null (Jobs.triage_status r) then 1 else 0) +
              (if otherwise_tagged r then 1 else 0) = 1).
  { unfold otherwise_tagged, eq_filter, is_null.
    destruct (Jobs.triage_status r) as [t |]; simpl; [| reflexivity].
    destruct (String.eqb_spec t "yes") as [-> | Hy]; simpl; [reflexivity |].
    destruct (String.eqb t "no"); reflexivity. }
  cbn [filter].
  destruct (eq_filter (Jobs.triage_status r) (PyStr "yes")),
           (eq_filter (Jobs.triage_status r) (PyStr "no")),
           (is_null (Jobs.triage_status r)), (otherwise_tagged r);
    cbn [length] in *; lia.
Qed.

Lemma count_where_inv (p : Jobs.row -> bool) (w : world) :
  jobs (snd (count_where p w)) = jobs w /\
  (fst (count_where p w) = Ok (length (filter p (jobs w))) \/
   fst (count_where p w) = Raise APIError) /\
  (faults w = [] -> count_where p w = (Ok (length (filter p (jobs w))), w)).
Proof.
  unfold count_where, select. unfold bind, execute, ret.
  destruct (faults w) as [|[] fs]; simpl; repeat split; auto; discriminate.
Qed.

(** One of the four counts of [get_stats], in its place. *)
Ltac count_step p w n w' C J :=
  let O := fresh "O" in
  destruct (count_where_inv p w) as (J & O & _);
  destruct (count_where p w) as [[n | ?] w'] eqn:C; cbn [fst snd] in J, O;
  [ rewrite (UpsertFacts.bind_Ok _ _ _ _ _ C) in *;
    destruct O as [O | O]; [inversion O; subst n; clear O | discriminate]
  | rewrite (UpsertFacts.bind_Raise _ _ _ _ _ C) in *; discriminate ].

(** The statistics of a table. *)
Lemma get_stats_returns (url key : pyval) (w : world) (st : stats) :
  fst (get_stats url key w) = Returns st ->
  jobs (snd (get_stats url key w)) = jobs w /\
  st = {| total := length (jobs w);
          yes := length (filter (fun r => eq_filter (Jobs.triage_status r)
                                                    (PyStr "yes")) (jobs w));
          no := length (filter (fun r => eq_filter (Jobs.triage_status r)
                                                   (PyStr "no")) (jobs w));
          unreviewed := length (filter (fun r => is_null (Jobs.triage_status r))
                                       (jobs w)) |}.
Proof.
  intros E. unfold get_stats, with_client in *.
  destruct (negb (truthy url) || negb (truthy key)); [discriminate |].
  count_step (fun _ : Jobs.row => true) w n1 w1 C1 J1.
  count_step (fun r => eq_filter (Jobs.triage_status r) (PyStr "yes"))
             w1 n2 w2 C2 J2.
  count_step (fun r => eq_filter (Jobs.triage_status r) (PyStr "no"))
             w2 n3 w3 C3 J3.
  count_step (fun r => is_null (Jobs.triage_status r)) w3 n4 w4 C4 J4.
  unfold ret in *. cbn [fst snd] in *. inversion E.
  rewrite J4, J3, J2, J1, filter_true. now split.
Qed.

Lemma get_stats_clean (url key : pyval) (w : world) :
  truthy url = true -> truthy key = true -> faults w = [] ->
  exists st, fst (get_stats url key w) = Returns st.
Proof.
  intros Hu Hk Hf. unfold get_stats, with_client. rewrite Hu, Hk. simpl negb.
  cbv iota. simpl orb. cbv iota.
  rewrite (UpsertFacts.bind_Ok _ _ _ _ _
             (proj2 (proj2 (count_where_inv (fun _ => true) w)) Hf)).
  rewrite (UpsertFacts.bind_Ok _ _ _ _ _
             (proj2 (proj2 (count_where_inv _ w)) Hf)).
  rewrite (UpsertFacts.bind_Ok _ _ _ _ _
             (proj2 (proj2 (count_where_inv _ w)) Hf)).
  rewrite (UpsertFacts.bind_Ok _ _ _ _ _
             (proj2 (proj2 (count_where_inv _ w)) Hf)).
  unfold ret. eexists. reflexivity.
Qed.

(** X19. When [get_stats] returns, it has not changed the table, [total] is the
    number of rows, and the three other numbers count disjoint rows: they
    add up to [total] less the rows whose triage status is some other text. *)
Theorem get_stats_adds_up (url key : pyval) (w : world) (st : stats) :
  fst (get_stats url key w) = Returns st ->
  jobs (snd (get_stats url key w)) = jobs w /\
  total st = length (jobs w) /\
  yes st + no st + unreviewed st + length (filter otherwise_tagged (jobs w)) =
    total st.
Proof.
  intros E. destruct (get_stats_returns url key w st E) as [Hj ->].
  split; [exact Hj |]. split; [reflexivity |]. simpl. apply triage_classes.
Qed.

Lemma get_stats_adds_up_witness :
  let st := {| total := 5; yes := 2; no := 1; unreviewed := 1 |} in
  yes st + no st + unreviewed st +
    length (filter otherwise_tagged (jobs (Sample.world_of roster 10))) =
  total st.
Proof.
  intros st.
  exact (proj2 (proj2 (get_stats_adds_up (PyStr "https://x.supabase.co")
                         (PyStr "secret") (Sample.world_of roster 10) st
                         eq_refl))).
Defined.

(** Counting after one row was replaced. *)
Lemma count_replaced (p : Jobs.row -> bool) (pre rest : list Jobs.row)
    (r r' : Jobs.row) :
  length (filter p (pre ++ r' :: rest)) + (if p r then 1 else 0) =
  length (filter p (pre ++ r :: rest)) + (if p r' then 1 else 0).
Proof.
  rewrite !filter_app, !length_app. simpl.
  destruct (p r), (p r'); simpl; lia.
Qed.

(** The update of [update_triage], without failure. *)
Lemma update_triage_clean (url key : pyval) (job_id : Z) (status : string)
    (w : world) :
  truthy url = true -> truthy key = true -> faults w = [] ->
  update_triage url key job_id status w =
  (Returns (existsb (fun r => Jobs.id r =? job_id)%Z (jobs w)),
   with_jobs w (map (fun r => if (Jobs.id r =? job_id)%Z
                              then set_triage status r else r) (jobs w))).
Proof.
  intros Hu Hk Hf. unfold update_triage, with_client.
  unfold bind, execute. rewrite Hu, Hk, Hf. simpl. f_equal. f_equal.
  rewrite length_map. induction (jobs w) as [|x l IH]; [reflexivity |].
  simpl. destruct (Jobs.id x =? job_id)%Z; simpl; [reflexivity | exact IH].
Qed.

(** X20. Triage of a stored job, on a table with distinct identifiers and
    without failing requests: [update_triage] returns [True], only the
    triage status of that row changes, and the statistics read afterwards
    differ from those read before by that one row: it leaves the class it
    was counted in and enters the class of the new status; [total] stays. *)
Theorem triage_moves_one_row (url key : pyval) (w : world) (r : Jobs.row)
    (status : string) :
  truthy url = true -> truthy key = true -> faults w = [] ->
  NoDup (map Jobs.id (jobs w)) -> In r (jobs w) ->
  let w1 := snd (update_triage url key (Jobs.id r) status w) in
  fst (update_triage url key (Jobs.id r) status w) = Returns true /\
  (exists pre rest, jobs w = pre ++ r :: rest /\
                    jobs w1 = pre ++ set_triage status r :: rest) /\
  exists before after,
    fst (get_stats url key w) = Returns before /\
    fst (get_stats url key w1) = Returns after /\
    total after = total before /\
    yes after + (if eq_filter (Jobs.triage_status r) (PyStr "yes") then 1 else 0)
      = yes before + (if String.eqb status "yes" then 1 else 0) /\
    no after + (if eq_filter (Jobs.triage_status r) (PyStr "no") then 1 else 0)
      = no before + (if String.eqb status "no" then 1 else 0) /\
    unreviewed after + (if is_null (Jobs.triage_status r) then 1 else 0)
      = unreviewed before.
Proof.
  intros Hu Hk Hf Hnd Hr. cbv zeta.
  rewrite (update_triage_clean url key (Jobs.id r) status w Hu Hk Hf).
  cbn [fst snd].
  destruct (in_split r (jobs w) Hr) as (pre & rest & Hw).
  assert (Hj : map (fun x => if (Jobs.id x =? Jobs.id r)%Z
                             then set_triage status x else x) (jobs w) =
               pre ++ set_triage status r :: rest).
  { rewrite Hw in Hnd |- *. now apply BackfillFacts.update_one. }
  split.
  { f_equal. apply existsb_exists. exists r. split; [exact Hr |].
    apply Z.eqb_refl. }
  split; [exists pre, rest; split; [exact Hw | exact Hj] |].
  set (w1 := with_jobs w _).
  assert (Hf1 : faults w1 = []) by exact Hf.
  destruct (get_stats_clean url key w Hu Hk Hf) as (before & Hb).
  destruct (get_stats_clean url key w1 Hu Hk Hf1) as (after & Ha).
  exists before, after. split; [exact Hb |]. split; [exact Ha |].
  destruct (get_stats_returns url key w before Hb) as [_ ->].
  destruct (get_stats_returns url key w1 after Ha) as [_ ->].
  cbn [total yes no unreviewed].
  change (jobs w1) with (map (fun x => if (Jobs.id x =? Jobs.id r)%Z
                                       then set_triage status x else x) (jobs w)).
  rewrite Hj, Hw.
  split; [rewrite !length_app; reflexivity |].
  split; [| split].
  - apply (count_replaced
             (fun x => eq_filter (Jobs.triage_status x) (PyStr "yes"))).
  - apply (count_replaced
             (fun x => eq_filter (Jobs.triage_status x) (PyStr "no"))).
  - pose proof (count_replaced (fun x => is_null (Jobs.triage_status x))
                  pre rest r (set_triage status r)) as H.
    simpl in H. lia.
Qed.

Lemma triage_moves_one_row_witness :
  let w := Sample.world_of roster 10 in
  let w1 := snd (update_triage (PyStr "https://x.supabase.co") (PyStr "secret")
                               1 "yes" w) in
  exists before after,
    fst (get_stats (PyStr "https://x.supabase.co") (PyStr "secret") w)
      = Returns before /\
    fst (get_stats (PyStr "https://x.supabase.co") (PyStr "secret") w1)
      = Returns after /\
    total after = total before /\
    yes after + 0 = yes before + 1 /\
    unreviewed after + 1 = unreviewed before.
Proof.
  intros w w1.
  assert (Hnd : NoDup (map Jobs.id (jobs w))).
  { repeat constructor; simpl; intuition discriminate. }
  assert (Hin : In Sample.backend_a (jobs w)) by now left.
  destruct (triage_moves_one_row (PyStr "https://x.supabase.co")
              (PyStr "secret") w Sample.backend_a "yes"
              eq_refl eq_refl eq_refl Hnd Hin)
    as (_ & _ & before & after & Hb & Ha & Ht & Hy & _ & Hu).
  exists before, after. repeat split; assumption.
Defined.

(** X21. [update_triage] changes the table only when it returns [True]: with
    [False] no row has the identifier, and when it raises, for a missing
    setting or a failed request, nothing was written. *)
Theorem update_triage_without_match (url key : pyval) (job_id : Z)
    (status : string) (w : world) :
  fst (update_triage url key job_id status w) <> Returns true ->
  jobs (snd (update_triage url key job_id status w)) = jobs w /\
  (fst (update_triage url key job_id status w) = Returns false ->
   forall r, In r (jobs w) -> Jobs.id r <> job_id).
Proof.
  unfold update_triage, with_client. unfold bind, execute.
  destruct (negb (truthy url) || negb (truthy key)); [now split |].
  assert (Hmiss : forall l : list Jobs.row,
            (0 <? length (map (set_triage status)
                              (filter (fun r => Jobs.id r =? job_id)%Z l)))%nat
              <> true ->
            (forall r, In r l -> Jobs.id r <> job_id) /\
            map (fun r => if (Jobs.id r =? job_id)%Z
                          then set_triage status r else r) l = l).
  { intros l. induction l as [|x l IH]; simpl; [now split |].
    destruct (Z.eqb_spec (Jobs.id x) job_id) as [E | Hne]; simpl;
      [intros H; now destruct H |].
    intros H. destruct (IH H) as [H1 H2]. split; [| now rewrite H2].
    intros r0 [<- | Hr0]; auto. }
  destruct (faults w) as [|[] fs]; simpl; intros Hne.
  - assert (H : (0 <? length (map (set_triage status)
                     (filter (fun r => Jobs.id r =? job_id)%Z (jobs w))))%nat
                <> true) by (intros H; apply Hne; now rewrite H).
    destruct (Hmiss _ H) as [H1 H2]. now split.
  - split; [reflexivity | discriminate].
  - assert (H : (0 <? length (map (set_triage status)
                     (filter (fun r => Jobs.id r =? job_id)%Z (jobs w))))%nat
                <> true) by (intros H; apply Hne; now rewrite H).
    destruct (Hmiss _ H) as [H1 H2]. now split.
Qed.

Lemma update_triage_without_match_witness :
  jobs (snd (update_triage (PyStr "https://x.supabase.co") (PyStr "secret")
                           404 "yes" (Sample.world_of roster 10))) = roster /\
  jobs (snd (update_triage (PyStr "https://x.supabase.co") PyNone
                           1 "yes" (Sample.world_of roster 10))) = roster.
Proof.
  split.
  - apply (update_triage_without_match (PyStr "https://x.supabase.co")
             (PyStr "secret") 404 "yes" (Sample.world_of roster 10)).
    vm_compute. discriminate.
  - apply (update_triage_without_match (PyStr "https://x.supabase.co")
             PyNone 1 "yes" (Sample.world_of roster 10)).
    vm_compute. discriminate.
Defined.

End ClientFacts.
